(** * lispd_lib.c: addresses, AFI translation, prefix arithmetic, dispatch

    A shallow embedding of the address utilities of [lispd/lispd_lib.c]
    and the properties stated about them.  Integers are [Z] with the
    conversions of C written out, memory is bytes, C strings are lists of
    characters read up to their terminating NUL. *)

From Stdlib Require Import ZArith List String Ascii Bool Lia.
From coqutil Require Import Byte.
Import ListNotations.
Local Open Scope Z_scope.

(** ** Integer conversions of C *)

Definition to_uint8 (z : Z) : Z := z mod 2 ^ 8.
Definition to_uint16 (z : Z) : Z := z mod 2 ^ 16.
Definition to_uint32 (z : Z) : Z := z mod 2 ^ 32.

(** ** Constants of the build *)

Inductive endianness : Set := LittleEndian | BigEndian.

(** Modelled from the spec: the header lispd_afi.h is not part of the
    source tree; section 6 gives the wire values of the AFI tag as
    0 = no address, 1 = IPv4, 2 = IPv6. *)
Definition LISP_AFI_NO_ADDR : Z := 0.
Definition LISP_AFI_IP : Z := 1.
Definition LISP_AFI_IPV6 : Z := 2.

(** The remaining macros come from headers outside the source tree (the
    daemon's own definitions and the socket headers of the platform); the
    functions below take them as parameters. *)
Class lispd_defs : Type := {
  GOOD : Z;
  BAD : Z;
  TRUE : Z;
  FALSE : Z;
  ERR_AFI : Z;
  AF_UNSPEC : Z;
  AF_INET : Z;
  AF_INET6 : Z;
  LISP_AFI_LCAF : Z;
  LISP_MAP_REQUEST : Z;
  LISP_MAP_REPLY : Z;
  LISP_MAP_REGISTER : Z;
  LISP_MAP_NOTIFY : Z;
  LISP_MAP_REFERRAL : Z;
  LISP_INFO_NAT : Z;
  LISP_ENCAP_CONTROL_TYPE : Z;
  host_byte_order : endianness
}.

(** What the code needs of the constants: the labels of every [switch] are
    pairwise distinct (C rejects a duplicate label), the return codes are
    told apart, [ERR_AFI] is no address family, the LCAF tag fits the
    16-bit AFI field and the codes stored in a [uint8_t] fit it. *)
Class lispd_defs_ok (D : lispd_defs) : Prop := {
  family_labels : NoDup [AF_UNSPEC; AF_INET; AF_INET6; LISP_AFI_LCAF];
  afi_labels : NoDup [LISP_AFI_NO_ADDR; LISP_AFI_IP; LISP_AFI_IPV6; LISP_AFI_LCAF];
  type_labels : NoDup [LISP_MAP_REQUEST; LISP_MAP_REPLY; LISP_MAP_REGISTER;
                       LISP_MAP_NOTIFY; LISP_MAP_REFERRAL; LISP_INFO_NAT;
                       LISP_ENCAP_CONTROL_TYPE];
  err_afi_no_family : ~ In ERR_AFI [AF_UNSPEC; AF_INET; AF_INET6; LISP_AFI_LCAF];
  return_codes : NoDup [GOOD; BAD; ERR_AFI];
  truth_values : TRUE <> FALSE /\ TRUE <> BAD;
  lcaf_uint16 : 0 <= LISP_AFI_LCAF < 2 ^ 16;
  codes_uint8 : 0 <= GOOD < 2 ^ 8 /\ 0 <= BAD < 2 ^ 8
}.

(** The values of a Linux build of the daemon. *)
Definition linux_defs : lispd_defs := {|
  GOOD := 1;
  BAD := 0;
  TRUE := 1;
  FALSE := 0;
  ERR_AFI := -2;
  AF_UNSPEC := 0;
  AF_INET := 2;
  AF_INET6 := 10;
  LISP_AFI_LCAF := 16387;
  LISP_MAP_REQUEST := 1;
  LISP_MAP_REPLY := 2;
  LISP_MAP_REGISTER := 3;
  LISP_MAP_NOTIFY := 4;
  LISP_MAP_REFERRAL := 6;
  LISP_INFO_NAT := 7;
  LISP_ENCAP_CONTROL_TYPE := 8;
  host_byte_order := LittleEndian
|}.

(** ** Memory: bytes, 32-bit words, the address union *)

(** Four bytes in memory order: the storage of a [uint32_t]. *)
Definition mem32 : Type := byte * byte * byte * byte.

Definition zero32 : mem32 := (Byte.x00, Byte.x00, Byte.x00, Byte.x00).

Definition bytes_of_mem32 (w : mem32) : list byte :=
  let '(b0, b1, b2, b3) := w in [b0; b1; b2; b3].

Definition mem32_of_bytes (l : list byte) : mem32 :=
  (nth 0 l Byte.x00, nth 1 l Byte.x00, nth 2 l Byte.x00, nth 3 l Byte.x00).

(** The value of four bytes read most significant byte first. *)
Definition be_decode (w : mem32) : Z :=
  let '(b0, b1, b2, b3) := w in
  byte.unsigned b0 * 2 ^ 24 + byte.unsigned b1 * 2 ^ 16
  + byte.unsigned b2 * 2 ^ 8 + byte.unsigned b3.

Definition be_encode (v : Z) : mem32 :=
  (byte.of_Z (v / 2 ^ 24), byte.of_Z (v / 2 ^ 16),
   byte.of_Z (v / 2 ^ 8), byte.of_Z v).

Definition le_decode (w : mem32) : Z :=
  let '(b0, b1, b2, b3) := w in be_decode (b3, b2, b1, b0).

Definition le_encode (v : Z) : mem32 :=
  let '(b0, b1, b2, b3) := be_encode v in (b3, b2, b1, b0).

(** Exchange of the four bytes of a 32-bit value. *)
Definition bswap32 (v : Z) : Z := le_decode (be_encode v).

(** Exchange of the two bytes of a 16-bit value. *)
Definition bswap16 (v : Z) : Z := (v mod 2 ^ 8) * 2 ^ 8 + (v / 2 ^ 8) mod 2 ^ 8.

(** The union [address] of [lisp_addr_t]: sixteen bytes, seen as
    [struct in_addr ip] (the first word) or as [struct in6_addr ipv6]
    (the four words [s6_addr32]). *)
Record addr_union : Type := {
  word0 : mem32;
  word1 : mem32;
  word2 : mem32;
  word3 : mem32
}.

Definition zero_union : addr_union :=
  {| word0 := zero32; word1 := zero32; word2 := zero32; word3 := zero32 |}.

Definition bytes_of_union (u : addr_union) : list byte :=
  bytes_of_mem32 (word0 u) ++ bytes_of_mem32 (word1 u)
  ++ bytes_of_mem32 (word2 u) ++ bytes_of_mem32 (word3 u).

Definition union_of_bytes (l : list byte) : addr_union :=
  {| word0 := mem32_of_bytes l;
     word1 := mem32_of_bytes (skipn 4 l);
     word2 := mem32_of_bytes (skipn 8 l);
     word3 := mem32_of_bytes (skipn 12 l) |}.

(** [ipv6.s6_addr32[i]] for an index inside the array. *)
Definition s6_addr32 (u : addr_union) (i : Z) : option mem32 :=
  if i =? 0 then Some (word0 u)
  else if i =? 1 then Some (word1 u)
  else if i =? 2 then Some (word2 u)
  else if i =? 3 then Some (word3 u)
  else None.

Definition set_s6_addr32 (u : addr_union) (i : Z) (w : mem32) : option addr_union :=
  if i =? 0 then Some {| word0 := w; word1 := word1 u; word2 := word2 u; word3 := word3 u |}
  else if i =? 1 then Some {| word0 := word0 u; word1 := w; word2 := word2 u; word3 := word3 u |}
  else if i =? 2 then Some {| word0 := word0 u; word1 := word1 u; word2 := w; word3 := word3 u |}
  else if i =? 3 then Some {| word0 := word0 u; word1 := word1 u; word2 := word2 u; word3 := w |}
  else None.

(** [ip.s_addr] overlays the first word. *)
Definition set_ip (u : addr_union) (w : mem32) : addr_union :=
  {| word0 := w; word1 := word1 u; word2 := word2 u; word3 := word3 u |}.

Record lisp_addr_t : Type := {
  address : addr_union;
  afi : Z
}.

(** [memcmp]: zero when the blocks agree, else the difference of the
    first pair of bytes that differ, read as unsigned characters. *)
Fixpoint memcmp (s1 s2 : list byte) : Z :=
  match s1, s2 with
  | x :: s1', y :: s2' =>
      if byte.unsigned x =? byte.unsigned y then memcmp s1' s2'
      else byte.unsigned x - byte.unsigned y
  | _, _ => 0
  end.

(** ** Characters and C strings *)

Definition NUL : ascii := Ascii.zero.

Definition is_char (c d : ascii) : bool := Ascii.eqb c d.

(** The classification of <ctype.h> in the C locale. *)
Definition in_range (lo hi : N) (c : ascii) : bool :=
  (lo <=? N_of_ascii c)%N && (N_of_ascii c <=? hi)%N.
Definition isdigit (c : ascii) : bool := in_range 48 57 c.
Definition isupper (c : ascii) : bool := in_range 65 90 c.
Definition islower (c : ascii) : bool := in_range 97 122 c.
Definition isalpha (c : ascii) : bool := isupper c || islower c.
Definition isalnum (c : ascii) : bool := isalpha c || isdigit c.
Definition isspace (c : ascii) : bool :=
  is_char c " " || in_range 9 13 c.

(** [s[i]]: the characters of the list, then the terminating NUL. *)
Definition char_at (s : list ascii) (i : nat) : ascii := nth i s NUL.

(** The string a [char *] designates: the characters before the first
    NUL. *)
Fixpoint c_string (s : list ascii) : list ascii :=
  match s with
  | [] => []
  | c :: s' => if is_char c NUL then [] else c :: c_string s'
  end.

(** [strchr(s, c)] for [c] other than NUL: the tail of the string from the
    first occurrence of [c], or [None] for the null pointer. *)
Fixpoint strchr (s : list ascii) (c : ascii) : option (list ascii) :=
  match s with
  | [] => None
  | x :: s' =>
      if is_char x NUL then None
      else if is_char x c then Some s
      else strchr s' c
  end.

Definition is_found {A : Type} (p : option A) : bool :=
  match p with
  | Some _ => true
  | None => false
  end.

Definition is_delim (delim : list ascii) (c : ascii) : bool :=
  existsb (is_char c) delim.

Fixpoint skip_delims (delim s : list ascii) : list ascii :=
  match s with
  | [] => []
  | c :: s' => if is_delim delim c then skip_delims delim s' else s
  end.

(** The token at the head of [s] and what follows its delimiter. *)
Fixpoint split_token (delim s : list ascii) : list ascii * option (list ascii) :=
  match s with
  | [] => ([], None)
  | c :: s' =>
      if is_delim delim c then ([], Some s')
      else let '(tok, rest) := split_token delim s' in (c :: tok, rest)
  end.

(** [strtok(str, delim)]: [saved] is the position kept between calls
    ([None] once the string is used up); the result is the token, or
    [None] for the null pointer, and the new saved position. *)
Definition strtok (str : option (list ascii)) (delim : list ascii)
    (saved : option (list ascii)) : option (list ascii) * option (list ascii) :=
  let start := match str with
               | Some s => Some (c_string s)
               | None => saved
               end in
  match start with
  | None => (None, None)
  | Some s =>
      match skip_delims delim s with
      | [] => (None, None)
      | s' => let '(tok, rest) := split_token delim s' in (Some tok, rest)
      end
  end.

Fixpoint atoi_digits (acc : Z) (s : list ascii) : Z :=
  match s with
  | [] => acc
  | c :: s' =>
      if isdigit c
      then atoi_digits (acc * 10 + Z.of_N (N_of_ascii c - 48)) s'
      else acc
  end.

Fixpoint skip_spaces (s : list ascii) : list ascii :=
  match s with
  | [] => []
  | c :: s' => if isspace c then skip_spaces s' else s
  end.

(** [atoi]: blanks, an optional sign, then digits; a value that does not
    fit an [int] has no defined behaviour. *)
Definition atoi (s : list ascii) : option Z :=
  let v := match skip_spaces (c_string s) with
           | "-"%char :: s' => - atoi_digits 0 s'
           | "+"%char :: s' => atoi_digits 0 s'
           | s' => atoi_digits 0 s'
           end in
  if (- 2 ^ 31 <=? v) && (v <? 2 ^ 31) then Some v else None.

(** Modelled from the spec: the struct lisp_encap_control_hdr_t, whose
    bit-field [type] the dispatcher reads, is not part of the source tree;
    section 6 places the message type in the high nibble of the first
    byte of the message. *)
Definition msg_type (packet : list byte) : Z :=
  byte.unsigned (nth 0 packet Byte.x00) / 16.

(** ** Effects: the log, calls of the handlers, undefined behaviour *)

Inductive log_level : Set :=
  | LISP_LOG_ERR
  | LISP_LOG_WARNING
  | LISP_LOG_DEBUG_1
  | LISP_LOG_DEBUG_2
  | LISP_LOG_DEBUG_3.

Inductive log_arg : Type :=
  | arg_int (z : Z)
  | arg_str (s : list ascii)
  | arg_strerror_errno.

Inductive event : Type :=
  | lispd_log_msg (level : log_level) (format : string) (args : list log_arg)
  | call_process_map_request_msg (packet : list byte) (local_rloc : lisp_addr_t) (remote_port : Z)
  | call_process_map_reply (packet : list byte)
  | call_process_map_notify (packet : list byte)
  | call_process_map_referral (packet : list byte)
  | call_process_info_nat_msg (packet : list byte) (local_rloc : lisp_addr_t).

(** A computation returns a value and the events it emitted, or has no
    defined behaviour in C ([None]). *)
Definition M (A : Type) : Type := option (A * list event).

Definition ret {A : Type} (x : A) : M A := Some (x, []).

Definition bind {A B : Type} (m : M A) (k : A -> M B) : M B :=
  match m with
  | None => None
  | Some (x, es) =>
      match k x with
      | None => None
      | Some (y, es') => Some (y, es ++ es')
      end
  end.

Definition emit (e : event) : M unit := Some (tt, [e]).

Definition undefined {A : Type} : M A := None.

Definition defined {A : Type} (o : option A) : M A :=
  match o with
  | Some x => ret x
  | None => undefined
  end.

Notation "x <- m ;; k" := (bind m (fun x => k))
  (at level 61, m at next level, right associativity).
Notation "m ;;; k" := (bind m (fun _ => k))
  (at level 61, right associativity).

Definition value_of {A : Type} (m : M A) : option A := option_map fst m.
Definition events_of {A : Type} (m : M A) : list event :=
  match m with
  | Some (_, es) => es
  | None => []
  end.

Section Lispd.

Context {D : lispd_defs}.

(** ** Byte order of the host *)

(** A [uint32_t] read from, and written to, memory. *)
Definition load32 (w : mem32) : Z :=
  match host_byte_order with
  | LittleEndian => le_decode w
  | BigEndian => be_decode w
  end.

Definition store32 (v : Z) : mem32 :=
  match host_byte_order with
  | LittleEndian => le_encode v
  | BigEndian => be_encode v
  end.

Definition ntohl (v : Z) : Z :=
  match host_byte_order with
  | LittleEndian => bswap32 v
  | BigEndian => v
  end.

Definition htonl (v : Z) : Z := ntohl v.

(** A [uint16_t] read from the first two bytes of a buffer. *)
Definition load16 (p : list byte) : option Z :=
  match p with
  | b0 :: b1 :: _ =>
      Some match host_byte_order with
           | LittleEndian => byte.unsigned b0 + byte.unsigned b1 * 2 ^ 8
           | BigEndian => byte.unsigned b0 * 2 ^ 8 + byte.unsigned b1
           end
  | _ => None
  end.

Definition ntohs (v : Z) : Z :=
  match host_byte_order with
  | LittleEndian => bswap16 v
  | BigEndian => v
  end.

(** ** AFI translation *)

(** lisp2inetafi, lines 1040-1055. *)
Definition lisp2inetafi (afi : Z) : M Z :=
  let afi := to_uint16 afi in
  if afi =? LISP_AFI_NO_ADDR then ret AF_UNSPEC
  else if afi =? LISP_AFI_IP then ret AF_INET
  else if afi =? LISP_AFI_IPV6 then ret AF_INET6
  else if afi =? LISP_AFI_LCAF then ret LISP_AFI_LCAF
  else
    emit (lispd_log_msg LISP_LOG_DEBUG_2 "lisp2inetafi: unknown AFI (%d)" [arg_int afi]) ;;;
    ret ERR_AFI.

(** inet2lispafi, lines 1061-1077. *)
Definition inet2lispafi (afi : Z) : M Z :=
  if afi =? AF_UNSPEC then ret LISP_AFI_NO_ADDR
  else if afi =? AF_INET then ret LISP_AFI_IP
  else if afi =? AF_INET6 then ret LISP_AFI_IPV6
  else if afi =? LISP_AFI_LCAF then ret LISP_AFI_LCAF
  else
    emit (lispd_log_msg LISP_LOG_DEBUG_2 "inet2lispafi: unknown AFI (%d)" [arg_int afi]) ;;;
    ret 0.

(** ** Comparison of addresses *)

(** compare_lisp_addr_t, lines 942-967.  A null pointer is [None]. *)
Definition compare_lisp_addr_t (addr1 addr2 : option lisp_addr_t) : Z :=
  match addr1, addr2 with
  | None, _ => -1
  | _, None => -1
  | Some addr1, Some addr2 =>
      if negb (afi addr1 =? afi addr2) then -1
      else
        let cmp :=
          if afi addr1 =? AF_INET then
            Some (memcmp (bytes_of_mem32 (word0 (address addr1)))
                         (bytes_of_mem32 (word0 (address addr2))))
          else if afi addr1 =? AF_INET6 then
            Some (memcmp (bytes_of_union (address addr1))
                         (bytes_of_union (address addr2)))
          else None in
        match cmp with
        | None => -1
        | Some cmp => if cmp =? 0 then 0 else if cmp >? 0 then 1 else 2
        end
  end.

(** ** Prefix arithmetic *)

(** [v << n] on a [uint32_t]; C defines it for [0 <= n < 32] only. *)
Definition shl32 (v n : Z) : M Z :=
  if (0 <=? n) && (n <? 32) then ret (to_uint32 (Z.shiftl v n)) else undefined.

(** get_network_address_v4, lines 1406-1422. *)
Definition get_network_address_v4 (a : lisp_addr_t) (prefix_length : Z) : M lisp_addr_t :=
  let network_address := {| address := zero_union; afi := AF_INET |} in
  let mask := 0xFFFFFFFF in
  let addr := ntohl (load32 (word0 (address a))) in
  mask <- (if negb (prefix_length =? 0) then shl32 mask (32 - prefix_length)
           else ret 0) ;;
  let addr := Z.land addr mask in
  ret {| address := set_ip (address network_address) (store32 (htonl addr));
         afi := afi network_address |}.

(** [mask[i]] and [mask[i] = v] on the local array of four words; an index
    outside the array has no defined behaviour. *)
Definition array_get (mask : list Z) (i : Z) : option Z :=
  if i <? 0 then None else nth_error mask (Z.to_nat i).

Fixpoint list_set (l : list Z) (n : nat) (v : Z) : list Z :=
  match l, n with
  | [], _ => []
  | _ :: l', O => v :: l'
  | x :: l', S n' => x :: list_set l' n' v
  end.

Definition array_set (mask : list Z) (i : Z) (v : Z) : option (list Z) :=
  if (0 <=? i) && (i <? Z.of_nat (List.length mask))
  then Some (list_set mask (Z.to_nat i) v) else None.

(** [for (; ctr < a; ctr++) mask[ctr] = 0xFFFFFFFF;] with [n] iterations
    left. *)
Fixpoint fill_mask (n : nat) (ctr : Z) (mask : list Z) : M (list Z) :=
  match n with
  | O => ret mask
  | S n' =>
      mask' <- defined (array_set mask ctr 0xFFFFFFFF) ;;
      fill_mask n' (ctr + 1) mask'
  end.

(** [for (; ctr < 4; ctr++) network_address...s6_addr32[ctr] = ...] with
    [n] iterations left. *)
Fixpoint apply_mask (n : nat) (ctr : Z) (a : addr_union) (mask : list Z)
    (network_address : addr_union) : M addr_union :=
  match n with
  | O => ret network_address
  | S n' =>
      w <- defined (s6_addr32 a ctr) ;;
      m <- defined (array_get mask ctr) ;;
      network_address' <-
        defined (set_s6_addr32 network_address ctr
                   (store32 (htonl (Z.land (ntohl (load32 w)) m)))) ;;
      apply_mask n' (ctr + 1) a mask network_address'
  end.

(** get_network_address_v6, lines 1424-1449.  [/] and [%] of C truncate
    towards zero. *)
Definition get_network_address_v6 (a : lisp_addr_t) (prefix_length : Z) : M lisp_addr_t :=
  let network_address := {| address := zero_union; afi := AF_INET6 |} in
  let mask := [0; 0; 0; 0] in
  let a_ := Z.quot prefix_length 32 in
  let b := Z.rem prefix_length 32 in
  mask <- fill_mask (Z.to_nat a_) 0 mask ;;
  mask <- (if negb (b =? 0) then
             m <- shl32 0xFFFFFFFF (32 - b) ;;
             defined (array_set mask a_ m)
           else ret mask) ;;
  u <- apply_mask 4 0 (address a) mask (address network_address) ;;
  ret {| address := u; afi := afi network_address |}.

(** get_network_address, lines 1384-1404. *)
Definition get_network_address (a : lisp_addr_t) (prefix_length : Z) : M lisp_addr_t :=
  let network_address := {| address := zero_union; afi := AF_UNSPEC |} in
  if afi a =? AF_INET then get_network_address_v4 a prefix_length
  else if afi a =? AF_INET6 then get_network_address_v6 a prefix_length
  else
    emit (lispd_log_msg LISP_LOG_DEBUG_1
            "get_network_address: Afi not supported (%d). It should never reach this point"
            [arg_int (afi a)]) ;;;
    ret network_address.

(** is_prefix_b_part_of_a, lines 1357-1382. *)
Definition is_prefix_b_part_of_a (a_prefix : lisp_addr_t) (a_prefix_length : Z)
    (b_prefix : lisp_addr_t) (b_prefix_length : Z) : M Z :=
  if negb (afi a_prefix =? afi b_prefix) then ret FALSE
  else if a_prefix_length >? b_prefix_length then ret FALSE
  else
    a_network_addr <- get_network_address a_prefix a_prefix_length ;;
    b_network_addr_prefix_a <- get_network_address b_prefix a_prefix_length ;;
    if compare_lisp_addr_t (Some a_network_addr) (Some b_network_addr_prefix_a) =? 0
    then ret TRUE
    else ret FALSE.

(** ** Reading an address from a packet *)

(** [memcpy(&(addr->address), ptr, n)]: the first [n] bytes of the union
    are replaced; reading past the end of the buffer is undefined. *)
Definition memcpy_address (u : addr_union) (ptr : list byte) (n : nat) : M addr_union :=
  if (n <=? List.length ptr)%nat
  then ret (union_of_bytes (firstn n ptr ++ skipn n (bytes_of_union u)))
  else undefined.

(** extract_lisp_address, lines 1303-1333; returns the result and the
    address written through [addr]. *)
Definition extract_lisp_address (ptr : list byte) (addr : lisp_addr_t) : M (Z * lisp_addr_t) :=
  let result := GOOD in
  tag <- defined (load16 ptr) ;;
  family <- lisp2inetafi (ntohs tag) ;;
  let addr := {| address := address addr; afi := family |} in
  let ptr := skipn 2 ptr in
  if afi addr =? AF_INET then
    u <- memcpy_address (address addr) ptr 4 ;;
    ret (result, {| address := u; afi := afi addr |})
  else if afi addr =? AF_INET6 then
    u <- memcpy_address (address addr) ptr 16 ;;
    ret (result, {| address := u; afi := afi addr |})
  else if afi addr =? AF_UNSPEC then
    ret (result, addr)
  else if afi addr =? LISP_AFI_LCAF then
    emit (lispd_log_msg LISP_LOG_DEBUG_2
            "extract_lisp_address: Couldn't process lcaf address" []) ;;;
    ret (ERR_AFI, addr)
  else
    emit (lispd_log_msg LISP_LOG_DEBUG_2
            "extract_lisp_address: Coudn't extract address. Unknown afi" []) ;;;
    ret (ERR_AFI, addr).

(** ** Text: hostnames and prefixes *)

(** get_afi, lines 321-327. *)
Definition get_afi (str : list ascii) : Z :=
  if is_found (strchr str ":") then AF_INET6 else AF_INET.

(** The result of running the loop of [isfqdn]: a [return] inside the
    body, or the exit of the loop with the values of [i] and [dot]. *)
Inductive loop_outcome : Type :=
  | loop_return (r : Z)
  | loop_exit (i : nat) (dot : Z).

(** The [while] loop of isfqdn, lines 595-606. *)
Fixpoint isfqdn_loop (fuel : nat) (s : list ascii) (i : nat) (dot : Z)
    : option loop_outcome :=
  match fuel with
  | O => None
  | S fuel' =>
      let c := char_at s i in
      if negb (is_char c NUL) && negb (is_char c ",") then
        let dot' := if is_char c "." then 1 else dot in
        if is_char c "." && is_char (char_at s (i - 1)) "."
        then Some (loop_return FALSE)
        else if negb (isalnum c || is_char c "-" || is_char c ".")
        then Some (loop_return FALSE)
        else isfqdn_loop fuel' s (S i) dot'
      else Some (loop_exit i dot)
  end.

(** isfqdn, lines 585-616; [None] only if the loop ran out of fuel. *)
Definition isfqdn (s : list ascii) : option Z :=
  if negb (isalnum (char_at s 0)) || is_found (strchr s ":") then Some BAD
  else
    match isfqdn_loop (S (List.length s)) s 1 0 with
    | None => None
    | Some (loop_return r) => Some r
    | Some (loop_exit i dot) =>
        if is_char (char_at s 0) "." || is_char (char_at s (i - 1)) "."
           || negb (isalpha (char_at s (i - 1)))
        then Some FALSE
        else if dot =? 1 then Some TRUE else Some FALSE
    end.

(** [inet_pton] of the C library: the bytes of the address when the text
    is a literal of the family (return value 1), [None] otherwise. *)
Variable inet_pton : Z -> list ascii -> option (list byte).

(** get_lisp_addr_from_char, lines 906-932; returns the result and the
    address written through [lisp_addr]. *)
Definition get_lisp_addr_from_char (addr_str : list ascii) (lisp_addr : lisp_addr_t)
    : M (Z * lisp_addr_t) :=
  let result := to_uint8 BAD in
  let lisp_addr := {| address := address lisp_addr; afi := get_afi addr_str |} in
  let '(result, lisp_addr) :=
    if afi lisp_addr =? AF_INET then
      match inet_pton AF_INET addr_str with
      | Some bytes =>
          (to_uint8 GOOD,
           {| address := union_of_bytes (firstn 4 bytes
                                         ++ skipn 4 (bytes_of_union (address lisp_addr)));
              afi := afi lisp_addr |})
      | None => (result, lisp_addr)
      end
    else if afi lisp_addr =? AF_INET6 then
      match inet_pton AF_INET6 addr_str with
      | Some bytes =>
          (to_uint8 GOOD,
           {| address := union_of_bytes (firstn 16 bytes
                                         ++ skipn 16 (bytes_of_union (address lisp_addr)));
              afi := afi lisp_addr |})
      | None => (result, lisp_addr)
      end
    else (result, lisp_addr) in
  if result =? BAD then
    emit (lispd_log_msg LISP_LOG_DEBUG_2
            "get_lisp_addr_from_char: Error parsing the string of the address: %s"
            [arg_str addr_str]) ;;;
    ret (result, {| address := address lisp_addr; afi := AF_UNSPEC |})
  else ret (result, lisp_addr).

(** get_lisp_addr_and_mask_from_char, lines 974-1000; returns the result,
    the address written through [lisp_addr] and the value of [*mask]. *)
Definition get_lisp_addr_and_mask_from_char (addr_str : list ascii)
    (lisp_addr : lisp_addr_t) (mask : Z) : M (Z * lisp_addr_t * Z) :=
  let '(token, saved) := strtok (Some addr_str) ["/"%char] None in
  match token with
  | None =>
      emit (lispd_log_msg LISP_LOG_DEBUG_1
              "get_lisp_addr_and_mask_from_char: Prefix not of the form prefix/length: %s"
              [arg_str addr_str]) ;;;
      ret (BAD, lisp_addr, mask)
  | Some token =>
      r <- get_lisp_addr_from_char token lisp_addr ;;
      let '(r, lisp_addr) := r in
      if r =? BAD then ret (BAD, lisp_addr, mask)
      else
        let '(token, saved) := strtok None ["/"%char] saved in
        match token with
        | None =>
            emit (lispd_log_msg LISP_LOG_DEBUG_1
                    "get_lisp_addr_and_mask_from_char: strtok: %s"
                    [arg_strerror_errno]) ;;;
            ret (BAD, lisp_addr, mask)
        | Some token =>
            mask <- defined (atoi token) ;;
            if afi lisp_addr =? AF_INET then
              if (mask <? 1) || (mask >? 32) then ret (BAD, lisp_addr, mask)
              else ret (GOOD, lisp_addr, mask)
            else
              if (mask <? 1) || (mask >? 128) then ret (BAD, lisp_addr, mask)
              else ret (GOOD, lisp_addr, mask)
        end
  end.

(** ** The dispatcher of control messages *)

(** The collaborators live outside this file: the socket layer and the
    handlers of the message types.  Each acts on the state of the rest of
    the daemon, [World], and returns its result code. *)
Variable World : Type.
Variable get_packet_and_socket_inf :
  Z -> Z -> World -> (Z * list byte * lisp_addr_t * Z) * World.
Variable process_map_request_msg : list byte -> lisp_addr_t -> Z -> World -> Z * World.
Variable process_map_reply : list byte -> World -> Z * World.
Variable process_map_notify : list byte -> World -> Z * World.
Variable process_map_referral : list byte -> World -> Z * World.
Variable process_info_nat_msg : list byte -> lisp_addr_t -> World -> Z * World.

(** A step of the dispatcher: a value, the events emitted, the state of
    the daemon afterwards. *)
Definition P (A : Type) : Type := World -> A * list event * World.

Definition pret {A : Type} (x : A) : P A := fun w => (x, [], w).

Definition pbind {A B : Type} (m : P A) (k : A -> P B) : P B :=
  fun w =>
    let '(x, es, w1) := m w in
    let '(y, es', w2) := k x w1 in
    (y, es ++ es', w2).

Definition plog (level : log_level) (format : string) : P unit :=
  fun w => (tt, [lispd_log_msg level format []], w).

(** The call of a handler, recorded as an event. *)
Definition pcall (e : event) (handler : World -> Z * World) : P Z :=
  fun w => let '(r, w1) := handler w in (r, [e], w1).

(** process_lisp_ctr_msg, lines 1203-1264. *)
Definition process_lisp_ctr_msg (sock : Z) (family : Z) : P Z :=
  pbind (fun w => let '(r, w1) := get_packet_and_socket_inf sock family w in (r, [], w1))
    (fun '(r, packet, local_rloc, remote_port) =>
  if negb (r =? GOOD) then pret BAD
  else
    let completed :=
      pbind (plog LISP_LOG_DEBUG_2 "Completed processing of LISP control message")
            (fun _ => pret GOOD) in
    let after_handler (r : Z) := if negb (r =? GOOD) then pret BAD else completed in
    let type := msg_type packet in
    pbind (plog LISP_LOG_DEBUG_2 "Received a LISP control message") (fun _ =>
    if type =? LISP_MAP_REQUEST then
      pbind (plog LISP_LOG_DEBUG_1 "Received a LISP Map-Request message") (fun _ =>
      pbind (pcall (call_process_map_request_msg packet local_rloc remote_port)
                   (process_map_request_msg packet local_rloc remote_port))
            after_handler)
    else if type =? LISP_MAP_REPLY then
      pbind (plog LISP_LOG_DEBUG_1 "Received a LISP Map-Reply message") (fun _ =>
      pbind (pcall (call_process_map_reply packet) (process_map_reply packet))
            after_handler)
    else if type =? LISP_MAP_REGISTER then
      completed
    else if type =? LISP_MAP_NOTIFY then
      pbind (plog LISP_LOG_DEBUG_1 "Received a LISP Map-Notify message") (fun _ =>
      pbind (pcall (call_process_map_notify packet) (process_map_notify packet))
            after_handler)
    else if type =? LISP_MAP_REFERRAL then
      pbind (plog LISP_LOG_DEBUG_1 "Received a LISP Map-Referral message") (fun _ =>
      pbind (pcall (call_process_map_referral packet) (process_map_referral packet))
            after_handler)
    else if type =? LISP_INFO_NAT then
      pbind (plog LISP_LOG_DEBUG_1 "Received a LISP Info-Request/Info-Reply message") (fun _ =>
      pbind (pcall (call_process_info_nat_msg packet local_rloc)
                   (process_info_nat_msg packet local_rloc))
            after_handler)
    else if type =? LISP_ENCAP_CONTROL_TYPE then
      pbind (plog LISP_LOG_DEBUG_1 "Received a LISP Encapsulated Map-Request message") (fun _ =>
      pbind (pcall (call_process_map_request_msg packet local_rloc remote_port)
                   (process_map_request_msg packet local_rloc remote_port))
            after_handler)
    else
      pbind (plog LISP_LOG_DEBUG_1 "Unidentified type control message received") (fun _ =>
      completed))).

End Lispd.

(** * The rest of the file *)

(** [toupper] of <ctype.h> in the C locale. *)
Definition toupper (c : ascii) : ascii :=
  if islower c then ascii_of_N (N_of_ascii c - 32) else c.

(** convert_hex_char_to_byte, lines 483-523. *)
Definition convert_hex_char_to_byte (val : ascii) : Z :=
  let val := toupper val in
  if is_char val "0" then 0
  else if is_char val "1" then 1
  else if is_char val "2" then 2
  else if is_char val "3" then 3
  else if is_char val "4" then 4
  else if is_char val "5" then 5
  else if is_char val "6" then 6
  else if is_char val "7" then 7
  else if is_char val "8" then 8
  else if is_char val "9" then 9
  else if is_char val "A" then 10
  else if is_char val "B" then 11
  else if is_char val "C" then 12
  else if is_char val "D" then 13
  else if is_char val "E" then 14
  else if is_char val "F" then 15
  else -1.

(** [hex[i]] read from the array that holds the string: the characters,
    the terminating NUL at index [length], nothing beyond it. *)
Definition read_char (hex : list ascii) (i : Z) : M ascii :=
  if (0 <=? i) && (i <=? Z.of_nat (List.length hex))
  then ret (nth (Z.to_nat i) hex NUL)
  else undefined.

(** [bytes[i] = v] inside the array [bytes]. *)
Fixpoint set_byte (bytes : list byte) (n : nat) (v : byte) : list byte :=
  match bytes, n with
  | [], _ => []
  | _ :: bytes', O => v :: bytes'
  | b :: bytes', S n' => b :: set_byte bytes' n' v
  end.

Definition write_byte (bytes : list byte) (i : Z) (v : Z) : M (list byte) :=
  if (0 <=? i) && (i <? Z.of_nat (List.length bytes))
  then ret (set_byte bytes (Z.to_nat i) (byte.of_Z v))
  else undefined.

Section LispdRest.

Context {D : lispd_defs}.

(** ** Lengths of the families *)

(** get_lisp_afi, lines 1011-1031; [len] is [None] for a null pointer,
    and the result holds the value returned and [*len] afterwards. *)
Definition get_lisp_afi (afi : Z) (len : option Z) : M (Z * option Z) :=
  if afi =? AF_INET then
    ret (to_uint16 LISP_AFI_IP, option_map (fun _ => 4) len)
  else if afi =? AF_INET6 then
    ret (to_uint16 LISP_AFI_IPV6, option_map (fun _ => 16) len)
  else
    emit (lispd_log_msg LISP_LOG_DEBUG_2 "get_lisp_afi: unknown AFI (%d)" [arg_int afi]) ;;;
    ret (to_uint16 BAD, len).

(** get_ip_header_len, lines 1083-1094: the sizes of [struct ip] and
    [struct ip6_hdr]. *)
Definition get_ip_header_len (afi : Z) : M Z :=
  if afi =? AF_INET then ret 20
  else if afi =? AF_INET6 then ret 40
  else
    emit (lispd_log_msg LISP_LOG_DEBUG_2 "get_ip_header_len: unknown AFI (%d)"
            [arg_int afi]) ;;;
    ret ERR_AFI.

(** get_addr_len, lines 1101-1114. *)
Definition get_addr_len (afi : Z) : M Z :=
  if afi =? AF_UNSPEC then ret 0
  else if afi =? AF_INET then ret 4
  else if afi =? AF_INET6 then ret 16
  else
    emit (lispd_log_msg LISP_LOG_DEBUG_2 "get_addr_len: unknown AFI (%d)" [arg_int afi]) ;;;
    ret ERR_AFI.

(** get_prefix_len, lines 1121-1124. *)
Definition get_prefix_len (afi : Z) : M Z :=
  len <- get_addr_len afi ;;
  ret (len * 8).

(** ** Copies of addresses *)

(** The first bytes of [dest] replaced by [src]; writing past the end of
    [dest] is undefined. *)
Definition write_bytes (dest src : list byte) : M (list byte) :=
  if (List.length src <=? List.length dest)%nat
  then ret (src ++ skipn (List.length src) dest)
  else undefined.

(** copy_addr, lines 337-358; returns the result and the memory at [a1]. *)
Definition copy_addr (a1 : list byte) (a2 : lisp_addr_t) (convert : Z)
    : M (Z * list byte) :=
  if afi a2 =? AF_INET then
    a1' <- write_bytes a1
             (bytes_of_mem32
                (if negb (convert =? 0)
                 then store32 (htonl (load32 (word0 (address a2))))
                 else store32 (load32 (word0 (address a2))))) ;;
    ret (4, a1')
  else if afi a2 =? AF_INET6 then
    a1' <- write_bytes a1 (firstn 16 (bytes_of_union (address a2))) ;;
    ret (16, a1')
  else
    emit (lispd_log_msg LISP_LOG_DEBUG_2 "copy_addr: Unknown AFI (%d)"
            [arg_int (afi a2)]) ;;;
    ret (ERR_AFI, a1).

(** copy_lisp_addr_V4, lines 360-365. *)
Definition copy_lisp_addr_V4 (dest orig : lisp_addr_t) : lisp_addr_t :=
  {| address := set_ip (address dest) (store32 (load32 (word0 (address orig))));
     afi := afi orig |}.

(** copy_lisp_addr_V6, lines 367-375. *)
Definition copy_lisp_addr_V6 (dest orig : lisp_addr_t) : lisp_addr_t :=
  {| address := union_of_bytes (firstn 16 (bytes_of_union (address orig))
                                ++ skipn 16 (bytes_of_union (address dest)));
     afi := afi orig |}.

(** copy_lisp_addr, lines 382-398; returns the address at [dest]. *)
Definition copy_lisp_addr (dest orig : lisp_addr_t) : lisp_addr_t :=
  if afi orig =? AF_INET then copy_lisp_addr_V4 dest orig
  else if afi orig =? AF_INET6 then copy_lisp_addr_V6 dest orig
  else {| address := address dest; afi := AF_UNSPEC |}.

(** clone_lisp_addr, lines 405-422.  [malloc] is [None] when the
    allocation fails, and else the contents, not initialised, of the new
    block; the result is [None] for the null pointer. *)
Definition clone_lisp_addr (malloc : option lisp_addr_t) (addr : lisp_addr_t)
    : M (option lisp_addr_t) :=
  match malloc with
  | None =>
      emit (lispd_log_msg LISP_LOG_WARNING
              "clone_lisp_addr: Unable to allocate memory for lisp_addr_t: %s"
              [arg_strerror_errno]) ;;;
      ret None
  | Some new_addr =>
      let new_addr := copy_lisp_addr new_addr addr in
      if afi new_addr =? AF_UNSPEC then
        emit (lispd_log_msg LISP_LOG_DEBUG_1 "clone_lisp_addr: Unknown AFI: %d."
                [arg_int (afi addr)]) ;;;
        ret None
      else ret (Some new_addr)
  end.

(** memcopy_lisp_addr_V4, lines 424-428. *)
Definition memcopy_lisp_addr_V4 (dest : list byte) (orig : lisp_addr_t) : M (list byte) :=
  write_bytes dest (bytes_of_mem32 (store32 (load32 (word0 (address orig))))).

(** memcopy_lisp_addr_V6, lines 430-436. *)
Definition memcopy_lisp_addr_V6 (dest : list byte) (orig : lisp_addr_t) : M (list byte) :=
  write_bytes dest (firstn 16 (bytes_of_union (address orig))).

(** memcopy_lisp_addr, lines 438-451; returns the memory at [dest]. *)
Definition memcopy_lisp_addr (dest : list byte) (orig : lisp_addr_t) : M (list byte) :=
  if afi orig =? AF_INET then memcopy_lisp_addr_V4 dest orig
  else if afi orig =? AF_INET6 then memcopy_lisp_addr_V6 dest orig
  else ret dest.

(** ** Hexadecimal strings *)

(** The first loop of convert_hex_string_to_bytes, lines 462-464; returns
    [ctr], or [None] when the fuel runs out. *)
Fixpoint hex_length_loop (fuel : nat) (hex : list ascii) (ctr bytes_len : Z)
    : option (M Z) :=
  match fuel with
  | O => None
  | S fuel' =>
      match read_char hex ctr with
      | None => Some undefined
      | Some (c, _) =>
          if negb (is_char c NUL) && (ctr <=? bytes_len * 2)
          then hex_length_loop fuel' hex (ctr + 1) bytes_len
          else Some (ret ctr)
      end
  end.

(** The second loop, lines 469-479, with [n] iterations left; returns the
    result when the body returns, and the bytes written. *)
Fixpoint hex_bytes_loop (n : nat) (hex : list ascii) (ctr : Z) (bytes : list byte)
    : M (option Z * list byte) :=
  match n with
  | O => ret (None, bytes)
  | S n' =>
      h0 <- read_char hex (ctr * 2) ;;
      h1 <- read_char hex (ctr * 2 + 1) ;;
      let p0 := convert_hex_char_to_byte h0 in
      let p1 := convert_hex_char_to_byte h1 in
      if (p0 =? -1) || (p1 =? -1) then
        emit (lispd_log_msg LISP_LOG_DEBUG_2
                "convert_hex_string_to_bytes: Invalid hexadecimal number" []) ;;;
        ret (Some BAD, bytes)
      else
        bytes' <- write_byte bytes ctr (p0 * 16 + p1) ;;
        hex_bytes_loop n' hex (ctr + 1) bytes'
  end.

(** convert_hex_string_to_bytes, lines 453-481; returns the result and
    the array [bytes].  The outer [None] is the fuel of the first loop. *)
Definition convert_hex_string_to_bytes (hex : list ascii) (bytes : list byte)
    (bytes_len : Z) : option (M (Z * list byte)) :=
  match hex_length_loop (S (S (List.length hex))) hex 0 bytes_len with
  | None => None
  | Some m =>
      Some (ctr <- m ;;
            c <- read_char hex ctr ;;
            if negb (is_char c NUL) && negb (ctr =? bytes_len * 2)
            then ret (BAD, bytes)
            else
              r <- hex_bytes_loop (Z.to_nat bytes_len) hex 0 bytes ;;
              match r with
              | (Some code, bytes') => ret (code, bytes')
              | (None, bytes') => ret (GOOD, bytes')
              end)
  end.

(** ** Socket addresses *)

(** [struct sockaddr_storage] seen through [struct sockaddr_in] and
    [struct sockaddr_in6]: the family and the port, which the two share,
    and the two address fields, which lie apart. *)
Record sockaddr : Type := {
  sa_family : Z;
  sin_port : Z;
  sin_addr : mem32;
  sin6_addr : addr_union
}.

Definition htons (v : Z) : Z := ntohs v.

(** inaddr2sockaddr, lines 1267-1295; returns the result and the storage
    at [sockaddr], which the function zeroes first. *)
Definition inaddr2sockaddr (inaddr : lisp_addr_t) (port : Z) : M (Z * sockaddr) :=
  let zeroed := {| sa_family := 0; sin_port := 0; sin_addr := zero32;
                   sin6_addr := zero_union |} in
  if afi inaddr =? AF_INET then
    ret (GOOD, {| sa_family := AF_INET;
                  sin_port := htons (to_uint16 port);
                  sin_addr := store32 (load32 (word0 (address inaddr)));
                  sin6_addr := sin6_addr zeroed |})
  else if afi inaddr =? AF_INET6 then
    ret (GOOD, {| sa_family := AF_INET6;
                  sin_port := htons (to_uint16 port);
                  sin_addr := sin_addr zeroed;
                  sin6_addr := union_of_bytes
                                 (firstn 16 (bytes_of_union (address inaddr))
                                  ++ skipn 16 (bytes_of_union (sin6_addr zeroed))) |})
  else
    emit (lispd_log_msg LISP_LOG_DEBUG_2 "inaddr2sockaddr: unknown AFI %d"
            [arg_int (afi inaddr)]) ;;;
    ret (ERR_AFI, zeroed).

(** copy_addr_from_sockaddr, lines 619-637; returns the result and the
    address at [lisp_addr]. *)
Definition copy_addr_from_sockaddr (addr : sockaddr) (lisp_addr : lisp_addr_t)
    : M (Z * lisp_addr_t) :=
  let lisp_addr := {| address := address lisp_addr; afi := sa_family addr |} in
  if afi lisp_addr =? AF_INET then
    ret (GOOD, {| address := set_ip (address lisp_addr) (sin_addr addr);
                  afi := afi lisp_addr |})
  else if afi lisp_addr =? AF_INET6 then
    ret (GOOD, {| address := sin6_addr addr; afi := afi lisp_addr |})
  else
    emit (lispd_log_msg LISP_LOG_WARNING
            "copy_addr_from_sockaddr: Unknown address family %d"
            [arg_int (sa_family addr)]) ;;;
    ret (BAD, lisp_addr).

(** ** Lists of addresses *)

(** add_lisp_addr_to_list, lines 277-304.  The list is the sequence of the
    addresses its nodes point to; [addr] is [None] for a null pointer and
    [malloc_ok] tells whether the node can be allocated.  Returns the
    result and the list at [*list], here [servers]. *)
Definition add_lisp_addr_to_list (addr : option lisp_addr_t) (malloc_ok : bool)
    (servers : list lisp_addr_t) : M (Z * list lisp_addr_t) :=
  match addr with
  | None =>
      emit (lispd_log_msg LISP_LOG_WARNING "add_lisp_addr_to_list: Empty data" []) ;;;
      ret (BAD, servers)
  | Some addr =>
      if negb malloc_ok then
        emit (lispd_log_msg LISP_LOG_WARNING
                "add_lisp_addr_to_list: Unable to allocate memory for lispd_addr_list_t: %s"
                [arg_strerror_errno]) ;;;
        ret (BAD, servers)
      else
        match servers with
        | _ :: _ => ret (GOOD, addr :: servers)
        | [] => ret (GOOD, [addr])
        end
  end.

(** get_server, lines 1148-1162. *)
Fixpoint get_server (server_list : list lisp_addr_t) (afi_ : Z) : option lisp_addr_t :=
  match server_list with
  | [] => None
  | server_elt :: next =>
      if afi server_elt =? afi_ then Some server_elt
      else get_server next afi_
  end.

(** get_map_resolver, lines 1131-1146.  The globals it reads are
    arguments: whether the two default control interfaces are set, and
    the list of the map resolvers. *)
Definition get_map_resolver (default_ctrl_iface_v4 default_ctrl_iface_v6 : bool)
    (map_resolvers : list lisp_addr_t) : M (option lisp_addr_t) :=
  let dst_rloc := None in
  let dst_rloc := if default_ctrl_iface_v4
                  then get_server map_resolvers AF_INET else dst_rloc in
  let dst_rloc := if negb (is_found dst_rloc) && default_ctrl_iface_v6
                  then get_server map_resolvers AF_INET6 else dst_rloc in
  if negb (is_found dst_rloc) then
    emit (lispd_log_msg LISP_LOG_ERR
            "No Map Resolver with a RLOC compatible with local RLOCs" []) ;;;
    ret dst_rloc
  else ret dst_rloc.

(** ** Link-local addresses *)

Variable inet_pton : Z -> list ascii -> option (list byte).

(** [inet_pton(AF_INET, src, &word)] on a 32-bit variable: the four bytes
    of the address when the text is a literal, the variable unchanged
    otherwise. *)
Definition inet_pton_word (src : list ascii) (word : mem32) : mem32 :=
  match inet_pton AF_INET src with
  | Some bytes => mem32_of_bytes (firstn 4 bytes ++ skipn 4 (bytes_of_mem32 word))
  | None => word
  end.

(** is_link_local_addr, lines 838-861. *)
Definition is_link_local_addr (addr : lisp_addr_t) : Z :=
  let is_link_local := FALSE in
  let ipv4_network := store32 0 in
  let mask := store32 0 in
  if afi addr =? AF_INET then
    let ipv4_network := inet_pton_word (list_ascii_of_string "169.254.0.0") ipv4_network in
    let mask := inet_pton_word (list_ascii_of_string "255.255.0.0") mask in
    if Z.land (load32 (word0 (address addr))) (load32 mask) =? load32 ipv4_network
    then TRUE else is_link_local
  else if afi addr =? AF_INET6 then
    let '(b0, b1, _, _) := word0 (address addr) in
    if (Z.land (byte.unsigned b0) 0xff =? 0xfe) && (Z.land (byte.unsigned b1) 0xc0 =? 0x80)
    then TRUE else is_link_local
  else is_link_local.

End LispdRest.

(** ** The text of an address *)

Section Formatting.

Context {D : lispd_defs}.

(** [inet_ntop] of the C library: the text of the address of a family
    held in the given bytes. *)
Variable inet_ntop : Z -> list byte -> list ascii.

(** The static variables of get_char_from_lisp_addr_t: the ten buffers
    and the index of the last one handed out. *)
Record format_state : Type := {
  buffers : list (list ascii);
  last_index : Z
}.

Definition initial_format_state : format_state :=
  {| buffers := repeat [] 10; last_index := 0 |}.

Fixpoint set_buffer (l : list (list ascii)) (n : nat) (v : list ascii)
    : list (list ascii) :=
  match l, n with
  | [], _ => []
  | _ :: l', O => v :: l'
  | x :: l', S n' => x :: set_buffer l' n' v
  end.

(** get_char_from_lisp_addr_t, lines 880-899.  The pointer returned is
    the index of the buffer it points to, [None] for the null pointer;
    the second component is the state of the static variables. *)
Definition get_char_from_lisp_addr_t (st : format_state) (addr : lisp_addr_t)
    : option Z * format_state :=
  let i := to_uint32 (last_index st + 1) in
  let i := i mod 10 in
  if afi addr =? AF_INET then
    (Some i,
     {| buffers := set_buffer (buffers st) (Z.to_nat i)
                     (inet_ntop AF_INET (bytes_of_mem32 (word0 (address addr))));
        last_index := i |})
  else if afi addr =? AF_INET6 then
    (Some i,
     {| buffers := set_buffer (buffers st) (Z.to_nat i)
                     (inet_ntop AF_INET6 (bytes_of_union (address addr)));
        last_index := i |})
  else (None, {| buffers := buffers st; last_index := i |}).

(** The state after formatting the addresses of a list in turn. *)
Fixpoint format_all (st : format_state) (addrs : list lisp_addr_t) : format_state :=
  match addrs with
  | [] => st
  | a :: addrs' => format_all (snd (get_char_from_lisp_addr_t st a)) addrs'
  end.

End Formatting.

(** ** Waiting for input *)

(** What a call of [select] can do: succeed, fail with [EINTR], or fail
    with another error. *)
Inductive select_outcome : Set :=
  | select_done
  | select_EINTR
  | select_failed.

Section Select.

Context {D : lispd_defs}.

(** have_input, lines 1171-1195, run against the outcomes of the
    successive calls of [select]; returns the result and the outcomes
    left, or [None] when the outcomes given end before the loop does. *)
Fixpoint have_input (outcomes : list select_outcome)
    : option (M Z * list select_outcome) :=
  match outcomes with
  | [] => None
  | select_EINTR :: later => have_input later
  | select_failed :: later =>
      Some (emit (lispd_log_msg LISP_LOG_DEBUG_2 "have_input: select error: %s"
                    [arg_strerror_errno]) ;;;
            ret BAD, later)
  | select_done :: later => Some (ret GOOD, later)
  end.

End Select.

(** * The specification, in its own words *)

(** A 32-bit mask whose top [len] bits are set. *)
Definition top_bits_mask (len : Z) : Z := Z.shiftl (Z.ones len) (32 - len).

(** Network address of an IPv4 address: the four bytes, read as a number
    most significant byte first, ANDed with the mask and written back in
    wire order. *)
Definition spec_mask_word (w : mem32) (mask : Z) : mem32 :=
  be_encode (Z.land (be_decode w) mask).

Definition spec_network_address_v4 (u : addr_union) (len : Z) : addr_union :=
  {| word0 := spec_mask_word (word0 u) (top_bits_mask len);
     word1 := zero32;
     word2 := zero32;
     word3 := zero32 |}.

(** Network address of an IPv6 address as four 32-bit words: the first
    [len / 32] words keep all their bits, word [len / 32] keeps its top
    [len mod 32] bits when [len mod 32] is not zero, the later words are
    zeroed. *)
Definition spec_mask_v6 (len i : Z) : Z :=
  if i <? len / 32 then 0xFFFFFFFF
  else if (i =? len / 32) && negb (len mod 32 =? 0) then top_bits_mask (len mod 32)
  else 0.

Definition spec_network_address_v6 (u : addr_union) (len : Z) : addr_union :=
  {| word0 := spec_mask_word (word0 u) (spec_mask_v6 len 0);
     word1 := spec_mask_word (word1 u) (spec_mask_v6 len 1);
     word2 := spec_mask_word (word2 u) (spec_mask_v6 len 2);
     word3 := spec_mask_word (word3 u) (spec_mask_v6 len 3) |}.

(** The network address of a prefix of either family. *)
Definition spec_network_address {D : lispd_defs} (a : lisp_addr_t) (len : Z) : lisp_addr_t :=
  if afi a =? AF_INET
  then {| address := spec_network_address_v4 (address a) len; afi := AF_INET |}
  else {| address := spec_network_address_v6 (address a) len; afi := AF_INET6 |}.

(** The invariant of a prefix: an IPv4 address with a length of 0 to 32,
    or an IPv6 address with a length of 0 to 128. *)
Definition valid_prefix {D : lispd_defs} (a : lisp_addr_t) (len : Z) : Prop :=
  (afi a = AF_INET /\ 0 <= len <= 32) \/ (afi a = AF_INET6 /\ 0 <= len <= 128).

(** Addresses given by their bytes. *)
Definition ipv4 {D : lispd_defs} (b0 b1 b2 b3 : Z) : lisp_addr_t :=
  {| address := {| word0 := (byte.of_Z b0, byte.of_Z b1, byte.of_Z b2, byte.of_Z b3);
                   word1 := zero32; word2 := zero32; word3 := zero32 |};
     afi := AF_INET |}.

(** An IPv6 address given by its eight 16-bit groups. *)
Definition group16 (g h : Z) : mem32 :=
  (byte.of_Z (g / 2 ^ 8), byte.of_Z g, byte.of_Z (h / 2 ^ 8), byte.of_Z h).

Definition ipv6 {D : lispd_defs} (g0 g1 g2 g3 g4 g5 g6 g7 : Z) : lisp_addr_t :=
  {| address := {| word0 := group16 g0 g1; word1 := group16 g2 g3;
                   word2 := group16 g4 g5; word3 := group16 g6 g7 |};
     afi := AF_INET6 |}.

(** The hostname rule.  A character of a name is a letter, a digit, a
    hyphen or a dot. *)
Definition is_dot (c : ascii) : bool := is_char c ".".

Definition is_name_char (c : ascii) : bool :=
  isalnum c || is_char c "-" || is_dot c.

Fixpoint no_adjacent_dots (s : list ascii) : bool :=
  match s with
  | [] => true
  | c :: s' =>
      match s' with
      | [] => true
      | d :: _ => negb (is_dot c && is_dot d) && no_adjacent_dots s'
      end
  end.

(** A dot that is neither the first nor the last character. *)
Definition has_interior_dot (s : list ascii) : bool :=
  existsb is_dot (removelast (tl s)).

(** The rule as it is stated about a whole string: the first character is
    alphanumeric, there is an interior dot, no two dots are adjacent,
    every character is alphanumeric, a hyphen or a dot, and the last
    character is alphabetic. *)
Definition qualifies (s : list ascii) : bool :=
  isalnum (hd NUL s) && has_interior_dot s && no_adjacent_dots s
  && forallb is_name_char s && isalpha (last s NUL).

(** The characters before the first comma. *)
Fixpoint before_comma (s : list ascii) : list ascii :=
  match s with
  | [] => []
  | c :: s' => if is_char c "," then [] else c :: before_comma s'
  end.

(** The rule as [isfqdn] applies it: no colon anywhere in the string, and
    the part before the first comma qualifies. *)
Definition qualifies_before_comma (s : list ascii) : bool :=
  negb (existsb (fun c => is_char c ":") s) && qualifies (before_comma s).

(** The loop of [isfqdn] as a recursion over the characters that remain,
    carrying the previous character. *)
Inductive scan_outcome : Type :=
  | scan_return (r : Z)
  | scan_exit (prev : ascii) (dot : Z).

Fixpoint scan {D : lispd_defs} (prev : ascii) (rest : list ascii) (dot : Z)
    : scan_outcome :=
  match rest with
  | [] => scan_exit prev dot
  | c :: rest' =>
      if negb (is_char c NUL) && negb (is_char c ",") then
        if is_dot c && is_dot prev then scan_return FALSE
        else if negb (is_name_char c) then scan_return FALSE
        else scan c rest' (if is_dot c then 1 else dot)
      else scan_exit prev dot
  end.

(** A token of a prefix in text: no NUL and no slash inside. *)
Definition plain_token (t : list ascii) : bool :=
  forallb (fun c => negb (is_char c NUL) && negb (is_char c "/")) t.

(** The largest prefix length of the family chosen for a text. *)
Definition max_prefix_length {D : lispd_defs} (addr_str : list ascii) : Z :=
  if get_afi addr_str =? AF_INET then 32 else 128.

(** The address that [get_lisp_addr_from_char] writes for a literal whose
    bytes are [bytes]. *)
Definition parsed_address {D : lispd_defs} (addr_str : list ascii) (bytes : list byte)
    (lisp_addr : lisp_addr_t) : lisp_addr_t :=
  {| address :=
       union_of_bytes
         (firstn (if get_afi addr_str =? AF_INET then 4 else 16) bytes
          ++ skipn (if get_afi addr_str =? AF_INET then 4 else 16)
                   (bytes_of_union (address lisp_addr)));
     afi := get_afi addr_str |}.

(** An [inet_pton] that knows the dotted quads of IPv4 only: four decimal
    numbers of one to three digits, none above 255.  It stands for the C
    library when the parser is run on a given text. *)
Fixpoint split_on (sep : ascii) (s : list ascii) : list (list ascii) :=
  match s with
  | [] => [[]]
  | c :: s' =>
      if is_char c sep then [] :: split_on sep s'
      else match split_on sep s' with
           | [] => [[c]]
           | t :: ts => (c :: t) :: ts
           end
  end.

Definition octet (t : list ascii) : option byte :=
  if forallb isdigit t && (1 <=? List.length t)%nat && (List.length t <=? 3)%nat
     && (atoi_digits 0 t <=? 255)
  then Some (byte.of_Z (atoi_digits 0 t)) else None.

Definition dotted_quad (s : list ascii) : option (list byte) :=
  match map octet (split_on "." s) with
  | [Some b0; Some b1; Some b2; Some b3] => Some [b0; b1; b2; b3]
  | _ => None
  end.

Definition dotted_quad_pton {D : lispd_defs} (af : Z) (src : list ascii)
    : option (list byte) :=
  if af =? AF_INET then dotted_quad (c_string src) else None.

(** A text given as a string literal. *)
Definition text (s : string) : list ascii := list_ascii_of_string s.

(** An address whose sixteen bytes are zero, of no family. *)
Definition no_address {D : lispd_defs} : lisp_addr_t :=
  {| address := zero_union; afi := AF_UNSPEC |}.

(** Collaborators of the dispatcher that do nothing: the socket layer
    hands over a given message, every handler succeeds. *)
Definition idle_socket {D : lispd_defs} (packet : list byte) (sock family : Z) (w : unit)
    : (Z * list byte * lisp_addr_t * Z) * unit :=
  ((GOOD, packet, no_address, 4342), w).

Definition idle_handler {D : lispd_defs} (w : unit) : Z * unit := (GOOD, w).

(** * Notions to state the properties of the rest of the file *)

(** The number that a block of bytes spells, most significant byte
    first. *)
Definition be_value (l : list byte) : Z :=
  fold_left (fun acc b => acc * 256 + byte.unsigned b) l 0.

(** The bytes that hold the address of a family: the first four for V4,
    the sixteen for V6. *)
Definition payload {D : lispd_defs} (a : lisp_addr_t) : list byte :=
  if afi a =? AF_INET then bytes_of_mem32 (word0 (address a))
  else bytes_of_union (address a).

(** Hexadecimal digits, and the text of a block of bytes in either
    case. *)
Definition is_hex_digit (c : ascii) : bool :=
  isdigit c || in_range 65 70 c || in_range 97 102 c.

Definition hex_char (upper : bool) (v : Z) : ascii :=
  nth (Z.to_nat v)
    (list_ascii_of_string (if upper then "0123456789ABCDEF" else "0123456789abcdef"))
    "0"%char.

Fixpoint hex_of_bytes (upper : bool) (bs : list byte) : list ascii :=
  match bs with
  | [] => []
  | b :: bs' =>
      hex_char upper (byte.unsigned b / 16) :: hex_char upper (byte.unsigned b mod 16)
      :: hex_of_bytes upper bs'
  end.

(** The bytes that the first [n] pairs of digits of a text spell, if
    they are all hexadecimal digits. *)
Fixpoint decode_pairs (n : nat) (hex : list ascii) : option (list byte) :=
  match n with
  | O => Some []
  | S n' =>
      match hex with
      | h0 :: h1 :: hex' =>
          if is_hex_digit h0 && is_hex_digit h1 then
            match decode_pairs n' hex' with
            | Some bs =>
                Some (byte.of_Z (convert_hex_char_to_byte h0 * 16
                                 + convert_hex_char_to_byte h1) :: bs)
            | None => None
            end
          else None
      | _ => None
      end
  end.

(** The second loop of convert_hex_string_to_bytes as a recursion over the
    characters that remain: [done] are the bytes written so far and
    [free] the rest of the array. *)
Fixpoint pairs_outcome {D : lispd_defs} (n : nat) (rest : list ascii)
    (done free : list byte) : M (option Z * list byte) :=
  match n with
  | O => ret (None, done ++ free)
  | S n' =>
      match rest with
      | [] => undefined
      | [_] =>
          Some ((Some BAD, done ++ free),
                [lispd_log_msg LISP_LOG_DEBUG_2
                   "convert_hex_string_to_bytes: Invalid hexadecimal number" []])
      | h0 :: h1 :: rest' =>
          if is_hex_digit h0 && is_hex_digit h1 then
            match free with
            | [] => undefined
            | _ :: free' =>
                pairs_outcome n' rest'
                  (done ++ [byte.of_Z (convert_hex_char_to_byte h0 * 16
                                       + convert_hex_char_to_byte h1)])
                  free'
            end
          else
            Some ((Some BAD, done ++ free),
                  [lispd_log_msg LISP_LOG_DEBUG_2
                     "convert_hex_string_to_bytes: Invalid hexadecimal number" []])
      end
  end.

(** A list of characters without NUL: the array holds the string and
    its terminator, nothing more. *)
Definition no_NUL (s : list ascii) : bool :=
  forallb (fun c => negb (is_char c NUL)) s.

(** The events that are calls of a handler. *)
Definition is_handler_call (e : event) : bool :=
  match e with
  | lispd_log_msg _ _ _ => false
  | _ => true
  end.

(** The text that [get_char_from_lisp_addr_t] writes for an address of a
    family it knows. *)
Definition address_text {D : lispd_defs} (inet_ntop : Z -> list byte -> list ascii)
    (a : lisp_addr_t) : list ascii :=
  if afi a =? AF_INET then inet_ntop AF_INET (bytes_of_mem32 (word0 (address a)))
  else inet_ntop AF_INET6 (bytes_of_union (address a)).

(** * Properties *)

(** ** Laws of the computations *)

Lemma bind_ret_l {A B : Type} (x : A) (k : A -> M B) : bind (ret x) k = k x.
Proof. unfold bind, ret. destruct (k x) as [[y es] |]; reflexivity. Qed.

Lemma bind_ret_r {A : Type} (m : M A) : bind m ret = m.
Proof.
  destruct m as [[x es] |]; cbn; [| reflexivity].
  rewrite app_nil_r. reflexivity.
Qed.

(** The constants of the Linux build meet the requirements. *)
Lemma linux_defs_ok : lispd_defs_ok linux_defs.
Proof.
  constructor; cbn;
    repeat match goal with
           | |- NoDup _ => constructor
           | |- _ /\ _ => split
           end;
    unfold LISP_AFI_NO_ADDR, LISP_AFI_IP, LISP_AFI_IPV6;
    cbn; try lia; intuition lia.
Defined.

Section Translation.

Context {D : lispd_defs} {OK : lispd_defs_ok D}.

(** The disequalities between the constants that the proofs use. *)
Lemma family_distinct :
  AF_UNSPEC <> AF_INET /\ AF_UNSPEC <> AF_INET6 /\ AF_UNSPEC <> LISP_AFI_LCAF
  /\ AF_INET <> AF_INET6 /\ AF_INET <> LISP_AFI_LCAF /\ AF_INET6 <> LISP_AFI_LCAF.
Proof.
  pose proof family_labels as H.
  repeat (apply NoDup_cons_iff in H; destruct H as [? H]).
  cbn in *. intuition congruence.
Qed.

Lemma lcaf_distinct :
  LISP_AFI_LCAF <> 0 /\ LISP_AFI_LCAF <> 1 /\ LISP_AFI_LCAF <> 2.
Proof.
  pose proof afi_labels as H.
  repeat (apply NoDup_cons_iff in H; destruct H as [? H]).
  unfold LISP_AFI_NO_ADDR, LISP_AFI_IP, LISP_AFI_IPV6 in *.
  cbn in *. intuition congruence.
Qed.

Lemma err_afi_distinct :
  ERR_AFI <> AF_UNSPEC /\ ERR_AFI <> AF_INET /\ ERR_AFI <> AF_INET6
  /\ ERR_AFI <> LISP_AFI_LCAF /\ ERR_AFI <> GOOD /\ GOOD <> BAD.
Proof.
  pose proof err_afi_no_family as H.
  pose proof return_codes as H'.
  repeat (apply NoDup_cons_iff in H'; destruct H' as [? H']).
  cbn in *. intuition congruence.
Qed.

Lemma to_uint16_small (z : Z) : 0 <= z < 2 ^ 16 -> to_uint16 z = z.
Proof. intros Hz. unfold to_uint16. apply Z.mod_small. exact Hz. Qed.

End Translation.

(** Case analysis on every integer comparison of the goal. *)
Ltac case_eqb :=
  repeat match goal with
         | |- context [Z.eqb ?a ?b] => destruct (Z.eqb_spec a b)
         end.

Section TranslationClaims.

Context {D : lispd_defs} {OK : lispd_defs_ok D}.

(** C4: the two AFI translations are inverse to each other on the defined
    tags.  A protocol AFI among NoAddress, IP, IPv6 and the LCAF tag,
    translated to a host family by [lisp2inetafi] and back by
    [inet2lispafi], is returned unchanged; a host family among
    Unspecified, V4, V6 and LCAF, translated to a protocol AFI and back,
    is returned unchanged; and Unspecified maps to NoAddress.  Nothing is
    logged on the way. *)
Theorem afi_translations_inverse :
  (forall t : Z,
      In t [LISP_AFI_NO_ADDR; LISP_AFI_IP; LISP_AFI_IPV6; LISP_AFI_LCAF] ->
      (f <- lisp2inetafi t ;; inet2lispafi f) = Some (t, []))
  /\ (forall f : Z,
         In f [AF_UNSPEC; AF_INET; AF_INET6; LISP_AFI_LCAF] ->
         (t <- inet2lispafi f ;; lisp2inetafi t) = Some (f, []))
  /\ inet2lispafi AF_UNSPEC = Some (LISP_AFI_NO_ADDR, []).
Proof.
  pose proof family_distinct as Hf.
  pose proof lcaf_distinct as Hl.
  pose proof lcaf_uint16 as Hr.
  assert (Hu : to_uint16 LISP_AFI_LCAF = LISP_AFI_LCAF)
    by (apply to_uint16_small; exact Hr).
  split; [| split].
  - intros t Ht. cbn in Ht.
    destruct Ht as [<- | [<- | [<- | [<- | []]]]];
      unfold lisp2inetafi; rewrite ?Hu;
      unfold LISP_AFI_NO_ADDR, LISP_AFI_IP, LISP_AFI_IPV6 in *;
      cbn; case_eqb; try lia; cbn;
      unfold inet2lispafi; case_eqb; try lia; reflexivity.
  - intros f Hin. cbn in Hin.
    destruct Hin as [<- | [<- | [<- | [<- | []]]]];
      unfold inet2lispafi; case_eqb; try lia; cbn;
      unfold lisp2inetafi; rewrite ?Hu;
      unfold LISP_AFI_NO_ADDR, LISP_AFI_IP, LISP_AFI_IPV6 in *;
      cbn; case_eqb; try lia; reflexivity.
  - unfold inet2lispafi. rewrite Z.eqb_refl. reflexivity.
Qed.

(** C10: for a host family outside Unspecified, V4, V6 and LCAF,
    [inet2lispafi] returns 0, the protocol AFI of NoAddress: the value is
    the one returned for the Unspecified family, so that the returned
    value alone does not tell the two apart (only the log does). *)
Theorem inet2lispafi_unknown_is_no_addr (f : Z) :
  ~ In f [AF_UNSPEC; AF_INET; AF_INET6; LISP_AFI_LCAF] ->
  value_of (inet2lispafi f) = Some 0
  /\ LISP_AFI_NO_ADDR = 0
  /\ value_of (inet2lispafi f) = value_of (inet2lispafi AF_UNSPEC)
  /\ events_of (inet2lispafi f)
     = [lispd_log_msg LISP_LOG_DEBUG_2 "inet2lispafi: unknown AFI (%d)" [arg_int f]].
Proof.
  intros Hf. cbn in Hf.
  assert (Hv : inet2lispafi f
               = Some (0, [lispd_log_msg LISP_LOG_DEBUG_2
                             "inet2lispafi: unknown AFI (%d)" [arg_int f]])).
  { unfold inet2lispafi. case_eqb; try (exfalso; intuition congruence). reflexivity. }
  rewrite Hv. unfold inet2lispafi at 1. rewrite Z.eqb_refl.
  repeat split.
Qed.

End TranslationClaims.

(** ** Comparison *)

Section Comparison.

Context {D : lispd_defs}.

Lemma memcmp_refl (l : list byte) : memcmp l l = 0.
Proof.
  induction l as [| x l IH]; cbn; [reflexivity |].
  rewrite Z.eqb_refl. exact IH.
Qed.

Lemma memcmp_eq (l1 l2 : list byte) :
  List.length l1 = List.length l2 -> memcmp l1 l2 = 0 -> l1 = l2.
Proof.
  revert l2; induction l1 as [| x l1 IH]; intros [| y l2] Hlen Hcmp;
    cbn in *; try discriminate; [reflexivity |].
  destruct (Z.eqb_spec (byte.unsigned x) (byte.unsigned y)) as [Hxy | Hxy].
  - apply byte.unsigned_inj in Hxy. subst y. f_equal. apply IH; [lia | exact Hcmp].
  - lia.
Qed.

Lemma bytes_of_mem32_inj (w w' : mem32) :
  bytes_of_mem32 w = bytes_of_mem32 w' -> w = w'.
Proof.
  destruct w as [[[b0 b1] b2] b3], w' as [[[c0 c1] c2] c3]; cbn.
  intros H; injection H as -> -> -> ->. reflexivity.
Qed.

Lemma bytes_of_union_inj (u u' : addr_union) :
  bytes_of_union u = bytes_of_union u' -> u = u'.
Proof.
  destruct u as [w0 w1 w2 w3], u' as [v0 v1 v2 v3]. unfold bytes_of_union; cbn.
  destruct w0 as [[[? ?] ?] ?], w1 as [[[? ?] ?] ?], w2 as [[[? ?] ?] ?],
           w3 as [[[? ?] ?] ?], v0 as [[[? ?] ?] ?], v1 as [[[? ?] ?] ?],
           v2 as [[[? ?] ?] ?], v3 as [[[? ?] ?] ?]; cbn.
  intros H; injection H; intros; subst; reflexivity.
Qed.

Lemma length_bytes_of_mem32 (w : mem32) : List.length (bytes_of_mem32 w) = 4%nat.
Proof. destruct w as [[[? ?] ?] ?]; reflexivity. Qed.

Lemma length_bytes_of_union (u : addr_union) : List.length (bytes_of_union u) = 16%nat.
Proof.
  unfold bytes_of_union. rewrite !length_app, !length_bytes_of_mem32. reflexivity.
Qed.

(** The outcome of the three-way test on the result of [memcmp]. *)
Lemma sign_outcome (cmp : Z) :
  In (if cmp =? 0 then 0 else if cmp >? 0 then 1 else 2) [-1; 0; 1; 2].
Proof.
  destruct (cmp =? 0); [cbn; auto |].
  destruct (cmp >? 0); cbn; auto.
Qed.

(** Two IPv4 addresses compare equal exactly when their first word
    agrees; two IPv6 addresses exactly when the sixteen bytes agree. *)
Lemma compare_v4_equal (x y : lisp_addr_t) :
  afi x = AF_INET -> afi y = AF_INET ->
  (compare_lisp_addr_t (Some x) (Some y) = 0
   <-> word0 (address x) = word0 (address y)).
Proof.
  intros Hx Hy. unfold compare_lisp_addr_t.
  rewrite Hx, Hy, Z.eqb_refl. cbn.
  set (c := memcmp _ _).
  assert (Hc : c = 0 <-> word0 (address x) = word0 (address y)).
  { subst c. split.
    - intros H. apply bytes_of_mem32_inj, memcmp_eq; [| exact H].
      now rewrite !length_bytes_of_mem32.
    - intros ->. apply memcmp_refl. }
  destruct (Z.eqb_spec c 0) as [Hz | Hz].
  - tauto.
  - destruct (c >? 0); split; intros H; try discriminate; tauto.
Qed.

Lemma compare_v6_equal (x y : lisp_addr_t) :
  AF_INET6 <> AF_INET ->
  afi x = AF_INET6 -> afi y = AF_INET6 ->
  (compare_lisp_addr_t (Some x) (Some y) = 0 <-> address x = address y).
Proof.
  intros Hne Hx Hy. unfold compare_lisp_addr_t.
  rewrite Hx, Hy, Z.eqb_refl. cbn.
  destruct (Z.eqb_spec AF_INET6 AF_INET) as [Heq | _]; [contradiction |].
  set (c := memcmp _ _).
  assert (Hc : c = 0 <-> address x = address y).
  { subst c. split.
    - intros H. apply bytes_of_union_inj, memcmp_eq; [| exact H].
      now rewrite !length_bytes_of_union.
    - intros ->. apply memcmp_refl. }
  destruct (Z.eqb_spec c 0) as [Hz | Hz].
  - tauto.
  - destruct (c >? 0); split; intros H; try discriminate; tauto.
Qed.

(** C6: [compare_lisp_addr_t] returns one of the four outcomes
    DifferentFamily (-1), Equal (0), Greater (1) and Less (2); two
    addresses whose families differ, such as a V4 address and a V6
    address in either order, always compare as DifferentFamily. *)
Theorem compare_lisp_addr_t_outcomes (OK : lispd_defs_ok D) :
  (forall addr1 addr2 : option lisp_addr_t,
      In (compare_lisp_addr_t addr1 addr2) [-1; 0; 1; 2])
  /\ (forall x y : lisp_addr_t,
         afi x <> afi y -> compare_lisp_addr_t (Some x) (Some y) = -1)
  /\ (forall x y : lisp_addr_t,
         afi x = AF_INET -> afi y = AF_INET6 ->
         compare_lisp_addr_t (Some x) (Some y) = -1
         /\ compare_lisp_addr_t (Some y) (Some x) = -1).
Proof.
  assert (Hdiff : forall x y : lisp_addr_t,
             afi x <> afi y -> compare_lisp_addr_t (Some x) (Some y) = -1).
  { intros x y Hxy. unfold compare_lisp_addr_t.
    destruct (Z.eqb_spec (afi x) (afi y)); [contradiction | reflexivity]. }
  split; [| split].
  - intros [x |] [y |]; cbn; auto.
    destruct (negb (afi x =? afi y)); [cbn; auto |].
    destruct (afi x =? AF_INET); [apply sign_outcome |].
    destruct (afi x =? AF_INET6); [apply sign_outcome | cbn; auto].
  - exact Hdiff.
  - intros x y Hx Hy. pose proof family_distinct as Hf.
    split; apply Hdiff; rewrite Hx, Hy; intuition congruence.
Qed.

(** C9: when one of the two arguments is a null pointer,
    [compare_lisp_addr_t] returns -1 whatever the other argument is, the
    very value it returns for two addresses of different families: the
    returned value does not tell a missing address from a comparison
    across families. *)
Theorem compare_lisp_addr_t_null (other : option lisp_addr_t) (x y : lisp_addr_t) :
  afi x <> afi y ->
  compare_lisp_addr_t None other = -1
  /\ compare_lisp_addr_t other None = -1
  /\ compare_lisp_addr_t None other = compare_lisp_addr_t (Some x) (Some y)
  /\ compare_lisp_addr_t other None = compare_lisp_addr_t (Some x) (Some y).
Proof.
  intros Hxy.
  assert (Hd : compare_lisp_addr_t (Some x) (Some y) = -1).
  { unfold compare_lisp_addr_t.
    destruct (Z.eqb_spec (afi x) (afi y)); [contradiction | reflexivity]. }
  rewrite Hd. destruct other; cbn; auto.
Qed.

End Comparison.

(** ** Byte order *)

Lemma byte_of_Z_mod (z : Z) (b : byte) :
  z mod 2 ^ 8 = byte.unsigned b -> byte.of_Z z = b.
Proof.
  intros H. apply byte.unsigned_inj.
  rewrite byte.unsigned_of_Z. exact H.
Qed.

Lemma be_encode_decode (w : mem32) : be_encode (be_decode w) = w.
Proof.
  destruct w as [[[b0 b1] b2] b3]. unfold be_encode, be_decode.
  pose proof (byte.unsigned_range b0) as H0.
  pose proof (byte.unsigned_range b1) as H1.
  pose proof (byte.unsigned_range b2) as H2.
  pose proof (byte.unsigned_range b3) as H3.
  change (2 ^ 8) with 256 in *. change (2 ^ 16) with 65536.
  change (2 ^ 24) with 16777216.
  repeat f_equal; apply byte_of_Z_mod; change (2 ^ 8) with 256;
    Z.div_mod_to_equations; lia.
Qed.

Section ByteOrder.

Context {D : lispd_defs}.

(** Whatever the byte order of the host, [ntohl] of a word read from
    memory is the value of its bytes in wire order, and a value stored
    after [htonl] lies in memory in wire order. *)
Lemma ntohl_load32 (w : mem32) : ntohl (load32 w) = be_decode w.
Proof.
  unfold ntohl, load32. destruct host_byte_order; [| reflexivity].
  destruct w as [[[b0 b1] b2] b3]. unfold bswap32, le_decode at 2.
  rewrite be_encode_decode. reflexivity.
Qed.

Lemma store32_htonl (v : Z) : store32 (htonl v) = be_encode v.
Proof.
  unfold htonl, ntohl, store32. destruct host_byte_order; [| reflexivity].
  unfold bswap32, le_encode.
  destruct (be_encode v) as [[[c0 c1] c2] c3] eqn:E.
  unfold le_decode. rewrite be_encode_decode. reflexivity.
Qed.

Lemma ntohs_load16 (b0 b1 : byte) (rest : list byte) :
  option_map ntohs (load16 (b0 :: b1 :: rest))
  = Some (byte.unsigned b0 * 2 ^ 8 + byte.unsigned b1).
Proof.
  unfold load16, ntohs. destruct host_byte_order; [| reflexivity].
  cbn [option_map]. f_equal. unfold bswap16.
  pose proof (byte.unsigned_range b0) as H0.
  pose proof (byte.unsigned_range b1) as H1.
  change (2 ^ 8) with 256 in *.
  Z.div_mod_to_equations; lia.
Qed.

End ByteOrder.

(** ** Masks *)

(** The specification's mask is the number with the top [len] bits of 32
    set and the others clear. *)
Lemma top_bits_mask_value (len : Z) :
  0 <= len <= 32 -> top_bits_mask len = 2 ^ 32 - 2 ^ (32 - len).
Proof.
  intros Hlen. unfold top_bits_mask.
  rewrite Z.shiftl_mul_pow2 by lia. rewrite Z.ones_equiv.
  replace (Z.pred (2 ^ len) * 2 ^ (32 - len))
    with (2 ^ len * 2 ^ (32 - len) - 2 ^ (32 - len)) by lia.
  rewrite <- Z.pow_add_r by lia.
  replace (len + (32 - len)) with 32 by lia. reflexivity.
Qed.

Lemma top_bits_mask_testbit (len i : Z) :
  0 <= len <= 32 ->
  Z.testbit (top_bits_mask len) i = (32 - len <=? i) && (i <? 32).
Proof.
  intros Hlen. unfold top_bits_mask.
  destruct (Z.ltb_spec i 0) as [Hneg | Hpos].
  - rewrite Z.testbit_neg_r by exact Hneg.
    destruct (Z.leb_spec (32 - len) i); [lia | reflexivity].
  - rewrite Z.shiftl_spec by exact Hpos.
    destruct (Z.leb_spec (32 - len) i) as [Hle | Hgt].
    + rewrite Z.testbit_ones by lia.
      destruct (Z.ltb_spec i 32), (Z.leb_spec 0 (i - (32 - len))),
        (Z.ltb_spec (i - (32 - len)) len); cbn; try lia; reflexivity.
    + rewrite Z.testbit_neg_r by lia. reflexivity.
Qed.

(** The shift of the code builds that mask. *)
Lemma shl32_mask (len : Z) :
  1 <= len <= 32 -> shl32 0xFFFFFFFF (32 - len) = ret (top_bits_mask len).
Proof.
  intros Hlen. unfold shl32.
  destruct (Z.leb_spec 0 (32 - len)); [| lia].
  destruct (Z.ltb_spec (32 - len) 32); [| lia].
  cbn [andb]. f_equal. rewrite top_bits_mask_value by lia.
  unfold to_uint32. rewrite Z.shiftl_mul_pow2 by lia.
  assert (Hp : 0 < 2 ^ (32 - len) <= 2 ^ 32).
  { split; [apply Z.pow_pos_nonneg; lia | apply Z.pow_le_mono_r; lia]. }
  change 0xFFFFFFFF with (2 ^ 32 - 1).
  symmetry. apply (Z.mod_unique_pos _ _ (2 ^ (32 - len) - 1)); lia.
Qed.

(** ** Network addresses *)

Section NetworkAddress.

Context {D : lispd_defs}.

Lemma get_network_address_v4_spec (a : lisp_addr_t) (len : Z) :
  0 <= len <= 32 ->
  get_network_address_v4 a len
  = ret {| address := spec_network_address_v4 (address a) len; afi := AF_INET |}.
Proof.
  intros Hlen. unfold get_network_address_v4.
  assert (Hmask : (if negb (len =? 0) then shl32 0xFFFFFFFF (32 - len) else ret 0)
                  = ret (top_bits_mask len)).
  { destruct (Z.eqb_spec len 0) as [-> | Hne]; cbn [negb].
    - reflexivity.
    - apply shl32_mask. lia. }
  rewrite Hmask. cbn [bind ret app].
  rewrite store32_htonl, ntohl_load32. reflexivity.
Qed.

(** The masks the code builds for the five values of [len / 32]. *)
Lemma v6_mask_array (len : Z) :
  0 <= len <= 128 ->
  (mask <- fill_mask (Z.to_nat (Z.quot len 32)) 0 [0; 0; 0; 0] ;;
   if negb (Z.rem len 32 =? 0)
   then m <- shl32 0xFFFFFFFF (32 - Z.rem len 32) ;;
        defined (array_set mask (Z.quot len 32) m)
   else ret mask)
  = ret [spec_mask_v6 len 0; spec_mask_v6 len 1; spec_mask_v6 len 2; spec_mask_v6 len 3].
Proof.
  intros Hlen.
  rewrite Z.quot_div_nonneg, Z.rem_mod_nonneg by lia.
  pose proof (Z.div_mod len 32 ltac:(lia)) as Hdm.
  pose proof (Z.mod_pos_bound len 32 ltac:(lia)) as Hb.
  unfold spec_mask_v6.
  set (a_ := len / 32) in *. set (b := len mod 32) in *.
  assert (Ha : a_ = 0 \/ a_ = 1 \/ a_ = 2 \/ a_ = 3 \/ (a_ = 4 /\ b = 0)) by lia.
  destruct (Z.eqb_spec b 0) as [Hb0 | Hb0]; cbn [negb andb].
  - destruct Ha as [-> | [-> | [-> | [-> | [-> _]]]]]; reflexivity.
  - rewrite shl32_mask by lia.
    destruct Ha as [-> | [-> | [-> | [-> | [_ Hz]]]]]; [| | | | contradiction];
      reflexivity.
Qed.

Lemma apply_mask_four (u : addr_union) (m0 m1 m2 m3 : Z) (r : addr_union) :
  apply_mask 4 0 u [m0; m1; m2; m3] r
  = ret {| word0 := spec_mask_word (word0 u) m0;
           word1 := spec_mask_word (word1 u) m1;
           word2 := spec_mask_word (word2 u) m2;
           word3 := spec_mask_word (word3 u) m3 |}.
Proof.
  unfold apply_mask, array_get.
  change (Z.to_nat 0) with 0%nat. change (Z.to_nat (0 + 1)) with 1%nat.
  change (Z.to_nat (0 + 1 + 1)) with 2%nat.
  change (Z.to_nat (0 + 1 + 1 + 1)) with 3%nat.
  cbn -[Z.land]. rewrite !store32_htonl, !ntohl_load32. reflexivity.
Qed.

Lemma get_network_address_v6_spec (a : lisp_addr_t) (len : Z) :
  0 <= len <= 128 ->
  get_network_address_v6 a len
  = ret {| address := spec_network_address_v6 (address a) len; afi := AF_INET6 |}.
Proof.
  intros Hlen. unfold get_network_address_v6.
  cbv zeta.
  pose proof (v6_mask_array len Hlen) as Hm.
  destruct (fill_mask (Z.to_nat (Z.quot len 32)) 0 [0; 0; 0; 0]) as [[mask es] |];
    cbn [bind] in *; [| discriminate].
  destruct (if negb (Z.rem len 32 =? 0)
            then m <- shl32 0xFFFFFFFF (32 - Z.rem len 32) ;;
                 defined (array_set mask (Z.quot len 32) m)
            else ret mask) as [[mask' es'] |]; [| discriminate].
  injection Hm as -> Hes.
  apply app_eq_nil in Hes as [-> ->].
  cbn [bind]. rewrite apply_mask_four. reflexivity.
Qed.

Lemma get_network_address_spec (OK : lispd_defs_ok D) (a : lisp_addr_t) (len : Z) :
  valid_prefix a len ->
  get_network_address a len = ret (spec_network_address a len).
Proof.
  pose proof family_distinct as Hf.
  intros [[Ha Hlen] | [Ha Hlen]]; unfold get_network_address, spec_network_address;
    rewrite Ha.
  - rewrite Z.eqb_refl. apply get_network_address_v4_spec, Hlen.
  - destruct (Z.eqb_spec AF_INET6 AF_INET); [intuition congruence |].
    rewrite Z.eqb_refl. apply get_network_address_v6_spec, Hlen.
Qed.

End NetworkAddress.

(** Bit [k] of the mask of word [i] is set exactly when the bit lies
    among the first [len] bits of the 128-bit address. *)
Lemma spec_mask_v6_testbit (len i k : Z) :
  0 <= len <= 128 -> 0 <= i < 4 -> 0 <= k < 32 ->
  Z.testbit (spec_mask_v6 len i) k = (32 * i + (31 - k) <? len).
Proof.
  intros Hlen Hi Hk. unfold spec_mask_v6.
  pose proof (Z.div_mod len 32 ltac:(lia)) as Hdm.
  pose proof (Z.mod_pos_bound len 32 ltac:(lia)) as Hb.
  destruct (Z.ltb_spec i (len / 32)) as [Hlt | Hge].
  - change 0xFFFFFFFF with (Z.ones 32). rewrite Z.testbit_ones by lia.
    destruct (Z.leb_spec 0 k), (Z.ltb_spec k 32),
      (Z.ltb_spec (32 * i + (31 - k)) len); cbn; try lia; reflexivity.
  - destruct (Z.eqb_spec i (len / 32)) as [Heq | Hne]; cbn [andb].
    + destruct (Z.eqb_spec (len mod 32) 0) as [Hz | Hnz]; cbn [negb].
      * rewrite Z.bits_0.
        destruct (Z.ltb_spec (32 * i + (31 - k)) len); [lia | reflexivity].
      * rewrite top_bits_mask_testbit by lia.
        destruct (Z.leb_spec (32 - len mod 32) k), (Z.ltb_spec k 32),
          (Z.ltb_spec (32 * i + (31 - k)) len); cbn; try lia; reflexivity.
    + rewrite Z.bits_0.
      destruct (Z.ltb_spec (32 * i + (31 - k)) len); [lia | reflexivity].
Qed.

Section NetworkAddressClaims.

Context {D : lispd_defs} {OK : lispd_defs_ok D}.

(** C2: for a V4 address and a length from 0 to 32,
    [get_network_address] returns the address read in host order, ANDed
    with the 32-bit mask whose top [len] bits are set, and written back in
    wire order; the mask for length 0 is zero and the result is defined
    there.  For a V6 address and a length from 0 to 128 it masks the four
    32-bit words: the first [len / 32] words with all bits, word
    [len / 32] with its top [len mod 32] bits when that is not zero, the
    later words with zero.  So the network address of 192.168.1.130/24 is
    192.168.1.0 and that of 2001:db8::1234/32 is 2001:db8::. *)
Theorem get_network_address_masks :
  (forall (a : lisp_addr_t) (len : Z),
      afi a = AF_INET -> 0 <= len <= 32 ->
      get_network_address a len
      = Some ({| address := spec_network_address_v4 (address a) len;
                 afi := AF_INET |}, [])
      /\ (forall i : Z,
             Z.testbit (top_bits_mask len) i = (32 - len <=? i) && (i <? 32)))
  /\ top_bits_mask 0 = 0
  /\ (forall (a : lisp_addr_t) (len : Z),
         afi a = AF_INET6 -> 0 <= len <= 128 ->
         get_network_address a len
         = Some ({| address := spec_network_address_v6 (address a) len;
                    afi := AF_INET6 |}, [])
         /\ (forall i k : Z,
                0 <= i < 4 -> 0 <= k < 32 ->
                Z.testbit (spec_mask_v6 len i) k = (32 * i + (31 - k) <? len)))
  /\ get_network_address (ipv4 192 168 1 130) 24 = Some (ipv4 192 168 1 0, [])
  /\ get_network_address (ipv6 0x2001 0xdb8 0 0 0 0 0 0x1234) 32
     = Some (ipv6 0x2001 0xdb8 0 0 0 0 0 0, []).
Proof.
  repeat split.
  - rewrite (get_network_address_spec OK) by (left; split; assumption).
    unfold spec_network_address. rewrite H, Z.eqb_refl. reflexivity.
  - intros i. apply top_bits_mask_testbit. assumption.
  - pose proof family_distinct as Hf.
    rewrite (get_network_address_spec OK) by (right; split; assumption).
    unfold spec_network_address. rewrite H.
    destruct (Z.eqb_spec AF_INET6 AF_INET); [intuition congruence | reflexivity].
  - intros i k Hi Hk. apply spec_mask_v6_testbit; assumption.
  - rewrite (get_network_address_spec OK) by (left; cbn; lia).
    unfold spec_network_address, ipv4. cbn [afi address].
    rewrite Z.eqb_refl. unfold ret. do 3 f_equal.
  - pose proof family_distinct as Hf.
    rewrite (get_network_address_spec OK) by (right; cbn; lia).
    unfold spec_network_address, ipv6. cbn [afi address].
    destruct (Z.eqb_spec AF_INET6 AF_INET); [intuition congruence |].
    unfold ret. do 3 f_equal.
Qed.

End NetworkAddressClaims.

(** ** Prefix containment *)

Section Containment.

Context {D : lispd_defs} {OK : lispd_defs_ok D}.

(** On network addresses of one family and one length, the comparison
    returns 0 exactly when the two network addresses are the same. *)
Lemma compare_network_addresses (a b : lisp_addr_t) (len : Z) :
  valid_prefix a len -> afi b = afi a ->
  (compare_lisp_addr_t (Some (spec_network_address a len))
                       (Some (spec_network_address b len)) = 0
   <-> spec_network_address b len = spec_network_address a len).
Proof.
  pose proof family_distinct as Hf.
  intros [[Ha Hlen] | [Ha Hlen]] Hb; unfold spec_network_address; rewrite Hb, Ha.
  - rewrite Z.eqb_refl. rewrite compare_v4_equal by reflexivity.
    cbn [address spec_network_address_v4 word0].
    split; intros H.
    + unfold spec_network_address_v4. rewrite H. reflexivity.
    + apply (f_equal (fun r => word0 (address r))) in H. symmetry. exact H.
  - destruct (Z.eqb_spec AF_INET6 AF_INET); [intuition congruence |].
    rewrite compare_v6_equal by (reflexivity || intuition congruence).
    cbn [address].
    split; intros H.
    + rewrite H. reflexivity.
    + apply (f_equal address) in H. symmetry. exact H.
Qed.

(** C1: [is_prefix_b_part_of_a] on the prefixes (A, la) and (B, lb)
    returns false when the families of A and B differ, and false when
    la > lb.  Otherwise, for a prefix (A, la) that meets the invariant of
    prefixes, it returns true exactly when the network address of B cut to
    la bits is the network address of A at la bits; so it returns true on
    two identical prefixes. *)
Theorem is_prefix_b_part_of_a_spec (a b : lisp_addr_t) (la lb : Z) :
  (afi a <> afi b -> is_prefix_b_part_of_a a la b lb = Some (FALSE, []))
  /\ (la > lb -> is_prefix_b_part_of_a a la b lb = Some (FALSE, []))
  /\ (valid_prefix a la -> afi b = afi a -> la <= lb ->
      (is_prefix_b_part_of_a a la b lb = Some (TRUE, [])
       <-> spec_network_address b la = spec_network_address a la)
      /\ (is_prefix_b_part_of_a a la b lb = Some (FALSE, [])
          <-> spec_network_address b la <> spec_network_address a la))
  /\ (valid_prefix a la -> is_prefix_b_part_of_a a la a la = Some (TRUE, []))
  /\ TRUE <> FALSE.
Proof.
  pose proof truth_values as [Htf _].
  assert (Hmain : valid_prefix a la -> afi b = afi a -> la <= lb ->
            is_prefix_b_part_of_a a la b lb
            = Some (if compare_lisp_addr_t (Some (spec_network_address a la))
                                           (Some (spec_network_address b la)) =? 0
                    then TRUE else FALSE, [])).
  { intros Hv Hb Hle. unfold is_prefix_b_part_of_a.
    rewrite Hb, Z.eqb_refl. cbn [negb].
    destruct (Z.gtb_spec la lb); [lia |].
    assert (Hvb : valid_prefix b la).
    { destruct Hv as [[? ?] | [? ?]]; [left | right]; split; congruence. }
    rewrite (get_network_address_spec OK a la Hv).
    rewrite (get_network_address_spec OK b la Hvb).
    cbn [bind ret app].
    destruct (_ =? 0); reflexivity. }
  repeat split.
  - intros Hne. unfold is_prefix_b_part_of_a.
    destruct (Z.eqb_spec (afi a) (afi b)); [contradiction | reflexivity].
  - intros Hgt. unfold is_prefix_b_part_of_a.
    destruct (negb (afi a =? afi b)); [reflexivity |].
    destruct (Z.gtb_spec la lb); [reflexivity | lia].
  - rewrite Hmain by assumption.
    destruct (Z.eqb_spec (compare_lisp_addr_t (Some (spec_network_address a la))
                            (Some (spec_network_address b la))) 0) as [Hc | Hc].
    + intros _. apply compare_network_addresses; assumption.
    + intros Hx. congruence.
  - rewrite Hmain by assumption. intros Heq.
    apply compare_network_addresses in Heq; [| assumption | assumption].
    rewrite Heq, Z.eqb_refl. reflexivity.
  - rewrite Hmain by assumption.
    destruct (Z.eqb_spec (compare_lisp_addr_t (Some (spec_network_address a la))
                            (Some (spec_network_address b la))) 0) as [Hc | Hc].
    + intros Hx. congruence.
    + intros _ Heq. apply Hc. apply compare_network_addresses; assumption.
  - rewrite Hmain by assumption. intros Hne.
    destruct (Z.eqb_spec (compare_lisp_addr_t (Some (spec_network_address a la))
                            (Some (spec_network_address b la))) 0) as [Hc | Hc];
      [| reflexivity].
    exfalso. apply Hne. apply compare_network_addresses; assumption.
  - intros Hv. unfold is_prefix_b_part_of_a.
    rewrite Z.eqb_refl. cbn [negb].
    destruct (Z.gtb_spec la la); [lia |].
    rewrite (get_network_address_spec OK a la Hv). cbn [bind ret app].
    assert (Hc : compare_lisp_addr_t (Some (spec_network_address a la))
                   (Some (spec_network_address a la)) = 0)
      by (apply compare_network_addresses; [assumption | reflexivity | reflexivity]).
    rewrite Hc. reflexivity.
  - exact Htf.
Qed.

(** Outside the invariant of prefixes: two addresses of one family that
    is neither V4 nor V6 are never part of one another, not even a prefix
    of itself; [get_network_address] logs the family each time. *)
Lemma is_prefix_b_part_of_a_other_family (a b : lisp_addr_t) (la lb : Z) :
  afi b = afi a -> afi a <> AF_INET -> afi a <> AF_INET6 -> la <= lb ->
  value_of (is_prefix_b_part_of_a a la b lb) = Some FALSE.
Proof.
  intros Hb H4 H6 Hle. unfold is_prefix_b_part_of_a, get_network_address.
  rewrite Hb, Z.eqb_refl. cbn [negb].
  destruct (Z.gtb_spec la lb); [lia |].
  destruct (Z.eqb_spec (afi a) AF_INET); [contradiction |].
  destruct (Z.eqb_spec (afi a) AF_INET6); [contradiction |].
  cbn [bind emit ret app]. unfold compare_lisp_addr_t. cbn [afi].
  rewrite Z.eqb_refl. cbn [negb].
  pose proof family_distinct as Hf.
  destruct (Z.eqb_spec AF_UNSPEC AF_INET); [intuition congruence |].
  destruct (Z.eqb_spec AF_UNSPEC AF_INET6); [intuition congruence |].
  reflexivity.
Qed.

End Containment.

(** ** Reading an address from a packet *)

Lemma memcpy_four (u : addr_union) (payload : list byte) :
  (4 <= List.length payload)%nat ->
  union_of_bytes (firstn 4 payload ++ skipn 4 (bytes_of_union u))
  = {| word0 := mem32_of_bytes payload; word1 := word1 u;
       word2 := word2 u; word3 := word3 u |}.
Proof.
  intros Hlen.
  do 4 (destruct payload as [| ? payload]; [cbn in Hlen; lia |]).
  destruct u as [[[[? ?] ?] ?] [[[? ?] ?] ?] [[[? ?] ?] ?] [[[? ?] ?] ?]].
  reflexivity.
Qed.

Lemma memcpy_sixteen (u : addr_union) (payload : list byte) :
  (16 <= List.length payload)%nat ->
  union_of_bytes (firstn 16 payload ++ skipn 16 (bytes_of_union u))
  = union_of_bytes payload.
Proof.
  intros Hlen.
  do 16 (destruct payload as [| ? payload]; [cbn in Hlen; lia |]).
  destruct u as [[[[? ?] ?] ?] [[[? ?] ?] ?] [[[? ?] ?] ?] [[[? ?] ?] ?]].
  reflexivity.
Qed.

Section Extraction.

Context {D : lispd_defs} {OK : lispd_defs_ok D}.

(** The first step of [extract_lisp_address]: the tag is the value of the
    first two bytes, most significant first. *)
Lemma extract_tag (t0 t1 : byte) (payload : list byte) (addr : lisp_addr_t) :
  extract_lisp_address (t0 :: t1 :: payload) addr
  = (family <- lisp2inetafi (byte.unsigned t0 * 2 ^ 8 + byte.unsigned t1) ;;
     let addr := {| address := address addr; afi := family |} in
     if afi addr =? AF_INET then
       u <- memcpy_address (address addr) payload 4 ;;
       ret (GOOD, {| address := u; afi := afi addr |})
     else if afi addr =? AF_INET6 then
       u <- memcpy_address (address addr) payload 16 ;;
       ret (GOOD, {| address := u; afi := afi addr |})
     else if afi addr =? AF_UNSPEC then ret (GOOD, addr)
     else if afi addr =? LISP_AFI_LCAF then
       emit (lispd_log_msg LISP_LOG_DEBUG_2
               "extract_lisp_address: Couldn't process lcaf address" []) ;;;
       ret (ERR_AFI, addr)
     else
       emit (lispd_log_msg LISP_LOG_DEBUG_2
               "extract_lisp_address: Coudn't extract address. Unknown afi" []) ;;;
       ret (ERR_AFI, addr)).
Proof.
  pose proof (ntohs_load16 t0 t1 payload) as Htag.
  unfold extract_lisp_address.
  destruct (load16 (t0 :: t1 :: payload)) as [x |]; [| discriminate].
  injection Htag as Htag. cbn [defined]. rewrite bind_ret_l.
  rewrite Htag. reflexivity.
Qed.

(** C3: [extract_lisp_address] reads the two bytes of the AFI tag most
    significant byte first and translates the tag with [lisp2inetafi].
    For the IPv4 tag it copies the 4 bytes that follow, and no more, into
    the address; for the IPv6 tag the 16 bytes that follow; for the
    no-address tag it succeeds with the Unspecified family and reads no
    byte of payload; for the LCAF tag it fails, reporting that an LCAF
    address is not processed; for any other tag it fails, reporting an
    unknown AFI. *)
Theorem extract_lisp_address_spec (t0 t1 : byte) (payload : list byte)
    (addr : lisp_addr_t) :
  let tag := byte.unsigned t0 * 2 ^ 8 + byte.unsigned t1 in
  let ptr := t0 :: t1 :: payload in
  (tag = LISP_AFI_IP -> (4 <= List.length payload)%nat ->
   extract_lisp_address ptr addr
   = Some ((GOOD, {| address := {| word0 := mem32_of_bytes payload;
                                   word1 := word1 (address addr);
                                   word2 := word2 (address addr);
                                   word3 := word3 (address addr) |};
                     afi := AF_INET |}), []))
  /\ (tag = LISP_AFI_IPV6 -> (16 <= List.length payload)%nat ->
      extract_lisp_address ptr addr
      = Some ((GOOD, {| address := union_of_bytes payload; afi := AF_INET6 |}), []))
  /\ (tag = LISP_AFI_NO_ADDR ->
      extract_lisp_address ptr addr
      = Some ((GOOD, {| address := address addr; afi := AF_UNSPEC |}), []))
  /\ (tag = LISP_AFI_LCAF ->
      extract_lisp_address ptr addr
      = Some ((ERR_AFI, {| address := address addr; afi := LISP_AFI_LCAF |}),
              [lispd_log_msg LISP_LOG_DEBUG_2
                 "extract_lisp_address: Couldn't process lcaf address" []]))
  /\ (~ In tag [LISP_AFI_NO_ADDR; LISP_AFI_IP; LISP_AFI_IPV6; LISP_AFI_LCAF] ->
      extract_lisp_address ptr addr
      = Some ((ERR_AFI, {| address := address addr; afi := ERR_AFI |}),
              [lispd_log_msg LISP_LOG_DEBUG_2 "lisp2inetafi: unknown AFI (%d)"
                 [arg_int tag];
               lispd_log_msg LISP_LOG_DEBUG_2
                 "extract_lisp_address: Coudn't extract address. Unknown afi" []]))
  /\ ERR_AFI <> GOOD.
Proof.
  intros tag ptr. subst ptr.
  pose proof family_distinct as Hf.
  pose proof lcaf_distinct as Hl.
  pose proof err_afi_distinct as He.
  pose proof lcaf_uint16 as Hr.
  pose proof (byte.unsigned_range t0) as H0.
  pose proof (byte.unsigned_range t1) as H1.
  assert (Htag : to_uint16 tag = tag).
  { apply to_uint16_small. subst tag. change (2 ^ 8) with 256 in *.
    change (2 ^ 16) with 65536. lia. }
  rewrite extract_tag. fold tag.
  unfold lisp2inetafi. rewrite Htag.
  unfold LISP_AFI_NO_ADDR, LISP_AFI_IP, LISP_AFI_IPV6 in *.
  repeat split.
  - intros -> Hlen. cbn [Z.eqb Pos.eqb bind ret afi address app].
    rewrite Z.eqb_refl. unfold memcpy_address.
    destruct (Nat.leb_spec 4 (List.length payload)); [| lia].
    cbn [bind ret app]. rewrite memcpy_four by assumption. reflexivity.
  - intros -> Hlen. cbn [Z.eqb Pos.eqb bind ret afi address app].
    destruct (Z.eqb_spec AF_INET6 AF_INET); [intuition congruence |].
    rewrite Z.eqb_refl. unfold memcpy_address.
    destruct (Nat.leb_spec 16 (List.length payload)); [| lia].
    cbn [bind ret app]. rewrite memcpy_sixteen by assumption. reflexivity.
  - intros ->. cbn [Z.eqb bind ret afi address app].
    case_eqb; try (exfalso; intuition congruence). reflexivity.
  - intros ->.
    case_eqb; try (exfalso; intuition congruence).
    cbn [bind ret afi address app].
    case_eqb; try (exfalso; intuition congruence). reflexivity.
  - intros Hin. cbn [In] in Hin.
    case_eqb; try (exfalso; intuition congruence).
    cbn [bind ret emit afi address app].
    case_eqb; try (exfalso; intuition congruence). reflexivity.
  - intuition congruence.
Qed.

End Extraction.

(** ** The dispatcher *)

Section Dispatcher.

Context {D : lispd_defs} {OK : lispd_defs_ok D}.

Variable World : Type.
Variable get_packet_and_socket_inf :
  Z -> Z -> World -> (Z * list byte * lisp_addr_t * Z) * World.
Variable process_map_request_msg : list byte -> lisp_addr_t -> Z -> World -> Z * World.
Variable process_map_reply : list byte -> World -> Z * World.
Variable process_map_notify : list byte -> World -> Z * World.
Variable process_map_referral : list byte -> World -> Z * World.
Variable process_info_nat_msg : list byte -> lisp_addr_t -> World -> Z * World.

(** C5: when the message received has the type Map-Register, the
    dispatcher calls no handler and returns success; when its type is none
    of the defined types, the dispatcher logs that the message is
    unidentified, calls no handler and returns success as well.  In both
    cases the events are log entries only and the state of the daemon is
    the one the socket layer left. *)
Theorem process_lisp_ctr_msg_ignores (sock family : Z) (w w1 : World)
    (packet : list byte) (local_rloc : lisp_addr_t) (remote_port : Z) :
  get_packet_and_socket_inf sock family w
  = ((GOOD, packet, local_rloc, remote_port), w1) ->
  (msg_type packet = LISP_MAP_REGISTER ->
   process_lisp_ctr_msg World get_packet_and_socket_inf process_map_request_msg
     process_map_reply process_map_notify process_map_referral process_info_nat_msg
     sock family w
   = (GOOD,
      [lispd_log_msg LISP_LOG_DEBUG_2 "Received a LISP control message" [];
       lispd_log_msg LISP_LOG_DEBUG_2 "Completed processing of LISP control message" []],
      w1))
  /\ (~ In (msg_type packet)
          [LISP_MAP_REQUEST; LISP_MAP_REPLY; LISP_MAP_REGISTER; LISP_MAP_NOTIFY;
           LISP_MAP_REFERRAL; LISP_INFO_NAT; LISP_ENCAP_CONTROL_TYPE] ->
      process_lisp_ctr_msg World get_packet_and_socket_inf process_map_request_msg
     process_map_reply process_map_notify process_map_referral process_info_nat_msg
     sock family w
      = (GOOD,
         [lispd_log_msg LISP_LOG_DEBUG_2 "Received a LISP control message" [];
          lispd_log_msg LISP_LOG_DEBUG_1 "Unidentified type control message received" [];
          lispd_log_msg LISP_LOG_DEBUG_2 "Completed processing of LISP control message" []],
         w1)).
Proof.
  intros Hrecv.
  pose proof type_labels as Ht.
  repeat (apply NoDup_cons_iff in Ht; destruct Ht as [? Ht]).
  cbn [In] in *.
  split; intros Htype; unfold process_lisp_ctr_msg, pbind;
    rewrite Hrecv, Z.eqb_refl; cbn [negb].
  - rewrite Htype.
    case_eqb; try (exfalso; intuition congruence). reflexivity.
  - case_eqb; try (exfalso; intuition congruence). reflexivity.
Qed.

End Dispatcher.

(** ** Hostnames *)

Lemma nth_last {A : Type} (pre rest : list A) (d : A) :
  pre <> [] -> nth (List.length pre - 1) (pre ++ rest) d = last pre d.
Proof.
  induction pre as [| x pre IH]; intros Hne; [contradiction |].
  destruct pre as [| y pre]; [reflexivity |].
  specialize (IH ltac:(discriminate)).
  cbn [List.length] in *. rewrite Nat.sub_1_r in *. cbn [Nat.pred] in *.
  change (last (x :: y :: pre) d) with (last (y :: pre) d).
  rewrite <- IH. reflexivity.
Qed.

Lemma last_cons {A : Type} (x : A) (l : list A) (d : A) :
  last (x :: l) d = last l x.
Proof.
  revert x d; induction l as [| y l IH]; intros x d; [reflexivity |].
  change (last (x :: y :: l) d) with (last (y :: l) d).
  rewrite !IH. reflexivity.
Qed.

Section Hostnames.

Context {D : lispd_defs}.

(** The loop over indices agrees with the recursion over the remaining
    characters, and never runs out of fuel when the fuel exceeds the
    number of characters left. *)
Lemma isfqdn_loop_scan (rest pre : list ascii) (fuel : nat) (dot : Z) :
  pre <> [] -> (List.length rest < fuel)%nat ->
  exists o : loop_outcome,
    isfqdn_loop fuel (pre ++ rest) (List.length pre) dot = Some o
    /\ match o, scan (last pre NUL) rest dot with
       | loop_return r, scan_return r' => r = r'
       | loop_exit j dot', scan_exit prev dot'' =>
           char_at (pre ++ rest) (j - 1) = prev /\ dot' = dot''
       | _, _ => False
       end.
Proof.
  revert pre fuel dot.
  induction rest as [| c rest IH]; intros pre fuel dot Hpre Hfuel;
    (destruct fuel as [| fuel]; [cbn in Hfuel; lia |]); cbn [isfqdn_loop scan].
  - unfold char_at at 1. rewrite app_nil_r, nth_overflow by lia.
    cbn. eexists; split; [reflexivity |]. cbn.
    split; [| reflexivity]. unfold char_at.
    rewrite <- (app_nil_r pre) at 2. apply nth_last, Hpre.
  - assert (Hc : char_at (pre ++ c :: rest) (List.length pre) = c).
    { unfold char_at. apply nth_middle. }
    assert (Hp : char_at (pre ++ c :: rest) (List.length pre - 1) = last pre NUL).
    { unfold char_at. apply nth_last, Hpre. }
    rewrite Hc, Hp. fold (is_dot c) (is_dot (last pre NUL)).
    destruct (negb (is_char c NUL) && negb (is_char c ",")).
    + destruct (is_dot c && is_dot (last pre NUL)).
      { eexists; split; [reflexivity |]. reflexivity. }
      fold (is_name_char c).
      destruct (negb (is_name_char c)).
      { eexists; split; [reflexivity |]. reflexivity. }
      specialize (IH (pre ++ [c]) fuel (if is_dot c then 1 else dot)).
      rewrite <- app_assoc, length_app, last_last in IH. cbn [app List.length] in IH.
      replace (List.length pre + 1)%nat with (S (List.length pre)) in IH by lia.
      apply IH; [| cbn in Hfuel; lia].
      destruct pre; discriminate.
    + eexists; split; [reflexivity |]. cbn. split; [exact Hp | reflexivity].
Qed.

End Hostnames.

(** Letters and digits are none of the characters that the code treats
    specially. *)
Lemma isalnum_plain (c : ascii) :
  isalnum c = true ->
  is_char c NUL = false /\ is_char c "," = false /\ is_dot c = false
  /\ is_char c ":" = false /\ is_name_char c = true.
Proof.
  intros H. unfold is_name_char. rewrite H.
  destruct c as [[] [] [] [] [] [] [] []];
    try (vm_compute in H; discriminate H); repeat split.
Qed.

Lemma isalpha_not_dot (c : ascii) : isalpha c = true -> is_dot c = false.
Proof.
  intros H.
  destruct c as [[] [] [] [] [] [] [] []];
    try (vm_compute in H; discriminate H); reflexivity.
Qed.

Lemma is_found_strchr (s : list ascii) (c : ascii) :
  is_found (strchr s c) = existsb (fun x => is_char x c) (c_string s).
Proof.
  induction s as [| x s IH]; [reflexivity |]. cbn [strchr c_string].
  destruct (is_char x NUL); [reflexivity |]. cbn [existsb].
  destruct (is_char x c); [reflexivity | exact IH].
Qed.

Lemma no_adjacent_dots_cons (a b : ascii) (l : list ascii) :
  no_adjacent_dots (a :: b :: l)
  = negb (is_dot a && is_dot b) && no_adjacent_dots (b :: l).
Proof. reflexivity. Qed.

Lemma interior_dot_before_letter (n : list ascii) (c0 : ascii) :
  isalpha (last n c0) = true ->
  existsb is_dot (removelast n) = existsb is_dot n.
Proof.
  intros Hlast. destruct n as [| x n]; [reflexivity |].
  assert (Hne : x :: n <> []) by discriminate.
  rewrite (app_removelast_last c0 Hne) at 2.
  rewrite existsb_app. cbn [existsb].
  rewrite (isalpha_not_dot _ Hlast), !orb_false_r. reflexivity.
Qed.

Section HostnameClaims.

Context {D : lispd_defs} {OK : lispd_defs_ok D}.

Lemma scan_spec (rest : list ascii) (prev : ascii) (dot : Z) :
  scan prev rest dot
  = if forallb is_name_char (before_comma (c_string rest))
       && no_adjacent_dots (prev :: before_comma (c_string rest))
    then scan_exit (last (before_comma (c_string rest)) prev)
                   (if existsb is_dot (before_comma (c_string rest)) then 1 else dot)
    else scan_return FALSE.
Proof.
  revert prev dot. induction rest as [| c rest IH]; intros prev dot;
    [reflexivity |].
  cbn [scan c_string].
  destruct (is_char c NUL); [reflexivity |].
  cbn [before_comma negb andb].
  destruct (is_char c ","); [reflexivity |].
  cbn [negb forallb existsb]. rewrite no_adjacent_dots_cons, last_cons, IH.
  destruct (forallb is_name_char (before_comma (c_string rest))),
    (no_adjacent_dots (c :: before_comma (c_string rest))),
    (existsb is_dot (before_comma (c_string rest))),
    (is_dot c), (is_dot prev), (is_name_char c); reflexivity.
Qed.

(** What [isfqdn] computes on a string that starts with a letter or a
    digit. *)
Lemma isfqdn_closed_form (c0 : ascii) (rest : list ascii) :
  isalnum c0 = true ->
  isfqdn (c0 :: rest)
  = if existsb (fun x => is_char x ":") (c_string (c0 :: rest)) then Some BAD
    else if forallb is_name_char (before_comma (c_string rest))
            && no_adjacent_dots (c0 :: before_comma (c_string rest))
            && isalpha (last (before_comma (c_string rest)) c0)
            && existsb is_dot (before_comma (c_string rest))
         then Some TRUE else Some FALSE.
Proof.
  intros Ha. destruct (isalnum_plain c0 Ha) as (_ & _ & Hdot & _ & _).
  unfold isfqdn. change (char_at (c0 :: rest) 0) with c0.
  rewrite Ha, is_found_strchr. cbn [negb orb].
  destruct (existsb _ (c_string (c0 :: rest))); [reflexivity |].
  destruct (isfqdn_loop_scan rest [c0] (S (List.length (c0 :: rest))) 0)
    as (o & Ho & Hrel); [discriminate | cbn; lia |].
  change ([c0] ++ rest) with (c0 :: rest) in *.
  change (List.length [c0]) with 1%nat in Ho. rewrite Ho.
  change (last [c0] NUL) with c0 in Hrel. rewrite scan_spec in Hrel.
  fold (is_dot c0). rewrite Hdot. cbn [orb].
  set (n := before_comma (c_string rest)) in *.
  destruct (forallb is_name_char n && no_adjacent_dots (c0 :: n)).
  - destruct o as [r | j dot']; [contradiction |].
    destruct Hrel as [-> ->]. cbn [andb].
    destruct (isalpha (last n c0)) eqn:Hl.
    + fold (is_dot (last n c0)). rewrite (isalpha_not_dot _ Hl). cbn [negb orb andb].
      destruct (existsb is_dot n); reflexivity.
    + rewrite orb_true_r. reflexivity.
  - destruct o as [r | j dot']; [| contradiction]. subst r. reflexivity.
Qed.

End HostnameClaims.

Section HostnameRule.

Context {D : lispd_defs} {OK : lispd_defs_ok D}.

(** C8, as the code has it: [isfqdn] always returns, and it accepts a
    string (returns TRUE) exactly when the string holds no colon and its
    part before the first comma meets the rule: the first character is
    alphanumeric, there is an interior dot, no two dots are adjacent,
    every character is alphanumeric, a hyphen or a dot, and the last
    character is alphabetic.  Any other string is rejected with FALSE or
    BAD. *)
Theorem isfqdn_spec (s : list ascii) :
  (isfqdn s = Some TRUE <-> qualifies_before_comma (c_string s) = true)
  /\ (isfqdn s = Some TRUE \/ isfqdn s = Some FALSE \/ isfqdn s = Some BAD).
Proof.
  pose proof truth_values as [Htf Htb].
  assert (Hbad : forall o : option Z, o = Some BAD ->
            (o = Some TRUE <-> false = true)
            /\ (o = Some TRUE \/ o = Some FALSE \/ o = Some BAD)).
  { intros o ->. split; [| auto]. split; [| discriminate].
    intros H; injection H as H. congruence. }
  destruct s as [| c0 rest]; [apply Hbad; reflexivity |].
  destruct (isalnum c0) eqn:Ha.
  - rewrite isfqdn_closed_form by exact Ha.
    destruct (isalnum_plain c0 Ha) as (Hnul & Hcomma & Hdot & Hcolon & Hname).
    unfold qualifies_before_comma.
    cbn [c_string]. rewrite Hnul.
    destruct (existsb _ (c0 :: c_string rest)); [apply Hbad; reflexivity |].
    cbn [before_comma negb andb]. rewrite Hcomma.
    unfold qualifies, has_interior_dot.
    cbn [hd tl forallb]. rewrite Ha, Hname, last_cons. cbn [andb].
    set (n := before_comma (c_string rest)).
    destruct (isalpha (last n c0)) eqn:Hl.
    + rewrite (interior_dot_before_letter n c0 Hl).
      destruct (forallb is_name_char n), (no_adjacent_dots (c0 :: n)),
        (existsb is_dot n); cbn [andb];
        (split; [split; [reflexivity || (intros H; injection H as H; congruence)
                        | reflexivity || discriminate]
                | auto]).
    + rewrite !andb_false_r. cbn [andb].
      split; [| auto]. split; [| discriminate].
      intros H; injection H as H. congruence.
  - assert (Hr : isfqdn (c0 :: rest) = Some BAD).
    { unfold isfqdn. change (char_at (c0 :: rest) 0) with c0. rewrite Ha. reflexivity. }
    assert (Hq : qualifies_before_comma (c_string (c0 :: rest)) = false).
    { unfold qualifies_before_comma. cbn [c_string].
      destruct (is_char c0 NUL); [apply andb_false_r |].
      cbn [before_comma]. destruct (is_char c0 ","); [apply andb_false_r |].
      unfold qualifies. cbn [hd]. rewrite Ha. cbn [andb]. apply andb_false_r. }
    rewrite Hq. apply Hbad, Hr.
Qed.

End HostnameRule.

(** ** Prefixes in text *)

Lemma c_string_plain (t rest : list ascii) :
  plain_token t = true -> c_string (t ++ rest) = t ++ c_string rest.
Proof.
  induction t as [| c t IH]; intros Hp; [reflexivity |].
  cbn [plain_token forallb] in Hp. apply andb_prop in Hp as [Hc Ht].
  apply andb_prop in Hc as [Hnul _]. apply negb_true_iff in Hnul.
  cbn [app c_string]. rewrite Hnul. f_equal. apply IH, Ht.
Qed.

Lemma split_token_plain (t : list ascii) :
  plain_token t = true ->
  (forall rest, split_token ["/"%char] (t ++ "/"%char :: rest) = (t, Some rest))
  /\ split_token ["/"%char] t = (t, None).
Proof.
  induction t as [| c t IH]; intros Hp; [split; reflexivity |].
  cbn [plain_token forallb] in Hp. apply andb_prop in Hp as [Hc Ht].
  apply andb_prop in Hc as [_ Hslash]. apply negb_true_iff in Hslash.
  destruct (IH Ht) as [IH1 IH2].
  split; [intros rest |]; cbn [app split_token is_delim existsb];
    rewrite Hslash; cbn [orb]; rewrite ?IH1, ?IH2; reflexivity.
Qed.

Lemma skip_delims_plain (t rest : list ascii) :
  plain_token t = true -> t <> [] ->
  skip_delims ["/"%char] (t ++ rest) = t ++ rest.
Proof.
  intros Hp Hne. destruct t as [| c t]; [contradiction |].
  cbn [plain_token forallb] in Hp. apply andb_prop in Hp as [Hc _].
  apply andb_prop in Hc as [_ Hslash]. apply negb_true_iff in Hslash.
  cbn [app skip_delims is_delim existsb]. rewrite Hslash. reflexivity.
Qed.

(** [strtok] on a text of the form address/length: the first call
    returns the address, the second the length if there is one. *)
Lemma strtok_first (addr_tok len_tok : list ascii) :
  plain_token addr_tok = true -> addr_tok <> [] -> plain_token len_tok = true ->
  strtok (Some (addr_tok ++ "/"%char :: len_tok)) ["/"%char] None
  = (Some addr_tok, Some len_tok).
Proof.
  intros Ha Hne Hl. unfold strtok.
  rewrite c_string_plain by exact Ha. cbn [c_string].
  change (is_char "/" NUL) with false. cbn iota.
  rewrite <- (app_nil_r len_tok) at 1.
  rewrite (c_string_plain len_tok []) by exact Hl. cbn [c_string].
  rewrite app_nil_r, skip_delims_plain by assumption.
  destruct (split_token_plain addr_tok Ha) as [Hs _]. specialize (Hs len_tok).
  destruct addr_tok as [| c t]; [contradiction |].
  cbn [app] in *. rewrite Hs. reflexivity.
Qed.

Lemma strtok_alone (addr_tok : list ascii) :
  plain_token addr_tok = true -> addr_tok <> [] ->
  strtok (Some addr_tok) ["/"%char] None = (Some addr_tok, None).
Proof.
  intros Ha Hne. unfold strtok.
  rewrite <- (app_nil_r addr_tok) at 1.
  rewrite c_string_plain by exact Ha. cbn [c_string].
  rewrite skip_delims_plain by assumption. rewrite app_nil_r.
  destruct (split_token_plain addr_tok Ha) as [_ Hs].
  destruct addr_tok as [| c t]; [contradiction |].
  rewrite Hs. reflexivity.
Qed.

Lemma strtok_second (len_tok : list ascii) :
  plain_token len_tok = true ->
  strtok None ["/"%char] (Some len_tok)
  = (match len_tok with [] => None | _ => Some len_tok end, None).
Proof.
  intros Hl. unfold strtok. destruct len_tok as [| c t]; [reflexivity |].
  rewrite <- (app_nil_r (c :: t)) at 1.
  rewrite skip_delims_plain by (assumption || discriminate).
  rewrite app_nil_r.
  destruct (split_token_plain (c :: t) Hl) as [_ Hs]. rewrite Hs. reflexivity.
Qed.

Section PrefixText.

Context {D : lispd_defs} {OK : lispd_defs_ok D}.

Variable inet_pton : Z -> list ascii -> option (list byte).

(** A literal that the C library accepts for the family that [get_afi]
    chooses is parsed with success. *)
Lemma get_lisp_addr_from_char_literal (addr_str : list ascii) (bytes : list byte)
    (lisp_addr : lisp_addr_t) :
  inet_pton (get_afi addr_str) addr_str = Some bytes ->
  get_lisp_addr_from_char inet_pton addr_str lisp_addr
  = ret (GOOD, parsed_address addr_str bytes lisp_addr).
Proof.
  intros Hlit.
  pose proof family_distinct as Hf.
  pose proof err_afi_distinct as He.
  pose proof codes_uint8 as [Hg Hb].
  assert (Hgood : to_uint8 GOOD = GOOD) by (apply Z.mod_small; exact Hg).
  unfold get_lisp_addr_from_char, parsed_address. cbn [afi address].
  assert (Hafi : get_afi addr_str = AF_INET \/ get_afi addr_str = AF_INET6).
  { unfold get_afi. destruct (is_found _); auto. }
  destruct Hafi as [Hafi | Hafi]; rewrite Hafi in *.
  - rewrite Z.eqb_refl, Hlit, Hgood.
    destruct (Z.eqb_spec GOOD BAD); [intuition congruence | reflexivity].
  - destruct (Z.eqb_spec AF_INET6 AF_INET); [intuition congruence |].
    rewrite Z.eqb_refl, Hlit, Hgood.
    destruct (Z.eqb_spec GOOD BAD); [intuition congruence | reflexivity].
Qed.

(** C7, as the code has it: on a text made of an address literal that the
    C library accepts, a slash and a length token,
    [get_lisp_addr_and_mask_from_char] succeeds exactly when the length
    token is present and the length that [atoi] reads from it lies from 1
    to 32 for a V4 address, from 1 to 128 for a V6 address; when the
    token is missing (nothing after the slash, or no slash) or the length
    is outside that range it fails with BAD. *)
Theorem get_lisp_addr_and_mask_from_char_spec (addr_tok len_tok : list ascii)
    (bytes : list byte) (lisp_addr : lisp_addr_t) (mask n : Z) :
  plain_token addr_tok = true -> addr_tok <> [] -> plain_token len_tok = true ->
  inet_pton (get_afi addr_tok) addr_tok = Some bytes ->
  atoi len_tok = Some n ->
  (exists (r m : Z) (es : list event),
      get_lisp_addr_and_mask_from_char inet_pton (addr_tok ++ "/"%char :: len_tok)
        lisp_addr mask
      = Some ((r, parsed_address addr_tok bytes lisp_addr, m), es)
      /\ (r = GOOD <-> len_tok <> [] /\ 1 <= n <= max_prefix_length addr_tok)
      /\ (r = BAD <-> len_tok = [] \/ n < 1 \/ max_prefix_length addr_tok < n)
      /\ (r = GOOD -> m = n /\ es = []))
  /\ get_lisp_addr_and_mask_from_char inet_pton addr_tok lisp_addr mask
     = Some ((BAD, parsed_address addr_tok bytes lisp_addr, mask),
             [lispd_log_msg LISP_LOG_DEBUG_1
                "get_lisp_addr_and_mask_from_char: strtok: %s" [arg_strerror_errno]]).
Proof.
  intros Ha Hne Hl Hlit Hn.
  pose proof err_afi_distinct as (_ & _ & _ & _ & _ & Hgb).
  assert (Heqb : (GOOD =? BAD) = false) by (apply Z.eqb_neq; exact Hgb).
  split.
  - unfold get_lisp_addr_and_mask_from_char.
    rewrite strtok_first by assumption.
    rewrite (get_lisp_addr_from_char_literal _ _ _ Hlit), bind_ret_l, Heqb.
    rewrite strtok_second by assumption.
    destruct len_tok as [| c t].
    + eexists _, _, _. split; [reflexivity |].
      repeat split; try (intros [? ?]; congruence); try congruence; auto.
    + rewrite Hn. cbn [defined]. rewrite bind_ret_l.
      unfold max_prefix_length, parsed_address. cbn [afi].
      destruct (get_afi addr_tok =? AF_INET);
        destruct (Z.ltb_spec n 1); cbn [orb];
        try (eexists _, _, _; split; [reflexivity |];
             repeat split; try discriminate; try congruence; try lia;
             try (intros [? ?]; lia); auto; fail);
        match goal with
        | |- context [?k >? ?j] => destruct (Z.gtb_spec k j)
        end;
        eexists _, _, _; (split; [reflexivity |]);
        repeat split; try discriminate; try congruence; try lia;
        try (intros [? ?]; lia); try (intros [? | [? | ?]]; (discriminate || lia));
        auto.
  - unfold get_lisp_addr_and_mask_from_char.
    rewrite strtok_alone by assumption.
    rewrite (get_lisp_addr_from_char_literal _ _ _ Hlit), bind_ret_l, Heqb.
    reflexivity.
Qed.

End PrefixText.

(** * The properties on the Linux build *)

Lemma afi_translations_inverse_linux :
  (f <- lisp2inetafi (D := linux_defs) LISP_AFI_IPV6 ;;
   inet2lispafi (D := linux_defs) f) = Some (LISP_AFI_IPV6, [])
  /\ (t <- inet2lispafi (D := linux_defs) 2 ;;
      lisp2inetafi (D := linux_defs) t) = Some (2, []).
Proof.
  destruct (@afi_translations_inverse linux_defs linux_defs_ok) as (H1 & H2 & _).
  split.
  - apply (H1 LISP_AFI_IPV6). simpl. auto.
  - apply (H2 2). simpl. auto.
Defined.

Lemma inet2lispafi_unknown_linux :
  value_of (inet2lispafi (D := linux_defs) 99) = Some 0
  /\ value_of (inet2lispafi (D := linux_defs) 99)
     = value_of (inet2lispafi (D := linux_defs) 0).
Proof.
  assert (H : ~ In 99 [@AF_UNSPEC linux_defs; @AF_INET linux_defs;
                        @AF_INET6 linux_defs; @LISP_AFI_LCAF linux_defs]).
  { simpl. intros [H | [H | [H | [H | []]]]]; discriminate H. }
  destruct (@inet2lispafi_unknown_is_no_addr linux_defs 99 H) as (H1 & _ & H2 & _).
  split; [exact H1 | exact H2].
Defined.

Lemma compare_lisp_addr_t_outcomes_linux :
  compare_lisp_addr_t (D := linux_defs)
    (Some (ipv4 (D := linux_defs) 10 0 0 1))
    (Some (ipv6 (D := linux_defs) 0x2001 0xdb8 0 0 0 0 0 1)) = -1.
Proof.
  destruct (@compare_lisp_addr_t_outcomes linux_defs linux_defs_ok) as (_ & _ & H).
  apply (H (ipv4 (D := linux_defs) 10 0 0 1)
           (ipv6 (D := linux_defs) 0x2001 0xdb8 0 0 0 0 0 1)); reflexivity.
Defined.

Lemma compare_lisp_addr_t_null_linux :
  compare_lisp_addr_t (D := linux_defs) None (Some (ipv4 (D := linux_defs) 10 0 0 1))
  = compare_lisp_addr_t (D := linux_defs)
      (Some (ipv4 (D := linux_defs) 10 0 0 1))
      (Some (ipv6 (D := linux_defs) 0x2001 0xdb8 0 0 0 0 0 1)).
Proof.
  apply (@compare_lisp_addr_t_null linux_defs
           (Some (ipv4 (D := linux_defs) 10 0 0 1))
           (ipv4 (D := linux_defs) 10 0 0 1)
           (ipv6 (D := linux_defs) 0x2001 0xdb8 0 0 0 0 0 1)).
  simpl. lia.
Defined.

Lemma get_network_address_masks_linux :
  get_network_address (D := linux_defs) (ipv4 (D := linux_defs) 192 168 1 130) 24
  = Some ({| address := spec_network_address_v4
                          (address (ipv4 (D := linux_defs) 192 168 1 130)) 24;
             afi := 2 |}, [])
  /\ get_network_address (D := linux_defs)
       (ipv6 (D := linux_defs) 0x2001 0xdb8 0 0 0 0 0 0x1234) 32
     = Some ({| address := spec_network_address_v6
                             (address (ipv6 (D := linux_defs)
                                         0x2001 0xdb8 0 0 0 0 0 0x1234)) 32;
                afi := 10 |}, []).
Proof.
  destruct (@get_network_address_masks linux_defs linux_defs_ok) as (H4 & _ & H6 & _).
  split.
  - apply (H4 (ipv4 (D := linux_defs) 192 168 1 130) 24); [reflexivity | lia].
  - apply (H6 (ipv6 (D := linux_defs) 0x2001 0xdb8 0 0 0 0 0 0x1234) 32);
      [reflexivity | lia].
Defined.

(** The examples of containment: 10.1.2.0/24 is part of 10.0.0.0/8,
    11.0.0.0/8 is not, and no V6 prefix is part of a V4 prefix. *)
Lemma is_prefix_b_part_of_a_linux :
  is_prefix_b_part_of_a (D := linux_defs)
    (ipv4 (D := linux_defs) 10 0 0 0) 8 (ipv4 (D := linux_defs) 10 1 2 0) 24
  = Some (1, [])
  /\ is_prefix_b_part_of_a (D := linux_defs)
       (ipv4 (D := linux_defs) 10 0 0 0) 8 (ipv4 (D := linux_defs) 11 0 0 0) 8
     = Some (0, [])
  /\ is_prefix_b_part_of_a (D := linux_defs)
       (ipv4 (D := linux_defs) 10 0 0 0) 8
       (ipv6 (D := linux_defs) 0x2001 0xdb8 0 0 0 0 0 0) 32
     = Some (0, []).
Proof.
  assert (Hv : valid_prefix (D := linux_defs) (ipv4 (D := linux_defs) 10 0 0 0) 8).
  { left. split; [reflexivity | lia]. }
  split; [| split].
  - destruct (@is_prefix_b_part_of_a_spec linux_defs linux_defs_ok
                (ipv4 (D := linux_defs) 10 0 0 0) (ipv4 (D := linux_defs) 10 1 2 0) 8 24)
      as (_ & _ & H & _).
    destruct (H Hv) as [[_ Hyes] _]; [reflexivity | lia |].
    apply Hyes. vm_compute. reflexivity.
  - destruct (@is_prefix_b_part_of_a_spec linux_defs linux_defs_ok
                (ipv4 (D := linux_defs) 10 0 0 0) (ipv4 (D := linux_defs) 11 0 0 0) 8 8)
      as (_ & _ & H & _).
    destruct (H Hv) as [_ [_ Hno]]; [reflexivity | lia |].
    apply Hno. vm_compute. discriminate.
  - destruct (@is_prefix_b_part_of_a_spec linux_defs linux_defs_ok
                (ipv4 (D := linux_defs) 10 0 0 0)
                (ipv6 (D := linux_defs) 0x2001 0xdb8 0 0 0 0 0 0) 8 32)
      as (H & _).
    apply H. simpl. lia.
Defined.

Lemma extract_lisp_address_linux :
  extract_lisp_address (D := linux_defs)
    (map byte.of_Z [0; 1; 10; 0; 0; 1]) (no_address (D := linux_defs))
  = Some ((1, ipv4 (D := linux_defs) 10 0 0 1), [])
  /\ extract_lisp_address (D := linux_defs)
       (map byte.of_Z [0x40; 0x03; 0; 0]) (no_address (D := linux_defs))
     = Some ((-2, {| address := zero_union; afi := 16387 |}),
             [lispd_log_msg LISP_LOG_DEBUG_2
                "extract_lisp_address: Couldn't process lcaf address" []]).
Proof.
  split.
  - destruct (@extract_lisp_address_spec linux_defs linux_defs_ok
                (byte.of_Z 0) (byte.of_Z 1) (map byte.of_Z [10; 0; 0; 1])
                (no_address (D := linux_defs))) as (H & _).
    apply H; [reflexivity | simpl; lia].
  - destruct (@extract_lisp_address_spec linux_defs linux_defs_ok
                (byte.of_Z 0x40) (byte.of_Z 0x03) (map byte.of_Z [0; 0])
                (no_address (D := linux_defs))) as (_ & _ & _ & H & _).
    apply H. reflexivity.
Defined.

Lemma process_lisp_ctr_msg_ignores_linux :
  process_lisp_ctr_msg (D := linux_defs) unit
    (idle_socket (D := linux_defs) (map byte.of_Z [0x30; 0; 0; 1]))
    (fun _ _ _ => idle_handler (D := linux_defs))
    (fun _ => idle_handler (D := linux_defs))
    (fun _ => idle_handler (D := linux_defs))
    (fun _ => idle_handler (D := linux_defs))
    (fun _ _ => idle_handler (D := linux_defs)) 3 2 tt
  = (1,
     [lispd_log_msg LISP_LOG_DEBUG_2 "Received a LISP control message" [];
      lispd_log_msg LISP_LOG_DEBUG_2 "Completed processing of LISP control message" []],
     tt).
Proof.
  destruct (@process_lisp_ctr_msg_ignores linux_defs linux_defs_ok unit
              (idle_socket (D := linux_defs) (map byte.of_Z [0x30; 0; 0; 1]))
              (fun _ _ _ => idle_handler (D := linux_defs))
              (fun _ => idle_handler (D := linux_defs))
              (fun _ => idle_handler (D := linux_defs))
              (fun _ => idle_handler (D := linux_defs))
              (fun _ _ => idle_handler (D := linux_defs))
              3 2 tt tt (map byte.of_Z [0x30; 0; 0; 1])
              (no_address (D := linux_defs)) 4342) as (H & _).
  - reflexivity.
  - apply H. reflexivity.
Defined.

Lemma isfqdn_spec_linux :
  isfqdn (D := linux_defs) (text "www.example.org") = Some 1.
Proof.
  destruct (@isfqdn_spec linux_defs linux_defs_ok (text "www.example.org"))
    as ((_ & H) & _).
  apply H. vm_compute. reflexivity.
Defined.

(** C8 as stated fails: the text [a.b,1] holds a comma and ends with a
    digit, so it does not meet the rule, and [isfqdn] accepts it. *)
Lemma isfqdn_accepts_text_after_comma :
  isfqdn (D := linux_defs) (text "a.b,1") = Some (@TRUE linux_defs)
  /\ qualifies (c_string (text "a.b,1")) = false.
Proof. split; vm_compute; reflexivity. Qed.

Lemma get_lisp_addr_and_mask_from_char_linux :
  exists (r m : Z) (es : list event),
    get_lisp_addr_and_mask_from_char (D := linux_defs)
      (dotted_quad_pton (D := linux_defs)) (text "10.0.0.0" ++ "/"%char :: text "8")
      (no_address (D := linux_defs)) 0
    = Some ((r, parsed_address (D := linux_defs) (text "10.0.0.0")
                  (map byte.of_Z [10; 0; 0; 0]) (no_address (D := linux_defs)), m), es)
    /\ r = 1 /\ m = 8.
Proof.
  destruct (@get_lisp_addr_and_mask_from_char_spec linux_defs linux_defs_ok
              (dotted_quad_pton (D := linux_defs)) (text "10.0.0.0") (text "8")
              (map byte.of_Z [10; 0; 0; 0]) (no_address (D := linux_defs)) 0 8)
    as ((r & m & es & Hrun & Hgood & _ & Hm) & _).
  - reflexivity.
  - discriminate.
  - reflexivity.
  - vm_compute. reflexivity.
  - vm_compute. reflexivity.
  - exists r, m, es. split; [exact Hrun |].
    assert (Hr : r = 1).
    { apply Hgood. split; [discriminate | vm_compute; split; discriminate]. }
    split; [exact Hr |]. apply Hm. exact Hr.
Defined.

(** C7 as stated fails: 10.0.0.0 is a literal that the C library accepts
    and 0 lies in the range from 0 to 32, yet the text 10.0.0.0/0 is
    refused with BAD. *)
Lemma prefix_length_zero_is_refused :
  dotted_quad_pton (D := linux_defs) (get_afi (D := linux_defs) (text "10.0.0.0"))
    (text "10.0.0.0") = Some (map byte.of_Z [10; 0; 0; 0])
  /\ atoi (text "0") = Some 0
  /\ 0 <= 0 <= 32
  /\ value_of (get_lisp_addr_and_mask_from_char (D := linux_defs)
                 (dotted_quad_pton (D := linux_defs)) (text "10.0.0.0/0")
                 (no_address (D := linux_defs)) 0)
     = Some (@BAD linux_defs, ipv4 (D := linux_defs) 10 0 0 0, 0).
Proof. repeat split; vm_compute; reflexivity || discriminate. Qed.

(** * The dispatcher: routing *)

Section Routing.

Context {D : lispd_defs} {OK : lispd_defs_ok D}.

Variable World : Type.
Variable get_packet_and_socket_inf :
  Z -> Z -> World -> (Z * list byte * lisp_addr_t * Z) * World.
Variable process_map_request_msg : list byte -> lisp_addr_t -> Z -> World -> Z * World.
Variable process_map_reply : list byte -> World -> Z * World.
Variable process_map_notify : list byte -> World -> Z * World.
Variable process_map_referral : list byte -> World -> Z * World.
Variable process_info_nat_msg : list byte -> lisp_addr_t -> World -> Z * World.

Lemma type_labels_distinct :
  LISP_MAP_REQUEST <> LISP_MAP_REPLY /\ LISP_MAP_REQUEST <> LISP_MAP_REGISTER
  /\ LISP_MAP_REQUEST <> LISP_MAP_NOTIFY /\ LISP_MAP_REQUEST <> LISP_MAP_REFERRAL
  /\ LISP_MAP_REQUEST <> LISP_INFO_NAT /\ LISP_MAP_REQUEST <> LISP_ENCAP_CONTROL_TYPE
  /\ LISP_MAP_REPLY <> LISP_MAP_REGISTER /\ LISP_MAP_REPLY <> LISP_MAP_NOTIFY
  /\ LISP_MAP_REPLY <> LISP_MAP_REFERRAL /\ LISP_MAP_REPLY <> LISP_INFO_NAT
  /\ LISP_MAP_REPLY <> LISP_ENCAP_CONTROL_TYPE
  /\ LISP_MAP_REGISTER <> LISP_MAP_NOTIFY /\ LISP_MAP_REGISTER <> LISP_MAP_REFERRAL
  /\ LISP_MAP_REGISTER <> LISP_INFO_NAT /\ LISP_MAP_REGISTER <> LISP_ENCAP_CONTROL_TYPE
  /\ LISP_MAP_NOTIFY <> LISP_MAP_REFERRAL /\ LISP_MAP_NOTIFY <> LISP_INFO_NAT
  /\ LISP_MAP_NOTIFY <> LISP_ENCAP_CONTROL_TYPE
  /\ LISP_MAP_REFERRAL <> LISP_INFO_NAT /\ LISP_MAP_REFERRAL <> LISP_ENCAP_CONTROL_TYPE
  /\ LISP_INFO_NAT <> LISP_ENCAP_CONTROL_TYPE.
Proof.
  pose proof type_labels as Ht.
  repeat (apply NoDup_cons_iff in Ht; destruct Ht as [? Ht]).
  cbn [In] in *. intuition congruence.
Qed.

(** X1: When the socket layer does not deliver a message, the dispatcher
    returns BAD at once: nothing is logged and no handler runs. *)
Theorem process_lisp_ctr_msg_receive_failure (sock family : Z) (w w1 : World)
    (r : Z) (packet : list byte) (local_rloc : lisp_addr_t) (remote_port : Z) :
  get_packet_and_socket_inf sock family w
  = ((r, packet, local_rloc, remote_port), w1) ->
  r <> GOOD ->
  process_lisp_ctr_msg World get_packet_and_socket_inf process_map_request_msg
    process_map_reply process_map_notify process_map_referral process_info_nat_msg
    sock family w
  = (BAD, [], w1).
Proof.
  intros Hrecv Hr. unfold process_lisp_ctr_msg, pbind. rewrite Hrecv.
  destruct (Z.eqb_spec r GOOD); [contradiction | reflexivity].
Qed.

(** X2: A Map-Request and an Encapsulated Control Message are both handed to
    the Map-Request handler, once, with the message, the local RLOC and
    the remote port; the dispatcher returns GOOD when the handler does
    and BAD otherwise, and in the second case it does not log the end of
    the processing. *)
Theorem process_lisp_ctr_msg_map_request (sock family : Z) (w w1 w2 : World)
    (packet : list byte) (local_rloc : lisp_addr_t) (remote_port r : Z) :
  get_packet_and_socket_inf sock family w
  = ((GOOD, packet, local_rloc, remote_port), w1) ->
  process_map_request_msg packet local_rloc remote_port w1 = (r, w2) ->
  msg_type packet = LISP_MAP_REQUEST \/ msg_type packet = LISP_ENCAP_CONTROL_TYPE ->
  exists es : list event,
    process_lisp_ctr_msg World get_packet_and_socket_inf process_map_request_msg
      process_map_reply process_map_notify process_map_referral process_info_nat_msg
      sock family w
    = (if r =? GOOD then GOOD else BAD, es, w2)
    /\ filter is_handler_call es
       = [call_process_map_request_msg packet local_rloc remote_port]
    /\ (In (lispd_log_msg LISP_LOG_DEBUG_2
              "Completed processing of LISP control message" []) es
        <-> r = GOOD).
Proof.
  intros Hrecv Hh Htype. pose proof type_labels_distinct as Hd.
  unfold process_lisp_ctr_msg, pbind, pcall. rewrite Hrecv, Z.eqb_refl. cbn [negb].
  destruct Htype as [Ht | Ht]; rewrite Ht;
    case_eqb; try (exfalso; intuition congruence);
    cbn [plog]; rewrite Hh;
    (destruct (Z.eqb_spec r GOOD) as [Hr | Hr]; try contradiction;
     cbn [negb pret plog app];
     eexists; (split; [reflexivity |]); (split; [reflexivity |]);
     split; intros H;
     [ first [ exact Hr | cbn [In] in H; intuition discriminate ]
     | first [ contradiction | cbn [In]; auto 10 ] ]).
Qed.

(** X3: A Map-Reply, a Map-Notify, a Map-Referral and an Info-Request or
    Info-Reply are each handed to their own handler, once, with the
    message (and the local RLOC for the last); the dispatcher returns
    GOOD when the handler does and BAD otherwise. *)
Theorem process_lisp_ctr_msg_routes (sock family : Z) (w w1 : World)
    (packet : list byte) (local_rloc : lisp_addr_t) (remote_port : Z) :
  get_packet_and_socket_inf sock family w
  = ((GOOD, packet, local_rloc, remote_port), w1) ->
  forall (call : event) (handler : World -> Z * World),
    (msg_type packet = LISP_MAP_REPLY /\ call = call_process_map_reply packet
     /\ handler = process_map_reply packet)
    \/ (msg_type packet = LISP_MAP_NOTIFY /\ call = call_process_map_notify packet
        /\ handler = process_map_notify packet)
    \/ (msg_type packet = LISP_MAP_REFERRAL /\ call = call_process_map_referral packet
        /\ handler = process_map_referral packet)
    \/ (msg_type packet = LISP_INFO_NAT
        /\ call = call_process_info_nat_msg packet local_rloc
        /\ handler = process_info_nat_msg packet local_rloc) ->
    exists es : list event,
      process_lisp_ctr_msg World get_packet_and_socket_inf process_map_request_msg
        process_map_reply process_map_notify process_map_referral process_info_nat_msg
        sock family w
      = (if fst (handler w1) =? GOOD then GOOD else BAD, es, snd (handler w1))
      /\ filter is_handler_call es = [call].
Proof.
  intros Hrecv call handler Hcase. pose proof type_labels_distinct as Hd.
  unfold process_lisp_ctr_msg, pbind, pcall. rewrite Hrecv, Z.eqb_refl. cbn [negb].
  destruct Hcase as [(Ht & -> & ->) | [(Ht & -> & ->) | [(Ht & -> & ->) | (Ht & -> & ->)]]];
    rewrite Ht; case_eqb; try (exfalso; intuition congruence); cbn [plog];
    match goal with
    | |- context [let '(_, _) := ?h w1 in _] => destruct (h w1) as [r w2]
    end;
    cbn [fst snd] in *;
    (destruct (Z.eqb_spec r GOOD) as [Hr | Hr]; try contradiction;
     cbn [negb pret plog app];
     eexists; (split; [reflexivity |]); reflexivity).
Qed.

End Routing.

(** * The order of addresses *)

Lemma memcmp_swap (l1 l2 : list byte) : memcmp l2 l1 = - memcmp l1 l2.
Proof.
  revert l2; induction l1 as [| x l1 IH]; intros [| y l2]; cbn; try reflexivity.
  rewrite (Z.eqb_sym (byte.unsigned y)).
  destruct (byte.unsigned x =? byte.unsigned y); [apply IH | lia].
Qed.

Lemma be_value_app (l : list byte) (acc : Z) :
  fold_left (fun a b => a * 256 + byte.unsigned b) l acc
  = acc * 256 ^ Z.of_nat (List.length l) + be_value l.
Proof.
  unfold be_value. revert acc.
  induction l as [| x l IH]; intros acc; cbn [fold_left List.length].
  - cbn. lia.
  - rewrite IH, (IH (0 * 256 + byte.unsigned x)).
    rewrite Nat2Z.inj_succ, Z.pow_succ_r by lia. lia.
Qed.

Lemma be_value_cons (x : byte) (l : list byte) :
  be_value (x :: l) = byte.unsigned x * 256 ^ Z.of_nat (List.length l) + be_value l.
Proof.
  unfold be_value at 1. cbn [fold_left]. rewrite be_value_app. lia.
Qed.

Lemma be_value_range (l : list byte) :
  0 <= be_value l < 256 ^ Z.of_nat (List.length l).
Proof.
  induction l as [| x l IH]; [cbn; lia |].
  rewrite be_value_cons. cbn [List.length].
  rewrite Nat2Z.inj_succ, Z.pow_succ_r by lia.
  pose proof (byte.unsigned_range x) as Hx. change (2 ^ 8) with 256 in Hx.
  nia.
Qed.

(** [memcmp] orders two blocks of one length as the numbers they spell. *)
Lemma memcmp_be_value (l1 l2 : list byte) :
  List.length l1 = List.length l2 ->
  (memcmp l1 l2 ?= 0) = (be_value l1 ?= be_value l2).
Proof.
  revert l2; induction l1 as [| x l1 IH]; intros [| y l2] Hlen;
    cbn in Hlen; try discriminate; [reflexivity |].
  injection Hlen as Hlen. cbn [memcmp]. rewrite !be_value_cons, Hlen.
  pose proof (be_value_range l1) as H1. pose proof (be_value_range l2) as H2.
  rewrite Hlen in H1.
  set (p := 256 ^ Z.of_nat (List.length l2)) in *.
  destruct (Z.eqb_spec (byte.unsigned x) (byte.unsigned y)) as [Hxy | Hxy].
  - rewrite Hxy, (IH l2 Hlen).
    destruct (Z.compare_spec (be_value l1) (be_value l2)); symmetry;
      [apply Z.compare_eq_iff | apply Z.compare_lt_iff | apply Z.compare_gt_iff]; lia.
  - destruct (Z.compare_spec (byte.unsigned x - byte.unsigned y) 0); symmetry;
      [lia | apply Z.compare_lt_iff | apply Z.compare_gt_iff]; nia.
Qed.

Section Ordering.

Context {D : lispd_defs} {OK : lispd_defs_ok D}.

Lemma length_payload (a : lisp_addr_t) :
  List.length (payload a) = if afi a =? AF_INET then 4%nat else 16%nat.
Proof.
  unfold payload. destruct (afi a =? AF_INET).
  - apply length_bytes_of_mem32.
  - apply length_bytes_of_union.
Qed.

(** On two addresses of one family, V4 or V6, the comparison is the
    three-way test of [memcmp] on their payloads. *)
Lemma compare_lisp_addr_t_memcmp (x y : lisp_addr_t) :
  afi x = afi y -> afi x = AF_INET \/ afi x = AF_INET6 ->
  compare_lisp_addr_t (Some x) (Some y)
  = match memcmp (payload x) (payload y) ?= 0 with
    | Eq => 0
    | Gt => 1
    | Lt => 2
    end.
Proof.
  pose proof family_distinct as Hf.
  intros Hxy Hfam. unfold compare_lisp_addr_t, payload.
  rewrite <- Hxy, Z.eqb_refl. cbn [negb].
  assert (Hsign : forall c : Z,
             (if c =? 0 then 0 else if c >? 0 then 1 else 2)
             = match c ?= 0 with Eq => 0 | Gt => 1 | Lt => 2 end).
  { intros c. unfold Z.gtb. destruct (Z.eqb_spec c 0) as [-> | Hc]; [reflexivity |].
    destruct (Z.compare_spec c 0); [contradiction | reflexivity | reflexivity]. }
  destruct Hfam as [Hx | Hx]; rewrite Hx.
  - rewrite Z.eqb_refl. apply Hsign.
  - destruct (Z.eqb_spec AF_INET6 AF_INET); [intuition congruence |].
    rewrite Z.eqb_refl. apply Hsign.
Qed.

Lemma compare_equal_payload (x y : lisp_addr_t) :
  afi x = afi y -> afi x = AF_INET \/ afi x = AF_INET6 -> payload x = payload y ->
  compare_lisp_addr_t (Some x) (Some y) = 0.
Proof.
  intros Hxy Hfam Hp.
  rewrite (compare_lisp_addr_t_memcmp x y Hxy Hfam), Hp, memcmp_refl. reflexivity.
Qed.

(** X4: Two addresses compare as Equal exactly when they have one family, V4
    or V6, and the bytes of the address of that family agree: the first
    four for V4, all sixteen for V6. *)
Theorem compare_lisp_addr_t_equal_iff (x y : lisp_addr_t) :
  compare_lisp_addr_t (Some x) (Some y) = 0
  <-> afi x = afi y /\ (afi x = AF_INET \/ afi x = AF_INET6)
      /\ payload x = payload y.
Proof.
  split.
  - intros Hc.
    assert (Hxy : afi x = afi y).
    { unfold compare_lisp_addr_t in Hc.
      destruct (Z.eqb_spec (afi x) (afi y)); [assumption | discriminate]. }
    assert (Hfam : afi x = AF_INET \/ afi x = AF_INET6).
    { unfold compare_lisp_addr_t in Hc. rewrite Hxy, Z.eqb_refl in Hc. cbn [negb] in Hc.
      rewrite <- Hxy in Hc.
      destruct (Z.eqb_spec (afi x) AF_INET); [auto |].
      destruct (Z.eqb_spec (afi x) AF_INET6); [auto | discriminate]. }
    repeat split; try assumption.
    rewrite (compare_lisp_addr_t_memcmp x y Hxy Hfam) in Hc.
    apply memcmp_eq.
    + rewrite !length_payload, Hxy. reflexivity.
    + destruct (Z.compare_spec (memcmp (payload x) (payload y)) 0);
        [assumption | discriminate | discriminate].
  - intros (Hxy & Hfam & Hp). apply compare_equal_payload; assumption.
Qed.

(** X5: Exchanging the two arguments exchanges Greater and Less and keeps
    Equal and DifferentFamily. *)
Theorem compare_lisp_addr_t_swap (addr1 addr2 : option lisp_addr_t) :
  compare_lisp_addr_t addr2 addr1
  = (let c := compare_lisp_addr_t addr1 addr2 in
     if c =? 1 then 2 else if c =? 2 then 1 else c).
Proof.
  destruct addr1 as [x |], addr2 as [y |]; try reflexivity.
  unfold compare_lisp_addr_t. rewrite (Z.eqb_sym (afi y)).
  destruct (Z.eqb_spec (afi x) (afi y)) as [Hxy | Hxy]; [| reflexivity].
  cbn [negb]. rewrite <- Hxy.
  rewrite (memcmp_swap (bytes_of_mem32 (word0 (address x)))),
    (memcmp_swap (bytes_of_union (address x))).
  destruct (afi x =? AF_INET); [| destruct (afi x =? AF_INET6); [| reflexivity]];
    cbv zeta;
    match goal with
    | |- context [memcmp ?a ?b] => generalize (memcmp a b)
    end;
    intros c; unfold Z.gtb;
    destruct (Z.eqb_spec c 0) as [-> | Hc]; try reflexivity;
    destruct (Z.eqb_spec (- c) 0); try lia;
    destruct (Z.compare_spec c 0), (Z.compare_spec (- c) 0); try lia; reflexivity.
Qed.

(** X6: On two addresses of one family, V4 or V6, the outcome is the order of
    the two addresses read as numbers in network byte order: Equal,
    Greater or Less as the first number is equal to, above or below the
    second. *)
Theorem compare_lisp_addr_t_numeric (x y : lisp_addr_t) :
  afi x = afi y -> afi x = AF_INET \/ afi x = AF_INET6 ->
  compare_lisp_addr_t (Some x) (Some y)
  = match be_value (payload x) ?= be_value (payload y) with
    | Eq => 0
    | Gt => 1
    | Lt => 2
    end.
Proof.
  intros Hxy Hfam. rewrite (compare_lisp_addr_t_memcmp x y Hxy Hfam).
  rewrite memcmp_be_value; [reflexivity |].
  rewrite !length_payload, Hxy. reflexivity.
Qed.

End Ordering.

(** * Copies of addresses *)

Lemma union_of_bytes_of_union (u v : addr_union) :
  union_of_bytes (firstn 16 (bytes_of_union u) ++ skipn 16 (bytes_of_union v)) = u.
Proof.
  destruct u as [[[[? ?] ?] ?] [[[? ?] ?] ?] [[[? ?] ?] ?] [[[? ?] ?] ?]],
           v as [[[[? ?] ?] ?] [[[? ?] ?] ?] [[[? ?] ?] ?] [[[? ?] ?] ?]].
  reflexivity.
Qed.

Lemma firstn_bytes_of_union (u : addr_union) :
  firstn 16 (bytes_of_union u) = bytes_of_union u.
Proof. apply firstn_all2. rewrite length_bytes_of_union. lia. Qed.

Section Copies.

Context {D : lispd_defs}.

(** A 32-bit value read from memory and written back leaves the bytes as
    they were, on either byte order. *)
Lemma store32_load32 (w : mem32) : store32 (load32 w) = w.
Proof.
  unfold store32, load32. destruct host_byte_order.
  - destruct w as [[[b0 b1] b2] b3]. unfold le_encode, le_decode.
    rewrite be_encode_decode. reflexivity.
  - apply be_encode_decode.
Qed.

(** What [htonl] does to the bytes in memory of a 32-bit value: it
    reverses them on a little-endian host and keeps them on a big-endian
    one. *)
Lemma store32_htonl_load32 (w : mem32) :
  store32 (htonl (load32 w))
  = match host_byte_order with
    | LittleEndian => let '(b0, b1, b2, b3) := w in (b3, b2, b1, b0)
    | BigEndian => w
    end.
Proof.
  rewrite store32_htonl. unfold load32. destruct host_byte_order.
  - destruct w as [[[b0 b1] b2] b3]. unfold le_decode. apply be_encode_decode.
  - apply be_encode_decode.
Qed.

Lemma copy_lisp_addr_V6_eq (dest orig : lisp_addr_t) :
  copy_lisp_addr_V6 dest orig = orig.
Proof.
  unfold copy_lisp_addr_V6. rewrite union_of_bytes_of_union.
  destruct orig; reflexivity.
Qed.

End Copies.

Section CopyProperties.

Context {D : lispd_defs} {OK : lispd_defs_ok D}.

Lemma copy_lisp_addr_V4_eq (dest orig : lisp_addr_t) :
  afi orig = AF_INET ->
  copy_lisp_addr dest orig
  = {| address := set_ip (address dest) (word0 (address orig)); afi := AF_INET |}.
Proof.
  intros H. unfold copy_lisp_addr, copy_lisp_addr_V4.
  rewrite H, Z.eqb_refl, store32_load32. reflexivity.
Qed.

Lemma copy_lisp_addr_V6_whole (dest orig : lisp_addr_t) :
  afi orig = AF_INET6 -> copy_lisp_addr dest orig = orig.
Proof.
  pose proof family_distinct as Hf.
  intros H. unfold copy_lisp_addr. rewrite H.
  destruct (Z.eqb_spec AF_INET6 AF_INET); [intuition congruence |].
  rewrite Z.eqb_refl. apply copy_lisp_addr_V6_eq.
Qed.

Lemma copy_lisp_addr_other (dest orig : lisp_addr_t) :
  afi orig <> AF_INET -> afi orig <> AF_INET6 ->
  copy_lisp_addr dest orig = {| address := address dest; afi := AF_UNSPEC |}.
Proof.
  intros Hn4 Hn6. unfold copy_lisp_addr.
  destruct (Z.eqb_spec (afi orig) AF_INET); [contradiction |].
  destruct (Z.eqb_spec (afi orig) AF_INET6); [contradiction | reflexivity].
Qed.

Lemma copy_lisp_addr_equal (dest orig : lisp_addr_t) :
  afi orig = AF_INET \/ afi orig = AF_INET6 ->
  afi (copy_lisp_addr dest orig) = afi orig
  /\ compare_lisp_addr_t (Some (copy_lisp_addr dest orig)) (Some orig) = 0.
Proof.
  intros [H | H].
  - rewrite (copy_lisp_addr_V4_eq dest orig H). split; [symmetry; exact H |].
    apply compare_equal_payload; cbn [afi]; auto.
    unfold payload. cbn [afi address set_ip word0].
    rewrite H, Z.eqb_refl. reflexivity.
  - rewrite (copy_lisp_addr_V6_whole dest orig H). split; [reflexivity |].
    apply compare_equal_payload; auto.
Qed.

(** X7: [copy_lisp_addr] of a V4 address writes the family and the first four
    bytes and leaves the other twelve bytes of the destination as they
    were; of a V6 address it makes the destination the very address; of
    an address of any other family it sets the family of the destination
    to Unspecified and leaves its bytes.  After a copy of a V4 or V6
    address the destination compares as Equal to the original. *)
Theorem copy_lisp_addr_spec (dest orig : lisp_addr_t) :
  (afi orig = AF_INET ->
   copy_lisp_addr dest orig
   = {| address := set_ip (address dest) (word0 (address orig)); afi := AF_INET |})
  /\ (afi orig = AF_INET6 -> copy_lisp_addr dest orig = orig)
  /\ (afi orig <> AF_INET -> afi orig <> AF_INET6 ->
      copy_lisp_addr dest orig = {| address := address dest; afi := AF_UNSPEC |})
  /\ (afi orig = AF_INET \/ afi orig = AF_INET6 ->
      compare_lisp_addr_t (Some (copy_lisp_addr dest orig)) (Some orig) = 0).
Proof.
  repeat split.
  - apply copy_lisp_addr_V4_eq.
  - apply copy_lisp_addr_V6_whole.
  - apply copy_lisp_addr_other.
  - intros H. apply copy_lisp_addr_equal, H.
Qed.

(** X8: [clone_lisp_addr] returns a new address exactly when the allocation
    succeeds and the family of the original is V4 or V6; the clone then
    has the family of the original and compares as Equal to it.  An
    address of any other family is never cloned. *)
Theorem clone_lisp_addr_spec (malloc : option lisp_addr_t) (addr : lisp_addr_t) :
  (forall c : lisp_addr_t,
      value_of (clone_lisp_addr malloc addr) = Some (Some c) ->
      malloc <> None /\ (afi addr = AF_INET \/ afi addr = AF_INET6)
      /\ afi c = afi addr
      /\ compare_lisp_addr_t (Some c) (Some addr) = 0)
  /\ (malloc <> None -> afi addr = AF_INET \/ afi addr = AF_INET6 ->
      exists c : lisp_addr_t, clone_lisp_addr malloc addr = Some (Some c, []))
  /\ (afi addr <> AF_INET -> afi addr <> AF_INET6 ->
      value_of (clone_lisp_addr malloc addr) = Some None).
Proof.
  pose proof family_distinct as Hf.
  assert (Hcases : afi addr = AF_INET \/ afi addr = AF_INET6
                   \/ (afi addr <> AF_INET /\ afi addr <> AF_INET6)) by lia.
  split; [| split].
  - intros c Hc. destruct malloc as [new_addr |]; [| discriminate Hc].
    cbn [clone_lisp_addr] in Hc.
    destruct Hcases as [H | [H | [H4 H6]]].
    + destruct (copy_lisp_addr_equal new_addr addr (or_introl H)) as [Hfam Heq].
      rewrite Hfam, H in Hc.
      destruct (Z.eqb_spec AF_INET AF_UNSPEC); [intuition congruence |].
      injection Hc as <-. repeat split; auto; discriminate.
    + destruct (copy_lisp_addr_equal new_addr addr (or_intror H)) as [Hfam Heq].
      rewrite Hfam, H in Hc.
      destruct (Z.eqb_spec AF_INET6 AF_UNSPEC); [intuition congruence |].
      injection Hc as <-. repeat split; auto; discriminate.
    + rewrite (copy_lisp_addr_other new_addr addr H4 H6) in Hc. cbn [afi] in Hc.
      rewrite Z.eqb_refl in Hc. discriminate Hc.
  - intros Hm Hf'. destruct malloc as [new_addr |]; [| contradiction].
    cbn [clone_lisp_addr].
    destruct (copy_lisp_addr_equal new_addr addr Hf') as [Hfam _]. rewrite Hfam.
    destruct (Z.eqb_spec (afi addr) AF_UNSPEC) as [He | He];
      [destruct Hf'; intuition congruence |].
    eexists. reflexivity.
  - intros H4 H6. destruct malloc as [new_addr |]; [| reflexivity].
    cbn [clone_lisp_addr]. rewrite (copy_lisp_addr_other new_addr addr H4 H6).
    cbn [afi]. rewrite Z.eqb_refl. reflexivity.
Qed.

End CopyProperties.

(** * Addresses written to memory and read back *)

Section Serialisation.

Context {D : lispd_defs} {OK : lispd_defs_ok D}.

Lemma write_bytes_ok (dest src : list byte) :
  (List.length src <= List.length dest)%nat ->
  write_bytes dest src = ret (src ++ skipn (List.length src) dest).
Proof.
  intros H. unfold write_bytes.
  destruct (Nat.leb_spec (List.length src) (List.length dest)); [reflexivity | lia].
Qed.

(** What [copy_addr] without conversion and [memcopy_lisp_addr] write for
    a V4 or V6 address. *)
Lemma copy_addr_plain (dest : list byte) (a : lisp_addr_t) :
  afi a = AF_INET \/ afi a = AF_INET6 ->
  (List.length (payload a) <= List.length dest)%nat ->
  copy_addr dest a 0
  = ret (Z.of_nat (List.length (payload a)),
         payload a ++ skipn (List.length (payload a)) dest)
  /\ memcopy_lisp_addr dest a
     = ret (payload a ++ skipn (List.length (payload a)) dest).
Proof.
  pose proof family_distinct as Hf.
  intros Hfam Hlen. unfold copy_addr, memcopy_lisp_addr, memcopy_lisp_addr_V4,
    memcopy_lisp_addr_V6, payload in *.
  destruct Hfam as [H | H]; rewrite H in *.
  - rewrite Z.eqb_refl in *. cbn [Z.eqb negb]. rewrite store32_load32.
    rewrite write_bytes_ok by exact Hlen. rewrite bind_ret_l.
    rewrite length_bytes_of_mem32. split; reflexivity.
  - destruct (Z.eqb_spec AF_INET6 AF_INET); [intuition congruence |].
    rewrite Z.eqb_refl, firstn_bytes_of_union.
    rewrite write_bytes_ok by exact Hlen. rewrite bind_ret_l.
    rewrite length_bytes_of_union. split; reflexivity.
Qed.

(** X9: [copy_addr] without conversion and [memcopy_lisp_addr] write the same
    bytes, those of the address of the family (four for V4, sixteen for
    V6), at the start of the destination and leave what follows;
    [copy_addr] returns their number, which is the length that
    [get_addr_len] gives for the family.  For a family that is neither,
    [copy_addr] returns [ERR_AFI] and both leave the destination as it
    was. *)
Theorem copy_addr_writes_payload (dest : list byte) (a : lisp_addr_t) :
  (afi a = AF_INET \/ afi a = AF_INET6 ->
   (List.length (payload a) <= List.length dest)%nat ->
   copy_addr dest a 0
   = Some ((Z.of_nat (List.length (payload a)),
            payload a ++ skipn (List.length (payload a)) dest), [])
   /\ memcopy_lisp_addr dest a
      = Some (payload a ++ skipn (List.length (payload a)) dest, [])
   /\ get_addr_len (afi a) = Some (Z.of_nat (List.length (payload a)), []))
  /\ (afi a <> AF_INET -> afi a <> AF_INET6 ->
      forall convert : Z,
        value_of (copy_addr dest a convert) = Some (ERR_AFI, dest)
        /\ memcopy_lisp_addr dest a = Some (dest, [])).
Proof.
  pose proof family_distinct as Hf.
  split.
  - intros Hfam Hlen. destruct (copy_addr_plain dest a Hfam Hlen) as [Hc Hm].
    repeat split; try assumption.
    unfold get_addr_len. rewrite length_payload.
    destruct Hfam as [H | H]; rewrite H; case_eqb;
      try (exfalso; intuition congruence); reflexivity.
  - intros H4 H6 convert. unfold copy_addr, memcopy_lisp_addr.
    destruct (Z.eqb_spec (afi a) AF_INET); [contradiction |].
    destruct (Z.eqb_spec (afi a) AF_INET6); [contradiction |].
    split; reflexivity.
Qed.

(** X10: With conversion, [copy_addr] of a V4 address writes the four bytes
    reversed on a little-endian host and unchanged on a big-endian one,
    so that converting the result once more gives the bytes back; a V6
    address is written without any conversion. *)
Theorem copy_addr_convert (dest : list byte) (a : lisp_addr_t) (convert : Z) :
  convert <> 0 ->
  (afi a = AF_INET -> (4 <= List.length dest)%nat ->
   forall b0 b1 b2 b3 : byte,
     word0 (address a) = (b0, b1, b2, b3) ->
     let w := match host_byte_order with
              | LittleEndian => (b3, b2, b1, b0)
              | BigEndian => (b0, b1, b2, b3)
              end in
     copy_addr dest a convert = Some ((4, bytes_of_mem32 w ++ skipn 4 dest), [])
     /\ copy_addr dest {| address := set_ip (address a) w; afi := AF_INET |} convert
        = Some ((4, [b0; b1; b2; b3] ++ skipn 4 dest), []))
  /\ (afi a = AF_INET6 -> copy_addr dest a convert = copy_addr dest a 0).
Proof.
  pose proof family_distinct as Hf.
  intros Hc. split.
  - intros H Hlen b0 b1 b2 b3 Hw w.
    assert (Hne : (convert =? 0) = false) by (apply Z.eqb_neq; exact Hc).
    unfold copy_addr. cbn [afi address set_ip word0].
    rewrite H, Z.eqb_refl, Hne. cbn [negb].
    rewrite !store32_htonl_load32, Hw. subst w.
    destruct host_byte_order;
      (rewrite !write_bytes_ok by (cbn; exact Hlen));
      rewrite !bind_ret_l; split; reflexivity.
  - intros H. unfold copy_addr. rewrite H.
    destruct (Z.eqb_spec AF_INET6 AF_INET); [intuition congruence | reflexivity].
Qed.

(** X11: The way of an address over the wire: when a V4 or V6 address is
    written with the AFI tag of [get_lisp_afi], most significant byte
    first, followed by the bytes that [copy_addr] writes without
    conversion, [extract_lisp_address] reads back an address of the same
    family that compares as Equal to the one written. *)
Theorem wire_round_trip (a dest : lisp_addr_t) (buf : list byte) (t0 t1 : byte)
    (tag n : Z) (buf' : list byte) :
  afi a = AF_INET \/ afi a = AF_INET6 ->
  value_of (get_lisp_afi (afi a) None) = Some (tag, None) ->
  byte.unsigned t0 * 2 ^ 8 + byte.unsigned t1 = tag ->
  copy_addr buf a 0 = Some ((n, buf'), []) ->
  exists a' : lisp_addr_t,
    extract_lisp_address (t0 :: t1 :: buf') dest = Some ((GOOD, a'), [])
    /\ afi a' = afi a
    /\ compare_lisp_addr_t (Some a') (Some a) = 0.
Proof.
  pose proof family_distinct as Hf.
  intros Hfam Htag Hbytes Hcopy.
  assert (Hlen : (List.length (payload a) <= List.length buf)%nat).
  { unfold copy_addr, payload, write_bytes in *.
    destruct Hfam as [H | H]; rewrite H in *.
    - rewrite Z.eqb_refl in *. cbn [Z.eqb negb] in Hcopy.
      rewrite length_bytes_of_mem32 in *.
      destruct (Nat.leb_spec 4 (List.length buf)); [assumption | discriminate].
    - destruct (Z.eqb_spec AF_INET6 AF_INET); [intuition congruence |].
      rewrite Z.eqb_refl, firstn_bytes_of_union, length_bytes_of_union in *.
      destruct (Nat.leb_spec 16 (List.length buf)); [assumption | discriminate]. }
  destruct (copy_addr_plain buf a Hfam Hlen) as [Hc _].
  rewrite Hc in Hcopy. injection Hcopy as _ <-.
  rewrite extract_tag, Hbytes. clear Hc Hbytes.
  destruct Hfam as [H | H].
  - assert (Ht : tag = LISP_AFI_IP).
    { unfold get_lisp_afi in Htag. rewrite H, Z.eqb_refl in Htag.
      cbn in Htag. injection Htag as <-. reflexivity. }
    assert (Hp : payload a = bytes_of_mem32 (word0 (address a))).
    { unfold payload. rewrite H, Z.eqb_refl. reflexivity. }
    rewrite Ht, Hp, length_bytes_of_mem32.
    change (lisp2inetafi LISP_AFI_IP) with (ret AF_INET). rewrite bind_ret_l.
    cbv zeta. cbn [afi address]. rewrite Z.eqb_refl. unfold memcpy_address.
    rewrite length_app, length_bytes_of_mem32.
    destruct (Nat.leb_spec 4 (4 + List.length (skipn 4 buf))); [| lia].
    rewrite bind_ret_l. eexists. split; [reflexivity |]. cbn [afi].
    split; [symmetry; exact H |].
    apply compare_equal_payload; cbn [afi]; auto.
    rewrite Hp. unfold payload. cbn [afi address]. rewrite Z.eqb_refl.
    destruct (word0 (address a)) as [[[b0 b1] b2] b3]. reflexivity.
  - assert (Hne : (AF_INET6 =? AF_INET) = false)
      by (apply Z.eqb_neq; intuition congruence).
    assert (Ht : tag = LISP_AFI_IPV6).
    { unfold get_lisp_afi in Htag. rewrite H, Hne, Z.eqb_refl in Htag.
      cbn in Htag. injection Htag as <-. reflexivity. }
    assert (Hp : payload a = bytes_of_union (address a)).
    { unfold payload. rewrite H, Hne. reflexivity. }
    rewrite Ht, Hp, length_bytes_of_union.
    change (lisp2inetafi LISP_AFI_IPV6) with (ret AF_INET6). rewrite bind_ret_l.
    cbv zeta. cbn [afi address]. rewrite Hne, Z.eqb_refl. unfold memcpy_address.
    rewrite length_app, length_bytes_of_union.
    destruct (Nat.leb_spec 16 (16 + List.length (skipn 16 buf))); [| lia].
    rewrite bind_ret_l. eexists. split; [reflexivity |]. cbn [afi].
    split; [symmetry; exact H |].
    apply compare_equal_payload; cbn [afi]; auto.
    rewrite Hp. unfold payload. cbn [afi address]. rewrite Hne. f_equal.
    destruct (address a) as [[[[? ?] ?] ?] [[[? ?] ?] ?] [[[? ?] ?] ?] [[[? ?] ?] ?]],
             (address dest) as [[[[? ?] ?] ?] [[[? ?] ?] ?] [[[? ?] ?] ?] [[[? ?] ?] ?]].
    reflexivity.
Qed.

End Serialisation.

(** * Prefix arithmetic: the algebra of masks *)

Lemma be_decode_range (w : mem32) : 0 <= be_decode w < 2 ^ 32.
Proof.
  destruct w as [[[b0 b1] b2] b3]. unfold be_decode.
  pose proof (byte.unsigned_range b0). pose proof (byte.unsigned_range b1).
  pose proof (byte.unsigned_range b2). pose proof (byte.unsigned_range b3).
  change (2 ^ 8) with 256 in *. change (2 ^ 16) with 65536.
  change (2 ^ 24) with 16777216. change (2 ^ 32) with 4294967296. lia.
Qed.

Lemma be_decode_encode (v : Z) : be_decode (be_encode v) = v mod 2 ^ 32.
Proof.
  unfold be_decode, be_encode. rewrite !byte.unsigned_of_Z. unfold byte.wrap.
  change (2 ^ 8) with 256. change (2 ^ 16) with 65536.
  change (2 ^ 24) with 16777216. change (2 ^ 32) with 4294967296.
  Z.div_mod_to_equations. lia.
Qed.

Lemma testbit_above_32 (x k : Z) :
  0 <= x < 2 ^ 32 -> 32 <= k -> Z.testbit x k = false.
Proof.
  intros Hx Hk. destruct (Z.eq_dec x 0) as [-> | Hne]; [apply Z.bits_0 |].
  apply Z.bits_above_log2; [lia |].
  apply Z.lt_le_trans with 32; [| exact Hk].
  apply Z.log2_lt_pow2; lia.
Qed.

Lemma land_mod_32 (x m : Z) :
  0 <= x < 2 ^ 32 -> (Z.land x m) mod 2 ^ 32 = Z.land x m.
Proof.
  intros Hx. rewrite <- Z.land_ones by lia.
  rewrite <- Z.land_assoc, (Z.land_comm m), Z.land_assoc.
  rewrite (Z.land_ones x) by lia. rewrite (Z.mod_small x) by exact Hx. reflexivity.
Qed.

(** Masking twice is masking with the AND of the two masks. *)
Lemma spec_mask_word_twice (w : mem32) (m1 m2 : Z) :
  spec_mask_word (spec_mask_word w m1) m2 = spec_mask_word w (Z.land m1 m2).
Proof.
  unfold spec_mask_word. rewrite be_decode_encode.
  rewrite land_mod_32 by apply be_decode_range.
  rewrite Z.land_assoc. reflexivity.
Qed.

Lemma spec_mask_word_all (w : mem32) : spec_mask_word w 0xFFFFFFFF = w.
Proof.
  unfold spec_mask_word. change 0xFFFFFFFF with (Z.ones 32).
  rewrite Z.land_ones by lia.
  rewrite Z.mod_small by apply be_decode_range. apply be_encode_decode.
Qed.

Lemma spec_mask_word_none (w : mem32) : spec_mask_word w 0 = zero32.
Proof. unfold spec_mask_word. rewrite Z.land_0_r. reflexivity. Qed.

Lemma spec_mask_word_zero32 (m : Z) : spec_mask_word zero32 m = zero32.
Proof. unfold spec_mask_word. change (be_decode zero32) with 0. reflexivity. Qed.

Lemma top_bits_mask_range (len : Z) :
  0 <= len <= 32 -> 0 <= top_bits_mask len < 2 ^ 32.
Proof.
  intros Hlen. rewrite top_bits_mask_value by exact Hlen.
  assert (0 < 2 ^ (32 - len) <= 2 ^ 32).
  { split; [apply Z.pow_pos_nonneg; lia | apply Z.pow_le_mono_r; lia]. }
  lia.
Qed.

(** The mask of a shorter prefix is kept by the mask of a longer one. *)
Lemma top_bits_mask_land (la lb : Z) :
  0 <= la <= lb -> lb <= 32 ->
  Z.land (top_bits_mask lb) (top_bits_mask la) = top_bits_mask la.
Proof.
  intros Hla Hlb. apply Z.bits_inj'. intros k Hk.
  rewrite Z.land_spec, !top_bits_mask_testbit by lia.
  destruct (Z.leb_spec (32 - lb) k), (Z.leb_spec (32 - la) k), (Z.ltb_spec k 32);
    cbn; try reflexivity; lia.
Qed.

Lemma spec_mask_v6_range (len i : Z) :
  0 <= len <= 128 -> 0 <= spec_mask_v6 len i < 2 ^ 32.
Proof.
  intros Hlen. unfold spec_mask_v6.
  pose proof (Z.mod_pos_bound len 32 ltac:(lia)) as Hb.
  destruct (i <? len / 32); [change (2 ^ 32) with 4294967296; lia |].
  destruct ((i =? len / 32) && negb (len mod 32 =? 0));
    [apply top_bits_mask_range; lia | change (2 ^ 32) with 4294967296; lia].
Qed.

Lemma spec_mask_v6_land (la lb i : Z) :
  0 <= la <= lb -> lb <= 128 -> 0 <= i < 4 ->
  Z.land (spec_mask_v6 lb i) (spec_mask_v6 la i) = spec_mask_v6 la i.
Proof.
  intros Hla Hlb Hi. apply Z.bits_inj'. intros k Hk.
  rewrite Z.land_spec.
  destruct (Z.ltb_spec k 32) as [Hlt | Hge].
  - rewrite !spec_mask_v6_testbit by lia.
    destruct (Z.ltb_spec (32 * i + (31 - k)) lb), (Z.ltb_spec (32 * i + (31 - k)) la);
      cbn; try reflexivity; lia.
  - rewrite (testbit_above_32 (spec_mask_v6 la i)) by (try apply spec_mask_v6_range; lia).
    apply andb_false_r.
Qed.

(** ANDing with the mask of a prefix clears the low bits: the number is
    rounded down to a multiple of [2 ^ (32 - len)]. *)
Lemma land_top_bits_mask (x len : Z) :
  0 <= x < 2 ^ 32 -> 0 <= len <= 32 ->
  Z.land x (top_bits_mask len) = x / 2 ^ (32 - len) * 2 ^ (32 - len).
Proof.
  intros Hx Hlen. apply Z.bits_inj'. intros k Hk.
  rewrite Z.land_spec, top_bits_mask_testbit by lia.
  destruct (Z.leb_spec (32 - len) k) as [Hle | Hgt].
  - rewrite Z.mul_pow2_bits by lia. rewrite Z.div_pow2_bits by lia.
    replace (k - (32 - len) + (32 - len)) with k by lia.
    destruct (Z.ltb_spec k 32); cbn [andb].
    + apply andb_true_r.
    + rewrite testbit_above_32 by lia. reflexivity.
  - rewrite Z.mul_pow2_bits_low by lia. apply andb_false_r.
Qed.

Section PrefixAlgebra.

Context {D : lispd_defs} {OK : lispd_defs_ok D}.

Lemma afi_spec_network_address (a : lisp_addr_t) (len : Z) :
  afi a = AF_INET \/ afi a = AF_INET6 -> afi (spec_network_address a len) = afi a.
Proof.
  pose proof family_distinct as Hf.
  intros [H | H]; unfold spec_network_address; rewrite H.
  - rewrite Z.eqb_refl. reflexivity.
  - destruct (Z.eqb_spec AF_INET6 AF_INET); [intuition congruence | reflexivity].
Qed.

Lemma valid_prefix_family (a : lisp_addr_t) (len : Z) :
  valid_prefix a len -> afi a = AF_INET \/ afi a = AF_INET6.
Proof. intros [[H _] | [H _]]; auto. Qed.

Lemma valid_prefix_shorter (a b : lisp_addr_t) (la lb : Z) :
  valid_prefix a lb -> afi b = afi a -> 0 <= la <= lb -> valid_prefix b la.
Proof.
  intros [[H Hl] | [H Hl]] Hb Hla; [left | right]; split; try congruence; lia.
Qed.

(** The network address of a network address, at a length that is not
    longer, is the network address at that length. *)
Lemma spec_network_address_twice (a : lisp_addr_t) (la lb : Z) :
  valid_prefix a lb -> 0 <= la <= lb ->
  spec_network_address (spec_network_address a lb) la = spec_network_address a la.
Proof.
  pose proof family_distinct as Hf.
  intros [[H Hl] | [H Hl]] Hla; unfold spec_network_address; rewrite H.
  - rewrite Z.eqb_refl. cbn [afi address]. rewrite Z.eqb_refl.
    unfold spec_network_address_v4. cbn [word0].
    rewrite spec_mask_word_twice, top_bits_mask_land by lia. reflexivity.
  - destruct (Z.eqb_spec AF_INET6 AF_INET); [intuition congruence |].
    cbn [afi address].
    destruct (Z.eqb_spec AF_INET6 AF_INET); [intuition congruence |].
    unfold spec_network_address_v6. cbn [word0 word1 word2 word3].
    rewrite !spec_mask_word_twice, !spec_mask_v6_land by lia. reflexivity.
Qed.

(** X12: Masking to a length and then to a shorter one is masking to the
    shorter one; in particular [get_network_address] applied twice at one
    length changes nothing more. *)
Theorem get_network_address_twice (a : lisp_addr_t) (la lb : Z) :
  valid_prefix a lb -> 0 <= la <= lb ->
  (n <- get_network_address a lb ;; get_network_address n la)
  = get_network_address a la.
Proof.
  intros Hv Hla.
  rewrite (get_network_address_spec OK a lb Hv), bind_ret_l.
  assert (Hva : valid_prefix a la) by (apply (valid_prefix_shorter a a la lb); auto).
  assert (Hvn : valid_prefix (spec_network_address a lb) la).
  { apply (valid_prefix_shorter a _ la lb); auto.
    apply afi_spec_network_address, (valid_prefix_family a lb Hv). }
  rewrite (get_network_address_spec OK _ la Hvn), (get_network_address_spec OK a la Hva).
  rewrite spec_network_address_twice by assumption. reflexivity.
Qed.

Lemma is_prefix_b_part_of_a_valid (a b : lisp_addr_t) (la lb : Z) :
  valid_prefix a la -> afi b = afi a -> la <= lb ->
  is_prefix_b_part_of_a a la b lb
  = Some (if compare_lisp_addr_t (Some (spec_network_address a la))
                                 (Some (spec_network_address b la)) =? 0
          then TRUE else FALSE, []).
Proof.
  intros Hv Hb Hle. unfold is_prefix_b_part_of_a.
  rewrite Hb, Z.eqb_refl. cbn [negb].
  destruct (Z.gtb_spec la lb); [lia |].
  assert (Hvb : valid_prefix b la).
  { destruct Hv as [[? ?] | [? ?]]; [left | right]; split; congruence. }
  rewrite (get_network_address_spec OK a la Hv).
  rewrite (get_network_address_spec OK b la Hvb).
  cbn [bind ret app]. destruct (_ =? 0); reflexivity.
Qed.

Lemma is_prefix_true_iff (a b : lisp_addr_t) (la lb : Z) :
  valid_prefix a la -> afi b = afi a -> la <= lb ->
  (is_prefix_b_part_of_a a la b lb = Some (TRUE, [])
   <-> spec_network_address b la = spec_network_address a la).
Proof.
  intros Hv Hb Hle. pose proof truth_values as [Htf _].
  rewrite (is_prefix_b_part_of_a_valid a b la lb Hv Hb Hle).
  rewrite <- (compare_network_addresses a b la Hv Hb).
  destruct (Z.eqb_spec (compare_lisp_addr_t (Some (spec_network_address a la))
                          (Some (spec_network_address b la))) 0) as [Hc | Hc].
  - tauto.
  - split; [intros H; congruence | contradiction].
Qed.

(** A true answer tells that the families agree and that the first
    prefix is not the longer one. *)
Lemma is_prefix_true_inv (a b : lisp_addr_t) (la lb : Z) (es : list event) :
  is_prefix_b_part_of_a a la b lb = Some (TRUE, es) -> afi b = afi a /\ la <= lb.
Proof.
  pose proof truth_values as [Htf _].
  unfold is_prefix_b_part_of_a.
  destruct (Z.eqb_spec (afi a) (afi b)) as [Hab | Hab]; cbn [negb];
    [| intros Hr; injection Hr as Hr _; congruence].
  destruct (Z.gtb_spec la lb); [intros Hr; injection Hr as Hr _; congruence |].
  intros _. split; [congruence | lia].
Qed.

(** X13: Containment is transitive: a prefix that is part of a prefix that is
    part of a third is part of the third. *)
Theorem is_prefix_b_part_of_a_transitive (a b c : lisp_addr_t) (la lb lc : Z) :
  valid_prefix a la -> valid_prefix b lb ->
  is_prefix_b_part_of_a a la b lb = Some (TRUE, []) ->
  is_prefix_b_part_of_a b lb c lc = Some (TRUE, []) ->
  is_prefix_b_part_of_a a la c lc = Some (TRUE, []).
Proof.
  intros Hva Hvb Hab Hbc.
  destruct (is_prefix_true_inv a b la lb [] Hab) as [Hfab Hlab].
  destruct (is_prefix_true_inv b c lb lc [] Hbc) as [Hfbc Hlbc].
  apply is_prefix_true_iff in Hab; [| assumption | assumption | assumption].
  apply is_prefix_true_iff in Hbc; [| assumption | assumption | assumption].
  apply is_prefix_true_iff; [assumption | congruence | lia |].
  assert (H0 : 0 <= la) by (destruct Hva as [[_ ?] | [_ ?]]; lia).
  assert (Hvc : valid_prefix c lb).
  { destruct Hvb as [[? ?] | [? ?]]; [left | right]; split; congruence. }
  rewrite <- (spec_network_address_twice c la lb) by (assumption || lia).
  rewrite Hbc, spec_network_address_twice by (assumption || lia).
  exact Hab.
Qed.

(** X14: The two ends of the range of lengths.  At length 0 the network
    address is zero, so that a prefix of length 0 contains every prefix of
    its family; at the full length of the family, as [get_prefix_len]
    gives it, the network address is the address itself (for V4, its four
    bytes). *)
Theorem get_network_address_extremes (a : lisp_addr_t) :
  afi a = AF_INET \/ afi a = AF_INET6 ->
  get_network_address a 0 = Some ({| address := zero_union; afi := afi a |}, [])
  /\ (forall (b : lisp_addr_t) (lb : Z),
         afi b = afi a -> 0 <= lb ->
         is_prefix_b_part_of_a a 0 b lb = Some (TRUE, []))
  /\ (len <- get_prefix_len (afi a) ;; get_network_address a len)
     = Some ({| address := if afi a =? AF_INET
                           then set_ip zero_union (word0 (address a))
                           else address a;
                afi := afi a |}, []).
Proof.
  pose proof family_distinct as Hf.
  intros Hfam.
  assert (Hv0 : valid_prefix a 0) by (destruct Hfam; [left | right]; split; auto; lia).
  assert (Hz : forall x : lisp_addr_t,
             afi x = afi a ->
             spec_network_address x 0 = {| address := zero_union; afi := afi a |}).
  { intros x Hx. unfold spec_network_address. rewrite Hx.
    destruct Hfam as [H | H]; rewrite H.
    - rewrite Z.eqb_refl. unfold spec_network_address_v4.
      change (top_bits_mask 0) with 0. rewrite spec_mask_word_none. reflexivity.
    - destruct (Z.eqb_spec AF_INET6 AF_INET); [intuition congruence |].
      unfold spec_network_address_v6.
      change (spec_mask_v6 0 0) with 0. change (spec_mask_v6 0 1) with 0.
      change (spec_mask_v6 0 2) with 0. change (spec_mask_v6 0 3) with 0.
      rewrite !spec_mask_word_none. reflexivity. }
  split; [| split].
  - rewrite (get_network_address_spec OK a 0 Hv0). rewrite Hz by reflexivity. reflexivity.
  - intros b lb Hb Hlb. apply is_prefix_true_iff; [assumption | assumption | lia |].
    rewrite !Hz by (assumption || reflexivity). reflexivity.
  - unfold get_prefix_len, get_addr_len.
    destruct Hfam as [H | H]; rewrite H.
    + destruct (Z.eqb_spec AF_INET AF_UNSPEC); [intuition congruence |].
      rewrite Z.eqb_refl, !bind_ret_l. change (4 * 8) with 32.
      rewrite (get_network_address_spec OK a 32) by (left; split; [assumption | lia]).
      unfold spec_network_address. rewrite H, Z.eqb_refl.
      unfold spec_network_address_v4.
      change (top_bits_mask 32) with 0xFFFFFFFF. rewrite spec_mask_word_all. reflexivity.
    + destruct (Z.eqb_spec AF_INET6 AF_UNSPEC); [intuition congruence |].
      destruct (Z.eqb_spec AF_INET6 AF_INET); [intuition congruence |].
      rewrite Z.eqb_refl, !bind_ret_l. change (16 * 8) with 128.
      rewrite (get_network_address_spec OK a 128) by (right; split; [assumption | lia]).
      unfold spec_network_address. rewrite H.
      destruct (Z.eqb_spec AF_INET6 AF_INET); [intuition congruence |].
      unfold spec_network_address_v6.
      change (spec_mask_v6 128 0) with 0xFFFFFFFF.
      change (spec_mask_v6 128 1) with 0xFFFFFFFF.
      change (spec_mask_v6 128 2) with 0xFFFFFFFF.
      change (spec_mask_v6 128 3) with 0xFFFFFFFF.
      rewrite !spec_mask_word_all. destruct (address a); reflexivity.
Qed.

End PrefixAlgebra.

(** * Prefix arithmetic: the network address as a number *)

Lemma be_value_mem32 (w : mem32) : be_value (bytes_of_mem32 w) = be_decode w.
Proof.
  destruct w as [[[b0 b1] b2] b3]. unfold be_value, be_decode. cbn [bytes_of_mem32 fold_left].
  change (2 ^ 24) with 16777216. change (2 ^ 16) with 65536. change (2 ^ 8) with 256.
  lia.
Qed.

Lemma be_value_union (u : addr_union) :
  be_value (bytes_of_union u)
  = be_decode (word0 u) * 2 ^ 96 + be_decode (word1 u) * 2 ^ 64
    + be_decode (word2 u) * 2 ^ 32 + be_decode (word3 u).
Proof.
  destruct u as [[[[? ?] ?] ?] [[[? ?] ?] ?] [[[? ?] ?] ?] [[[? ?] ?] ?]].
  unfold be_value, be_decode, bytes_of_union.
  cbn [bytes_of_mem32 word0 word1 word2 word3 app fold_left].
  change (2 ^ 24) with 16777216. change (2 ^ 16) with 65536. change (2 ^ 8) with 256.
  change (2 ^ 32) with 4294967296. change (2 ^ 64) with 18446744073709551616.
  change (2 ^ 96) with 79228162514264337593543950336.
  lia.
Qed.

Lemma be_decode_spec_mask_word (w : mem32) (m : Z) :
  be_decode (spec_mask_word w m) = Z.land (be_decode w) m.
Proof.
  unfold spec_mask_word. rewrite be_decode_encode.
  apply land_mod_32, be_decode_range.
Qed.

(** Rounding down a number written in three parts: the part above, the
    part that is cut, the part below. *)
Lemma round_down_split (h x l c p q : Z) :
  0 < p -> 0 < c -> 0 <= l < c ->
  ((h * (p * q) + x) * c + l) / (p * c) * (p * c)
  = h * (p * q) * c + x / p * p * c.
Proof.
  intros Hp Hc Hl.
  assert (Hq : ((h * (p * q) + x) * c + l) / (p * c) = h * q + x / p).
  { symmetry. apply (Z.div_unique _ _ _ (x mod p * c + l)).
    - left. pose proof (Z.mod_pos_bound x p Hp). nia.
    - pose proof (Z.div_mod x p ltac:(lia)) as Hx. nia. }
  rewrite Hq. ring.
Qed.

Lemma land_last_mask (x b : Z) :
  0 <= x < 2 ^ 32 -> 0 <= b < 32 ->
  Z.land x (if negb (b =? 0) then top_bits_mask b else 0)
  = x / 2 ^ (32 - b) * 2 ^ (32 - b).
Proof.
  intros Hx Hb. destruct (Z.eqb_spec b 0) as [-> | Hne]; cbn [negb].
  - rewrite Z.land_0_r. change (32 - 0) with 32.
    rewrite Z.div_small by exact Hx. reflexivity.
  - apply land_top_bits_mask; lia.
Qed.

Lemma land_all_mask (x : Z) : 0 <= x < 2 ^ 32 -> Z.land x 0xFFFFFFFF = x.
Proof.
  intros Hx. change 0xFFFFFFFF with (Z.ones 32).
  rewrite Z.land_ones by lia. apply Z.mod_small, Hx.
Qed.

(** The 128-bit number of an IPv6 network address. *)
Lemma spec_network_address_v6_rounds (u : addr_union) (len : Z) :
  0 <= len <= 128 ->
  be_value (bytes_of_union (spec_network_address_v6 u len))
  = be_value (bytes_of_union u) / 2 ^ (128 - len) * 2 ^ (128 - len).
Proof.
  intros Hlen. rewrite !be_value_union.
  unfold spec_network_address_v6. cbn [word0 word1 word2 word3].
  rewrite !be_decode_spec_mask_word.
  pose proof (be_decode_range (word0 u)) as H0.
  pose proof (be_decode_range (word1 u)) as H1.
  pose proof (be_decode_range (word2 u)) as H2.
  pose proof (be_decode_range (word3 u)) as H3.
  set (W0 := be_decode (word0 u)) in *. set (W1 := be_decode (word1 u)) in *.
  set (W2 := be_decode (word2 u)) in *. set (W3 := be_decode (word3 u)) in *.
  pose proof (Z.div_mod len 32 ltac:(lia)) as Hdm.
  pose proof (Z.mod_pos_bound len 32 ltac:(lia)) as Hb.
  unfold spec_mask_v6.
  set (a_ := len / 32) in *. set (b := len mod 32) in *.
  assert (Hp : 0 < 2 ^ (32 - b)) by (apply Z.pow_pos_nonneg; lia).
  assert (Hpq : 2 ^ (32 - b) * 2 ^ b = 2 ^ 32)
    by (rewrite <- Z.pow_add_r by lia; f_equal; lia).
  assert (Ha : a_ = 0 \/ a_ = 1 \/ a_ = 2 \/ a_ = 3 \/ (a_ = 4 /\ b = 0)) by lia.
  change (2 ^ 32) with 4294967296 in *. change (2 ^ 64) with 18446744073709551616.
  change (2 ^ 96) with 79228162514264337593543950336.
  destruct Ha as [Ha | [Ha | [Ha | [Ha | [Ha Hb0]]]]]; rewrite Ha in *;
    cbn [Z.ltb Z.eqb Z.compare Pos.compare Pos.compare_cont Pos.eqb andb].
  - rewrite land_last_mask, !Z.land_0_r by (change (2 ^ 32) with 4294967296; lia).
    replace (128 - len) with ((32 - b) + 96) by lia.
    rewrite Z.pow_add_r by lia. change (2 ^ 96) with 79228162514264337593543950336.
    pose proof (round_down_split 0 W0 (W1 * 18446744073709551616 + W2 * 4294967296 + W3)
                  79228162514264337593543950336 (2 ^ (32 - b)) (2 ^ b)
                  Hp ltac:(lia) ltac:(lia)) as Hr.
    rewrite Hpq in Hr.
    replace (W0 * 79228162514264337593543950336 + W1 * 18446744073709551616
             + W2 * 4294967296 + W3)
      with ((0 * 4294967296 + W0) * 79228162514264337593543950336
            + (W1 * 18446744073709551616 + W2 * 4294967296 + W3)) by lia.
    rewrite Hr. lia.
  - rewrite land_all_mask, land_last_mask, !Z.land_0_r
      by (change (2 ^ 32) with 4294967296; lia).
    replace (128 - len) with ((32 - b) + 64) by lia.
    rewrite Z.pow_add_r by lia. change (2 ^ 64) with 18446744073709551616.
    pose proof (round_down_split W0 W1 (W2 * 4294967296 + W3)
                  18446744073709551616 (2 ^ (32 - b)) (2 ^ b)
                  Hp ltac:(lia) ltac:(lia)) as Hr.
    rewrite Hpq in Hr.
    replace (W0 * 79228162514264337593543950336 + W1 * 18446744073709551616
             + W2 * 4294967296 + W3)
      with ((W0 * 4294967296 + W1) * 18446744073709551616
            + (W2 * 4294967296 + W3)) by lia.
    rewrite Hr. lia.
  - rewrite !land_all_mask, land_last_mask, !Z.land_0_r
      by (change (2 ^ 32) with 4294967296; lia).
    replace (128 - len) with ((32 - b) + 32) by lia.
    rewrite Z.pow_add_r by lia. change (2 ^ 32) with 4294967296.
    pose proof (round_down_split (W0 * 4294967296 + W1) W2 W3
                  4294967296 (2 ^ (32 - b)) (2 ^ b)
                  Hp ltac:(lia) ltac:(lia)) as Hr.
    rewrite Hpq in Hr.
    replace (W0 * 79228162514264337593543950336 + W1 * 18446744073709551616
             + W2 * 4294967296 + W3)
      with (((W0 * 4294967296 + W1) * 4294967296 + W2) * 4294967296 + W3) by lia.
    rewrite Hr. lia.
  - rewrite !land_all_mask, land_last_mask
      by (change (2 ^ 32) with 4294967296; lia).
    replace (128 - len) with (32 - b) by lia.
    pose proof (round_down_split (W0 * 18446744073709551616 + W1 * 4294967296 + W2)
                  W3 0 1 (2 ^ (32 - b)) (2 ^ b)
                  Hp ltac:(lia) ltac:(lia)) as Hr.
    rewrite Hpq, !Z.mul_1_r, Z.add_0_r in Hr.
    replace (W0 * 79228162514264337593543950336 + W1 * 18446744073709551616
             + W2 * 4294967296 + W3)
      with ((W0 * 18446744073709551616 + W1 * 4294967296 + W2) * 4294967296 + W3)
      by lia.
    rewrite Hr. lia.
  - rewrite !land_all_mask by (change (2 ^ 32) with 4294967296; lia).
    replace (128 - len) with 0 by lia. change (2 ^ 0) with 1.
    rewrite Z.div_1_r. lia.
Qed.

Section Rounding.

Context {D : lispd_defs} {OK : lispd_defs_ok D}.

(** X15: The network address of a prefix is its address, read as a number of
    32 bits for V4 and of 128 bits for V6 in network byte order, rounded
    down to a multiple of 2 to the power of the number of host bits. *)
Theorem get_network_address_rounds (a : lisp_addr_t) (len : Z) :
  valid_prefix a len ->
  exists n : lisp_addr_t,
    get_network_address a len = Some (n, [])
    /\ afi n = afi a
    /\ be_value (payload n)
       = be_value (payload a) / 2 ^ ((if afi a =? AF_INET then 32 else 128) - len)
         * 2 ^ ((if afi a =? AF_INET then 32 else 128) - len).
Proof.
  pose proof family_distinct as Hf.
  intros Hv. rewrite (get_network_address_spec OK a len Hv).
  eexists. split; [reflexivity |].
  split; [apply afi_spec_network_address, (valid_prefix_family a len Hv) |].
  unfold payload, spec_network_address.
  destruct Hv as [[H Hlen] | [H Hlen]]; rewrite H.
  - rewrite Z.eqb_refl. cbn [afi address]. rewrite Z.eqb_refl.
    unfold spec_network_address_v4. cbn [word0].
    rewrite !be_value_mem32, be_decode_spec_mask_word.
    apply land_top_bits_mask; [apply be_decode_range | exact Hlen].
  - destruct (Z.eqb_spec AF_INET6 AF_INET); [intuition congruence |].
    cbn [afi address].
    destruct (Z.eqb_spec AF_INET6 AF_INET); [intuition congruence |].
    apply spec_network_address_v6_rounds, Hlen.
Qed.

End Rounding.

(** * Link-local addresses *)

Lemma land_byte_c0 (b : byte) :
  Z.land (byte.unsigned b) 0xc0 = byte.unsigned b / 64 * 64.
Proof. destruct b; reflexivity. Qed.

Lemma land_byte_ff (b : byte) : Z.land (byte.unsigned b) 0xff = byte.unsigned b.
Proof. destruct b; reflexivity. Qed.

Lemma spec_mask_word_eq (w w' : mem32) (m : Z) :
  spec_mask_word w m = spec_mask_word w' m
  <-> Z.land (be_decode w) m = Z.land (be_decode w') m.
Proof.
  split; intros H.
  - apply (f_equal be_decode) in H. rewrite !be_decode_spec_mask_word in H. exact H.
  - unfold spec_mask_word. rewrite H. reflexivity.
Qed.

Section LinkLocal.

Context {D : lispd_defs} {OK : lispd_defs_ok D}.

Variable inet_pton : Z -> list ascii -> option (list byte).

Hypothesis pton_network :
  inet_pton AF_INET (text "169.254.0.0") = Some (map byte.of_Z [169; 254; 0; 0]).
Hypothesis pton_mask :
  inet_pton AF_INET (text "255.255.0.0") = Some (map byte.of_Z [255; 255; 0; 0]).

(** The test of the code on a V4 address holds exactly when the first two
    bytes are 169 and 254. *)
Lemma is_link_local_v4_bytes (a : lisp_addr_t) (b0 b1 b2 b3 : byte) :
  afi a = AF_INET -> word0 (address a) = (b0, b1, b2, b3) ->
  (is_link_local_addr inet_pton a = TRUE
   <-> byte.unsigned b0 = 169 /\ byte.unsigned b1 = 254).
Proof.
  intros Ha Hw. pose proof truth_values as [Htf _].
  unfold is_link_local_addr, inet_pton_word. rewrite Ha, Z.eqb_refl.
  change (list_ascii_of_string "169.254.0.0") with (text "169.254.0.0").
  change (list_ascii_of_string "255.255.0.0") with (text "255.255.0.0").
  rewrite pton_network, pton_mask, Hw.
  pose proof (byte.unsigned_range b0) as H0. pose proof (byte.unsigned_range b1) as H1.
  pose proof (byte.unsigned_range b2) as H2. pose proof (byte.unsigned_range b3) as H3.
  change (2 ^ 8) with 256 in *.
  assert (Hcond : Z.land (load32 (b0, b1, b2, b3))
                    (load32 (mem32_of_bytes
                               (firstn 4 (map byte.of_Z [255; 255; 0; 0])
                                ++ skipn 4 (bytes_of_mem32 (store32 0)))))
                  = load32 (mem32_of_bytes
                              (firstn 4 (map byte.of_Z [169; 254; 0; 0])
                               ++ skipn 4 (bytes_of_mem32 (store32 0))))
                  <-> byte.unsigned b0 = 169 /\ byte.unsigned b1 = 254).
  { unfold load32, store32. destruct host_byte_order.
    - change (le_decode (mem32_of_bytes _)) with 65535 at 1.
      change (le_decode (mem32_of_bytes _)) with 65193.
      change 65535 with (Z.ones 16). rewrite Z.land_ones by lia.
      unfold le_decode, be_decode.
      change (2 ^ 24) with 16777216. change (2 ^ 16) with 65536.
      change (2 ^ 8) with 256.
      split; [intros H | intros [-> ->]];
        [split |]; Z.div_mod_to_equations; lia.
    - change (be_decode (mem32_of_bytes _)) with (top_bits_mask 16) at 1.
      change (be_decode (mem32_of_bytes _)) with 2851995648.
      rewrite land_top_bits_mask by (try apply be_decode_range; lia).
      unfold be_decode. change (32 - 16) with 16.
      change (2 ^ 24) with 16777216. change (2 ^ 16) with 65536.
      change (2 ^ 8) with 256.
      split; [intros H | intros [-> ->]];
        [split |]; Z.div_mod_to_equations; lia. }
  destruct (Z.eqb_spec
              (Z.land (load32 (b0, b1, b2, b3))
                 (load32 (mem32_of_bytes
                            (firstn 4 (map byte.of_Z [255; 255; 0; 0])
                             ++ skipn 4 (bytes_of_mem32 (store32 0))))))
              (load32 (mem32_of_bytes
                         (firstn 4 (map byte.of_Z [169; 254; 0; 0])
                          ++ skipn 4 (bytes_of_mem32 (store32 0)))))) as [He | He].
  - split; [intros _; apply Hcond, He | reflexivity].
  - split; [intros H; congruence | intros H; exfalso; apply He, Hcond, H].
Qed.

(** Being part of 169.254.0.0/16 is the same condition on the bytes. *)
Lemma part_of_169_254_bytes (a : lisp_addr_t) (b0 b1 b2 b3 : byte) :
  afi a = AF_INET -> word0 (address a) = (b0, b1, b2, b3) ->
  (spec_network_address a 16 = spec_network_address (ipv4 169 254 0 0) 16
   <-> byte.unsigned b0 = 169 /\ byte.unsigned b1 = 254).
Proof.
  intros Ha Hw. unfold spec_network_address, ipv4. cbn [afi address].
  rewrite Ha, Z.eqb_refl. unfold spec_network_address_v4. cbn [word0]. rewrite Hw.
  pose proof (byte.unsigned_range b0) as H0. pose proof (byte.unsigned_range b1) as H1.
  pose proof (byte.unsigned_range b2) as H2. pose proof (byte.unsigned_range b3) as H3.
  change (2 ^ 8) with 256 in *.
  assert (Hm : spec_mask_word (b0, b1, b2, b3) (top_bits_mask 16)
               = spec_mask_word (byte.of_Z 169, byte.of_Z 254, byte.of_Z 0, byte.of_Z 0)
                   (top_bits_mask 16)
               <-> byte.unsigned b0 = 169 /\ byte.unsigned b1 = 254).
  { rewrite spec_mask_word_eq.
    change (Z.land (be_decode (byte.of_Z 169, byte.of_Z 254, byte.of_Z 0, byte.of_Z 0))
              (top_bits_mask 16)) with 2851995648.
    rewrite land_top_bits_mask by (try apply be_decode_range; lia).
    unfold be_decode. change (32 - 16) with 16.
    change (2 ^ 24) with 16777216. change (2 ^ 16) with 65536.
    change (2 ^ 8) with 256.
    split; [intros H | intros [-> ->]]; [split |]; Z.div_mod_to_equations; lia. }
  rewrite <- Hm. split; intros H.
  - apply (f_equal (fun r => word0 (address r))) in H. exact H.
  - rewrite H. reflexivity.
Qed.

Lemma is_link_local_v6_bytes (a : lisp_addr_t) (b0 b1 b2 b3 : byte) :
  afi a = AF_INET6 -> word0 (address a) = (b0, b1, b2, b3) ->
  (is_link_local_addr inet_pton a = TRUE
   <-> byte.unsigned b0 = 254 /\ byte.unsigned b1 / 64 = 2).
Proof.
  intros Ha Hw. pose proof truth_values as [Htf _]. pose proof family_distinct as Hf.
  unfold is_link_local_addr. rewrite Ha.
  destruct (Z.eqb_spec AF_INET6 AF_INET); [intuition congruence |].
  rewrite Z.eqb_refl, Hw, land_byte_ff, land_byte_c0.
  destruct (Z.eqb_spec (byte.unsigned b0) 254), (Z.eqb_spec (byte.unsigned b1 / 64 * 64) 128);
    cbn [andb]; split; try (intros H; congruence); try reflexivity;
    try (intros _; split; lia); intros [? ?]; lia.
Qed.

Lemma part_of_fe80_bytes (a : lisp_addr_t) (b0 b1 b2 b3 : byte) :
  afi a = AF_INET6 -> word0 (address a) = (b0, b1, b2, b3) ->
  (spec_network_address a 10 = spec_network_address (ipv6 0xfe80 0 0 0 0 0 0 0) 10
   <-> byte.unsigned b0 = 254 /\ byte.unsigned b1 / 64 = 2).
Proof.
  intros Ha Hw. pose proof family_distinct as Hf.
  unfold spec_network_address, ipv6. cbn [afi address]. rewrite Ha.
  destruct (Z.eqb_spec AF_INET6 AF_INET); [intuition congruence |].
  unfold spec_network_address_v6. cbn [word0 word1 word2 word3]. rewrite Hw.
  change (spec_mask_v6 10 0) with (top_bits_mask 10).
  change (spec_mask_v6 10 1) with 0. change (spec_mask_v6 10 2) with 0.
  change (spec_mask_v6 10 3) with 0. rewrite !spec_mask_word_none.
  pose proof (byte.unsigned_range b0) as H0. pose proof (byte.unsigned_range b1) as H1.
  pose proof (byte.unsigned_range b2) as H2. pose proof (byte.unsigned_range b3) as H3.
  change (2 ^ 8) with 256 in *.
  assert (Hm : spec_mask_word (b0, b1, b2, b3) (top_bits_mask 10)
               = spec_mask_word (group16 0xfe80 0) (top_bits_mask 10)
               <-> byte.unsigned b0 = 254 /\ byte.unsigned b1 / 64 = 2).
  { rewrite spec_mask_word_eq.
    change (Z.land (be_decode (group16 0xfe80 0)) (top_bits_mask 10)) with 4269801472.
    rewrite land_top_bits_mask by (try apply be_decode_range; lia).
    unfold be_decode. change (32 - 10) with 22.
    change (2 ^ 24) with 16777216. change (2 ^ 16) with 65536.
    change (2 ^ 8) with 256. change (2 ^ 22) with 4194304.
    split; [intros H | intros [Hb0 Hb1]; rewrite Hb0]; [split |];
      Z.div_mod_to_equations; lia. }
  rewrite <- Hm. split; intros H.
  - apply (f_equal (fun r => word0 (address r))) in H. exact H.
  - rewrite H. reflexivity.
Qed.

(** X16: When the C library reads the two constants of the code,
    [is_link_local_addr] answers TRUE on a V4 address exactly when the
    address, as a host prefix, is part of 169.254.0.0/16, and on a V6
    address exactly when it is part of fe80::/10, as
    [is_prefix_b_part_of_a] decides it; on any other family it answers
    FALSE. *)
Theorem is_link_local_addr_containment (a : lisp_addr_t) :
  (afi a = AF_INET ->
   (is_link_local_addr inet_pton a = TRUE
    <-> is_prefix_b_part_of_a (ipv4 169 254 0 0) 16 a 32 = Some (TRUE, [])))
  /\ (afi a = AF_INET6 ->
      (is_link_local_addr inet_pton a = TRUE
       <-> is_prefix_b_part_of_a (ipv6 0xfe80 0 0 0 0 0 0 0) 10 a 128
           = Some (TRUE, [])))
  /\ (afi a <> AF_INET -> afi a <> AF_INET6 ->
      is_link_local_addr inet_pton a = FALSE).
Proof.
  split; [| split].
  - intros Ha. destruct (word0 (address a)) as [[[b0 b1] b2] b3] eqn:Hw.
    rewrite (is_link_local_v4_bytes a b0 b1 b2 b3 Ha Hw).
    rewrite is_prefix_true_iff;
      [| left; split; [reflexivity | lia] | exact Ha | lia].
    symmetry. apply (part_of_169_254_bytes a b0 b1 b2 b3 Ha Hw).
  - intros Ha. destruct (word0 (address a)) as [[[b0 b1] b2] b3] eqn:Hw.
    rewrite (is_link_local_v6_bytes a b0 b1 b2 b3 Ha Hw).
    rewrite is_prefix_true_iff;
      [| right; split; [reflexivity | lia] | exact Ha | lia].
    symmetry. apply (part_of_fe80_bytes a b0 b1 b2 b3 Ha Hw).
  - intros H4 H6. unfold is_link_local_addr.
    destruct (Z.eqb_spec (afi a) AF_INET); [contradiction |].
    destruct (Z.eqb_spec (afi a) AF_INET6); [contradiction | reflexivity].
Qed.

End LinkLocal.

(** * Hexadecimal strings *)

(** X17: [convert_hex_char_to_byte] gives the value of a hexadecimal digit in
    either case, from 0 to 15, and -1 for every other character; the
    digit that spells a value in either case is read back as that
    value. *)
Theorem convert_hex_char_to_byte_spec :
  (forall c : ascii,
      (is_hex_digit c = true -> 0 <= convert_hex_char_to_byte c <= 15)
      /\ (is_hex_digit c = false -> convert_hex_char_to_byte c = -1)
      /\ convert_hex_char_to_byte (toupper c) = convert_hex_char_to_byte c)
  /\ (forall (upper : bool) (v : Z),
         0 <= v <= 15 ->
         is_hex_digit (hex_char upper v) = true
         /\ convert_hex_char_to_byte (hex_char upper v) = v).
Proof.
  split.
  - intros c. destruct c as [[] [] [] [] [] [] [] []];
      (split; [| split]); vm_compute;
      first [ reflexivity
            | intros H; discriminate H
            | intros _; reflexivity
            | intros _; split; intros H; discriminate H ].
  - intros upper v Hv.
    assert (Hcases : v = 0 \/ v = 1 \/ v = 2 \/ v = 3 \/ v = 4 \/ v = 5 \/ v = 6
                     \/ v = 7 \/ v = 8 \/ v = 9 \/ v = 10 \/ v = 11 \/ v = 12
                     \/ v = 13 \/ v = 14 \/ v = 15) by lia.
    destruct upper;
      repeat (destruct Hcases as [-> | Hcases]; [split; reflexivity |]);
      subst v; split; reflexivity.
Qed.

Lemma is_hex_digit_value (c : ascii) :
  (convert_hex_char_to_byte c =? -1) = negb (is_hex_digit c).
Proof. destruct c as [[] [] [] [] [] [] [] []]; reflexivity. Qed.

Lemma hex_char_digit (upper : bool) (b : byte) :
  is_hex_digit (hex_char upper (byte.unsigned b / 16)) = true
  /\ is_hex_digit (hex_char upper (byte.unsigned b mod 16)) = true
  /\ byte.of_Z (convert_hex_char_to_byte (hex_char upper (byte.unsigned b / 16)) * 16
                + convert_hex_char_to_byte (hex_char upper (byte.unsigned b mod 16)))
     = b
  /\ is_char (hex_char upper (byte.unsigned b / 16)) NUL = false
  /\ is_char (hex_char upper (byte.unsigned b mod 16)) NUL = false.
Proof. destruct upper, b; repeat split; reflexivity. Qed.

Lemma set_byte_app (done free : list byte) (f v : byte) :
  set_byte (done ++ f :: free) (List.length done) v = done ++ v :: free.
Proof. induction done as [| d done IH]; cbn; [reflexivity | rewrite IH; reflexivity]. Qed.

Lemma read_char_inside (pre rest : list ascii) (c : ascii) :
  read_char (pre ++ c :: rest) (Z.of_nat (List.length pre)) = ret c.
Proof.
  unfold read_char. rewrite length_app. cbn [List.length].
  destruct (Z.leb_spec 0 (Z.of_nat (List.length pre))); [| lia].
  destruct (Z.leb_spec (Z.of_nat (List.length pre))
              (Z.of_nat (List.length pre + S (List.length rest)))); [| lia].
  cbn [andb]. rewrite Nat2Z.id, nth_middle. reflexivity.
Qed.

Lemma read_char_end (s : list ascii) :
  read_char s (Z.of_nat (List.length s)) = ret NUL.
Proof.
  unfold read_char.
  destruct (Z.leb_spec 0 (Z.of_nat (List.length s))); [| lia].
  rewrite Z.leb_refl. cbn [andb]. rewrite Nat2Z.id, nth_overflow by lia. reflexivity.
Qed.

Lemma read_char_outside (s : list ascii) (i : Z) :
  Z.of_nat (List.length s) < i -> read_char s i = undefined.
Proof.
  intros Hi. unfold read_char.
  destruct (Z.leb_spec i (Z.of_nat (List.length s))); [lia |].
  rewrite andb_false_r. reflexivity.
Qed.

Lemma split_at {A : Type} (l : list A) (n : nat) (d : A) :
  (n < List.length l)%nat -> l = firstn n l ++ nth n l d :: skipn (S n) l.
Proof.
  revert n; induction l as [| x l IH]; intros n Hn; [cbn in Hn; lia |].
  destruct n as [| n]; [reflexivity |].
  cbn [firstn nth skipn app]. f_equal. apply IH. cbn in Hn. lia.
Qed.

Section HexStrings.

Context {D : lispd_defs} {OK : lispd_defs_ok D}.

(** The loop over indices agrees with the recursion over the characters
    that remain. *)
Lemma hex_bytes_loop_outcome (n : nat) (rest pre : list ascii) (done free : list byte) :
  List.length pre = (2 * List.length done)%nat ->
  hex_bytes_loop n (pre ++ rest) (Z.of_nat (List.length done)) (done ++ free)
  = pairs_outcome n rest done free.
Proof.
  revert rest pre done free.
  induction n as [| n IH]; intros rest pre done free Hpre; [reflexivity |].
  cbn [hex_bytes_loop pairs_outcome].
  replace (Z.of_nat (List.length done) * 2) with (Z.of_nat (List.length pre)) by lia.
  destruct rest as [| h0 [| h1 rest]].
  - rewrite app_nil_r, read_char_end, bind_ret_l.
    rewrite read_char_outside by lia. reflexivity.
  - rewrite read_char_inside, bind_ret_l.
    replace (Z.of_nat (List.length pre) + 1)
      with (Z.of_nat (List.length (pre ++ [h0]))) by (rewrite length_app; cbn; lia).
    rewrite read_char_end, bind_ret_l.
    change (convert_hex_char_to_byte NUL =? -1) with true. rewrite orb_true_r.
    reflexivity.
  - rewrite read_char_inside, bind_ret_l.
    replace (Z.of_nat (List.length pre) + 1)
      with (Z.of_nat (List.length (pre ++ [h0]))) by (rewrite length_app; cbn; lia).
    replace (pre ++ h0 :: h1 :: rest) with ((pre ++ [h0]) ++ h1 :: rest)
      by (rewrite <- app_assoc; reflexivity).
    rewrite read_char_inside, bind_ret_l. rewrite !is_hex_digit_value.
    destruct (is_hex_digit h0), (is_hex_digit h1); cbn [negb orb andb];
      try reflexivity.
    unfold write_byte. rewrite length_app.
    destruct free as [| f free].
    + cbn [List.length]. rewrite Nat.add_0_r.
      destruct (Z.ltb_spec (Z.of_nat (List.length done)) (Z.of_nat (List.length done)));
        [lia |].
      rewrite andb_false_r. reflexivity.
    + cbn [List.length].
      destruct (Z.leb_spec 0 (Z.of_nat (List.length done))); [| lia].
      destruct (Z.ltb_spec (Z.of_nat (List.length done))
                  (Z.of_nat (List.length done + S (List.length free)))); [| lia].
      cbn [andb]. rewrite bind_ret_l, Nat2Z.id, set_byte_app.
      specialize (IH rest ((pre ++ [h0]) ++ [h1])
                    (done ++ [byte.of_Z (convert_hex_char_to_byte h0 * 16
                                         + convert_hex_char_to_byte h1)]) free).
      rewrite <- !app_assoc in IH. cbn [app] in IH.
      rewrite <- app_assoc. cbn [app].
      replace (Z.of_nat (List.length done) + 1)
        with (Z.of_nat (List.length (done ++ [byte.of_Z
                                                 (convert_hex_char_to_byte h0 * 16
                                                  + convert_hex_char_to_byte h1)])))
        by (rewrite length_app; cbn; lia).
      apply IH. rewrite !length_app. cbn [List.length]. lia.
Qed.

(** The first loop stops at the length of the string, or one past twice
    the number of bytes when the string is longer. *)
Lemma hex_length_loop_result (hex : list ascii) (bytes_len : Z) (fuel : nat) (ctr : nat) :
  no_NUL hex = true -> 0 <= bytes_len ->
  (ctr <= List.length hex)%nat -> Z.of_nat ctr <= bytes_len * 2 + 1 ->
  (List.length hex - ctr < fuel)%nat ->
  hex_length_loop fuel hex (Z.of_nat ctr) bytes_len
  = Some (ret (Z.min (Z.of_nat (List.length hex)) (bytes_len * 2 + 1))).
Proof.
  intros Hnul Hn. revert ctr.
  induction fuel as [| fuel IH]; intros ctr Hctr Hmax Hfuel; [lia |].
  cbn [hex_length_loop].
  destruct (Nat.eq_dec ctr (List.length hex)) as [-> | Hlt].
  - rewrite read_char_end. cbn [ret]. change (is_char NUL NUL) with true.
    cbn [negb andb]. unfold ret. do 3 f_equal. lia.
  - assert (Hsplit : exists pre c rest,
               hex = pre ++ c :: rest /\ List.length pre = ctr).
    { exists (firstn ctr hex), (nth ctr hex NUL), (skipn (S ctr) hex). split.
      - apply split_at. lia.
      - apply firstn_length_le. lia. }
    destruct Hsplit as (pre & c & rest & Hhex & Hpre).
    rewrite Hhex at 1. rewrite <- Hpre at 1. rewrite read_char_inside. cbn [ret].
    assert (Hc : is_char c NUL = false).
    { unfold no_NUL in Hnul. rewrite Hhex, forallb_app in Hnul.
      apply andb_prop in Hnul as [_ Hnul]. cbn [forallb] in Hnul.
      apply andb_prop in Hnul as [Hnul _]. apply negb_true_iff. exact Hnul. }
    rewrite Hc. cbn [negb andb].
    destruct (Z.leb_spec (Z.of_nat ctr) (bytes_len * 2)) as [Hle | Hgt].
    + replace (Z.of_nat ctr + 1) with (Z.of_nat (S ctr)) by lia.
      apply IH; lia.
    + unfold ret. do 3 f_equal. lia.
Qed.

(** What the function computes on an array that holds the string and
    nothing after its terminator. *)
Lemma convert_hex_string_to_bytes_closed_form (hex : list ascii) (bytes : list byte)
    (n : nat) :
  no_NUL hex = true ->
  convert_hex_string_to_bytes hex bytes (Z.of_nat n)
  = Some (if (2 * n + 1 <? List.length hex)%nat then ret (BAD, bytes)
          else
            r <- pairs_outcome n hex [] bytes ;;
            match r with
            | (Some code, bytes') => ret (code, bytes')
            | (None, bytes') => ret (GOOD, bytes')
            end).
Proof.
  intros Hnul. unfold convert_hex_string_to_bytes.
  rewrite (hex_length_loop_result hex (Z.of_nat n) _ 0 Hnul) by (cbn; lia).
  f_equal. rewrite bind_ret_l.
  destruct (Nat.ltb_spec (2 * n + 1) (List.length hex)) as [Hlong | Hshort].
  - rewrite Z.min_r by lia.
    assert (Hsplit : exists pre c rest,
               hex = pre ++ c :: rest /\ List.length pre = (2 * n + 1)%nat).
    { exists (firstn (2 * n + 1) hex), (nth (2 * n + 1) hex NUL),
        (skipn (S (2 * n + 1)) hex). split.
      - apply split_at. lia.
      - apply firstn_length_le. lia. }
    destruct Hsplit as (pre & c & rest & Hhex & Hpre).
    replace (Z.of_nat n * 2 + 1) with (Z.of_nat (List.length pre)) by lia.
    rewrite Hhex at 1. rewrite read_char_inside, bind_ret_l.
    assert (Hc : is_char c NUL = false).
    { unfold no_NUL in Hnul. rewrite Hhex, forallb_app in Hnul.
      apply andb_prop in Hnul as [_ Hnul]. cbn [forallb] in Hnul.
      apply andb_prop in Hnul as [Hnul _]. apply negb_true_iff. exact Hnul. }
    rewrite Hc. cbn [negb andb].
    destruct (Z.eqb_spec (Z.of_nat (List.length pre)) (Z.of_nat n * 2)); [lia |].
    reflexivity.
  - rewrite Z.min_l by lia. rewrite read_char_end, bind_ret_l.
    change (is_char NUL NUL) with true. cbn [negb andb].
    rewrite Nat2Z.id.
    rewrite <- (hex_bytes_loop_outcome n hex [] [] bytes) by reflexivity.
    reflexivity.
Qed.

End HexStrings.

Lemma length_hex_of_bytes (upper : bool) (bs : list byte) :
  List.length (hex_of_bytes upper bs) = (2 * List.length bs)%nat.
Proof. induction bs as [| b bs IH]; cbn [hex_of_bytes List.length]; lia. Qed.

Lemma no_NUL_hex_of_bytes (upper : bool) (bs : list byte) :
  no_NUL (hex_of_bytes upper bs) = true.
Proof.
  induction bs as [| b bs IH]; [reflexivity |].
  destruct (hex_char_digit upper b) as (_ & _ & _ & H0 & H1).
  unfold no_NUL in *. cbn [hex_of_bytes forallb]. rewrite H0, H1, IH. reflexivity.
Qed.

Lemma decode_pairs_length (n : nat) (hex : list ascii) (bs : list byte) :
  decode_pairs n hex = Some bs ->
  List.length bs = n /\ (2 * n <= List.length hex)%nat.
Proof.
  revert hex bs; induction n as [| n IH]; intros hex bs H.
  - injection H as <-. cbn. lia.
  - cbn [decode_pairs] in H. destruct hex as [| h0 [| h1 hex]]; try discriminate.
    destruct (is_hex_digit h0 && is_hex_digit h1); [| discriminate].
    destruct (decode_pairs n hex) as [bs' |] eqn:E; [| discriminate].
    injection H as <-. destruct (IH hex bs' E). cbn [List.length]. lia.
Qed.

Section HexProperties.

Context {D : lispd_defs} {OK : lispd_defs_ok D}.

Lemma pairs_outcome_decoded (n : nat) (rest : list ascii) (done free bs : list byte) :
  decode_pairs n rest = Some bs -> (n <= List.length free)%nat ->
  pairs_outcome n rest done free = ret (None, done ++ bs ++ skipn n free).
Proof.
  revert rest done free bs; induction n as [| n IH]; intros rest done free bs Hd Hn.
  - injection Hd as <-. reflexivity.
  - cbn [decode_pairs] in Hd. destruct rest as [| h0 [| h1 rest]]; try discriminate.
    cbn [pairs_outcome].
    destruct (is_hex_digit h0 && is_hex_digit h1); [| discriminate].
    destruct (decode_pairs n rest) as [bs' |] eqn:E; [| discriminate].
    injection Hd as <-. destruct free as [| f free]; [cbn in Hn; lia |].
    rewrite (IH rest _ free bs' E) by (cbn in Hn; lia).
    rewrite <- app_assoc. reflexivity.
Qed.

Lemma pairs_outcome_not_decoded (n : nat) (rest : list ascii) (done free : list byte) :
  decode_pairs n rest = None ->
  pairs_outcome n rest done free = None
  \/ exists (bs' : list byte) (es : list event),
       pairs_outcome n rest done free = Some ((Some BAD, bs'), es).
Proof.
  revert rest done free; induction n as [| n IH]; intros rest done free Hd;
    [discriminate |].
  cbn [decode_pairs] in Hd. cbn [pairs_outcome].
  destruct rest as [| h0 [| h1 rest]]; [left; reflexivity | right; eauto |].
  destruct (is_hex_digit h0 && is_hex_digit h1); [| right; eauto].
  destruct free as [| f free]; [left; reflexivity |].
  destruct (decode_pairs n rest) as [bs' |] eqn:E; [discriminate |].
  apply IH, E.
Qed.

Lemma pairs_outcome_hex_of_bytes (upper : bool) (bs done free : list byte) :
  (List.length bs <= List.length free)%nat ->
  pairs_outcome (List.length bs) (hex_of_bytes upper bs) done free
  = ret (None, done ++ bs ++ skipn (List.length bs) free).
Proof.
  revert done free; induction bs as [| b bs IH]; intros done free Hlen;
    [reflexivity |].
  destruct (hex_char_digit upper b) as (H0 & H1 & Hb & _ & _).
  cbn [List.length hex_of_bytes pairs_outcome]. rewrite H0, H1, Hb. cbn [andb].
  destruct free as [| f free]; [cbn in Hlen; lia |].
  rewrite IH by (cbn in Hlen; lia). rewrite <- app_assoc. reflexivity.
Qed.

(** X18: Round trip: the text of a block of bytes in hexadecimal, in either
    case, is converted back to those bytes, written at the start of the
    array, with the result GOOD. *)
Theorem convert_hex_string_to_bytes_round_trip (upper : bool) (bs buf : list byte) :
  (List.length bs <= List.length buf)%nat ->
  convert_hex_string_to_bytes (hex_of_bytes upper bs) buf (Z.of_nat (List.length bs))
  = Some (Some ((GOOD, bs ++ skipn (List.length bs) buf), [])).
Proof.
  intros Hlen.
  rewrite convert_hex_string_to_bytes_closed_form by apply no_NUL_hex_of_bytes.
  rewrite length_hex_of_bytes.
  destruct (Nat.ltb_spec (2 * List.length bs + 1) (2 * List.length bs)); [lia |].
  rewrite pairs_outcome_hex_of_bytes by exact Hlen. rewrite bind_ret_l. reflexivity.
Qed.

(** X19: The function returns GOOD exactly when the first [2 * bytes_len]
    characters are hexadecimal digits and the string has that length or
    one character more; the bytes they spell are then written and nothing
    is logged.  A last character in excess is not looked at. *)
Theorem convert_hex_string_to_bytes_accepts (hex : list ascii) (buf : list byte)
    (n : nat) :
  no_NUL hex = true -> (n <= List.length buf)%nat ->
  (forall (bs' : list byte) (es : list event),
      convert_hex_string_to_bytes hex buf (Z.of_nat n) = Some (Some ((GOOD, bs'), es)) ->
      exists bs : list byte,
        decode_pairs n hex = Some bs
        /\ (List.length hex = (2 * n)%nat \/ List.length hex = (2 * n + 1)%nat)
        /\ bs' = bs ++ skipn n buf /\ es = [])
  /\ (forall bs : list byte,
         decode_pairs n hex = Some bs -> (List.length hex <= 2 * n + 1)%nat ->
         convert_hex_string_to_bytes hex buf (Z.of_nat n)
         = Some (Some ((GOOD, bs ++ skipn n buf), []))).
Proof.
  intros Hnul Hbuf. pose proof err_afi_distinct as (_ & _ & _ & _ & _ & Hgb).
  rewrite convert_hex_string_to_bytes_closed_form by exact Hnul.
  split.
  - intros bs' es H.
    destruct (Nat.ltb_spec (2 * n + 1) (List.length hex)) as [Hlong | Hshort].
    { unfold ret in H. injection H as H _ _. congruence. }
    injection H as H.
    destruct (decode_pairs n hex) as [bs |] eqn:Hd.
    + rewrite (pairs_outcome_decoded n hex [] buf bs Hd Hbuf), bind_ret_l in H.
      injection H as <- <-. exists bs.
      destruct (decode_pairs_length n hex bs Hd) as [_ Hl].
      repeat split; try reflexivity. lia.
    + destruct (pairs_outcome_not_decoded n hex [] buf Hd) as [Hu | (b & e & Hb)].
      * rewrite Hu in H. discriminate H.
      * rewrite Hb in H. cbn in H. injection H as H _ _. congruence.
  - intros bs Hd Hl.
    destruct (Nat.ltb_spec (2 * n + 1) (List.length hex)); [lia |].
    rewrite (pairs_outcome_decoded n hex [] buf bs Hd Hbuf), bind_ret_l. reflexivity.
Qed.

Lemma pairs_outcome_short (n : nat) (rest : list ascii) (done free : list byte) :
  forallb is_hex_digit rest = true -> (List.length rest < 2 * n)%nat ->
  (n <= List.length free)%nat ->
  if Nat.even (List.length rest)
  then pairs_outcome n rest done free = undefined
  else exists bs : list byte,
      decode_pairs (Nat.div2 (List.length rest)) rest = Some bs
      /\ pairs_outcome n rest done free
         = Some ((Some BAD, done ++ bs ++ skipn (Nat.div2 (List.length rest)) free),
                 [lispd_log_msg LISP_LOG_DEBUG_2
                    "convert_hex_string_to_bytes: Invalid hexadecimal number" []]).
Proof.
  revert rest done free; induction n as [| n IH]; intros rest done free Hhex Hlen Hfree;
    [lia |].
  destruct rest as [| h0 [| h1 rest]].
  - reflexivity.
  - cbn. exists []. split; reflexivity.
  - cbn [forallb] in Hhex. apply andb_prop in Hhex as [H0 Hhex].
    apply andb_prop in Hhex as [H1 Hhex].
    destruct free as [| f free]; [cbn in Hfree; lia |].
    specialize (IH rest (done ++ [byte.of_Z (convert_hex_char_to_byte h0 * 16
                                              + convert_hex_char_to_byte h1)])
                  free Hhex ltac:(cbn in Hlen; lia) ltac:(cbn in Hfree; lia)).
    cbn [pairs_outcome List.length Nat.even Nat.div2 decode_pairs].
    rewrite H0, H1. cbn [andb].
    destruct (Nat.even (List.length rest)); [exact IH |].
    destruct IH as (bs & Hd & Ho). rewrite Hd.
    eexists. split; [reflexivity |]. rewrite Ho, <- app_assoc. reflexivity.
Qed.

(** X20: A string of hexadecimal digits that is too short.  With an odd
    number of digits the function writes the bytes of the complete pairs,
    logs and returns BAD.  With an even number of digits it goes on to
    read the character that follows the terminator of the string, which
    lies outside the array that holds the string: the behaviour is not
    defined. *)
Theorem convert_hex_string_to_bytes_short (hex : list ascii) (buf : list byte)
    (n : nat) :
  forallb is_hex_digit hex = true -> (List.length hex < 2 * n)%nat ->
  (n <= List.length buf)%nat ->
  (Nat.even (List.length hex) = true ->
   convert_hex_string_to_bytes hex buf (Z.of_nat n) = Some None)
  /\ (Nat.even (List.length hex) = false ->
      exists bs : list byte,
        decode_pairs (Nat.div2 (List.length hex)) hex = Some bs
        /\ convert_hex_string_to_bytes hex buf (Z.of_nat n)
           = Some (Some ((BAD, bs ++ skipn (Nat.div2 (List.length hex)) buf),
                         [lispd_log_msg LISP_LOG_DEBUG_2
                            "convert_hex_string_to_bytes: Invalid hexadecimal number"
                            []]))).
Proof.
  intros Hhex Hlen Hbuf.
  assert (Hnul : no_NUL hex = true).
  { unfold no_NUL. apply forallb_forall. intros c Hc.
    rewrite forallb_forall in Hhex. specialize (Hhex c Hc).
    destruct c as [[] [] [] [] [] [] [] []]; try reflexivity; discriminate Hhex. }
  rewrite convert_hex_string_to_bytes_closed_form by exact Hnul.
  destruct (Nat.ltb_spec (2 * n + 1) (List.length hex)); [lia |].
  pose proof (pairs_outcome_short n hex [] buf Hhex Hlen Hbuf) as Ho.
  split; intros He; rewrite He in Ho.
  - rewrite Ho. reflexivity.
  - destruct Ho as (bs & Hd & Ho). exists bs. split; [exact Hd |].
    rewrite Ho. reflexivity.
Qed.

End HexProperties.

(** * Lists of servers *)

Section Servers.

Context {D : lispd_defs} {OK : lispd_defs_ok D}.

(** X21: An address added with success is the head of the list: a lookup of
    its family finds it, whatever the list held, and a lookup of another
    family gives what it gave before.  When the address is a null pointer
    or the node cannot be allocated, the result is BAD and the list is
    left as it was. *)
Theorem add_lisp_addr_to_list_lookup (addr : lisp_addr_t) (servers : list lisp_addr_t) :
  add_lisp_addr_to_list (Some addr) true servers = Some ((GOOD, addr :: servers), [])
  /\ get_server (addr :: servers) (afi addr) = Some addr
  /\ (forall f : Z, f <> afi addr ->
                    get_server (addr :: servers) f = get_server servers f)
  /\ (forall malloc_ok : bool,
         value_of (add_lisp_addr_to_list None malloc_ok servers) = Some (BAD, servers))
  /\ value_of (add_lisp_addr_to_list (Some addr) false servers) = Some (BAD, servers).
Proof.
  repeat split.
  - destruct servers; reflexivity.
  - cbn [get_server]. rewrite Z.eqb_refl. reflexivity.
  - intros f Hf. cbn [get_server].
    destruct (Z.eqb_spec (afi addr) f); [congruence | reflexivity].
Qed.

(** X22: [get_server] returns the first address of the list that has the
    family asked for, and the null pointer exactly when no address of the
    list has it. *)
Theorem get_server_first (servers : list lisp_addr_t) (f : Z) :
  (forall a : lisp_addr_t,
      get_server servers f = Some a
      <-> exists before after : list lisp_addr_t,
          servers = before ++ a :: after /\ afi a = f
          /\ forall x : lisp_addr_t, In x before -> afi x <> f)
  /\ (get_server servers f = None
      <-> forall x : lisp_addr_t, In x servers -> afi x <> f).
Proof.
  induction servers as [| s servers [IHs IHn]].
  - split.
    + intros a. split; [discriminate |].
      intros (before & after & H & _). destruct before; discriminate H.
    + split; [intros _ x [] | reflexivity].
  - cbn [get_server]. destruct (Z.eqb_spec (afi s) f) as [Hs | Hs].
    + split.
      * intros a. split.
        -- intros H; injection H as <-. exists [], servers.
           repeat split; [exact Hs | intros x []].
        -- intros (before & after & H & Ha & Hb).
           destruct before as [| b before].
           ++ injection H as -> _. reflexivity.
           ++ injection H as -> _. exfalso. apply (Hb b); [left; reflexivity | exact Hs].
      * split; [discriminate |].
        intros H. exfalso. apply (H s); [left; reflexivity | exact Hs].
    + split.
      * intros a. rewrite IHs. split.
        -- intros (before & after & -> & Ha & Hb). exists (s :: before), after.
           repeat split; [exact Ha |]. intros x [<- | Hx]; [exact Hs | apply Hb, Hx].
        -- intros (before & after & H & Ha & Hb).
           destruct before as [| b before].
           ++ injection H as -> _. contradiction.
           ++ injection H as -> ->. exists before, after.
              repeat split; [exact Ha |]. intros x Hx. apply Hb. right. exact Hx.
      * rewrite IHn. split.
        -- intros H x [<- | Hx]; [exact Hs | apply H, Hx].
        -- intros H x Hx. apply H. right. exact Hx.
Qed.

Lemma get_server_some (servers : list lisp_addr_t) (f : Z) (a : lisp_addr_t) :
  get_server servers f = Some a -> In a servers /\ afi a = f.
Proof.
  induction servers as [| s servers IH]; [discriminate |].
  cbn [get_server]. destruct (Z.eqb_spec (afi s) f) as [Hs | Hs].
  - intros H; injection H as <-. split; [left; reflexivity | exact Hs].
  - intros H. destruct (IH H). split; [right; assumption | assumption].
Qed.

(** X23: [get_map_resolver] returns a resolver of the list whose family has a
    default control interface, the first V4 one when there is a V4
    interface and a V4 resolver, else the first V6 one when there is a V6
    interface; it returns the null pointer, and logs an error, exactly
    when no family has both an interface and a resolver. *)
Theorem get_map_resolver_spec (v4 v6 : bool) (map_resolvers : list lisp_addr_t) :
  (forall a : lisp_addr_t,
      value_of (get_map_resolver v4 v6 map_resolvers) = Some (Some a) ->
      In a map_resolvers
      /\ ((afi a = AF_INET /\ v4 = true) \/ (afi a = AF_INET6 /\ v6 = true)))
  /\ (forall a : lisp_addr_t,
         v4 = true -> get_server map_resolvers AF_INET = Some a ->
         get_map_resolver v4 v6 map_resolvers = Some (Some a, []))
  /\ (forall a : lisp_addr_t,
         v6 = true -> (v4 = false \/ get_server map_resolvers AF_INET = None) ->
         get_server map_resolvers AF_INET6 = Some a ->
         get_map_resolver v4 v6 map_resolvers = Some (Some a, []))
  /\ ((v4 = false \/ get_server map_resolvers AF_INET = None)
      /\ (v6 = false \/ get_server map_resolvers AF_INET6 = None)
      <-> get_map_resolver v4 v6 map_resolvers
          = Some (None,
                  [lispd_log_msg LISP_LOG_ERR
                     "No Map Resolver with a RLOC compatible with local RLOCs" []])).
Proof.
  unfold get_map_resolver.
  destruct v4, v6;
    destruct (get_server map_resolvers AF_INET) as [a4 |] eqn:E4;
    destruct (get_server map_resolvers AF_INET6) as [a6 |] eqn:E6;
    cbn [is_found negb andb value_of option_map fst ret bind emit app];
    (split; [| split; [| split]]);
    try (intros a H; injection H as <-);
    try (intros a H1 H2; try discriminate; injection H2 as <-; reflexivity);
    try (intros a H1 H2 H3; try discriminate;
         try (destruct H2 as [H2 | H2]; discriminate);
         injection H3 as <-; reflexivity);
    try (intros a H; discriminate H);
    try (split; [apply (get_server_some _ _ _ E4) || apply (get_server_some _ _ _ E6) |];
         first [ left; split; [apply (get_server_some _ _ _ E4) | reflexivity]
               | right; split; [apply (get_server_some _ _ _ E6) | reflexivity] ]);
    try (split; [intros [[H | H] [H' | H']]; try discriminate; reflexivity
                | intros H; try discriminate; split; auto ]).
Qed.

End Servers.

(** * The rotating buffers of the text of an address *)

Lemma nth_set_buffer_same (l : list (list ascii)) (n : nat) (v d : list ascii) :
  (n < List.length l)%nat -> nth n (set_buffer l n v) d = v.
Proof.
  revert n; induction l as [| x l IH]; intros n Hn; [cbn in Hn; lia |].
  destruct n as [| n]; [reflexivity |]. cbn. apply IH. cbn in Hn. lia.
Qed.

Lemma nth_set_buffer_other (l : list (list ascii)) (n m : nat) (v d : list ascii) :
  n <> m -> nth m (set_buffer l n v) d = nth m l d.
Proof.
  revert n m; induction l as [| x l IH]; intros n m Hnm; [destruct n; reflexivity |].
  destruct n as [| n], m as [| m]; try reflexivity; try contradiction.
  cbn. apply IH. congruence.
Qed.

Lemma length_set_buffer (l : list (list ascii)) (n : nat) (v : list ascii) :
  List.length (set_buffer l n v) = List.length l.
Proof.
  revert n; induction l as [| x l IH]; intros n; [destruct n; reflexivity |].
  destruct n as [| n]; cbn; [reflexivity | rewrite IH; reflexivity].
Qed.

Section RotatingBuffers.

Context {D : lispd_defs} {OK : lispd_defs_ok D}.

Variable inet_ntop : Z -> list byte -> list ascii.

Lemma next_index (st : format_state) :
  0 <= last_index st < 10 ->
  to_uint32 (last_index st + 1) mod 10 = (last_index st + 1) mod 10.
Proof.
  intros H. unfold to_uint32. rewrite (Z.mod_small (last_index st + 1)); [reflexivity |].
  change (2 ^ 32) with 4294967296. lia.
Qed.

Lemma get_char_state (st : format_state) (a : lisp_addr_t) :
  0 <= last_index st < 10 ->
  last_index (snd (get_char_from_lisp_addr_t inet_ntop st a)) = (last_index st + 1) mod 10
  /\ List.length (buffers (snd (get_char_from_lisp_addr_t inet_ntop st a)))
     = List.length (buffers st)
  /\ forall (j : nat) (d : list ascii),
      Z.of_nat j <> (last_index st + 1) mod 10 ->
      nth j (buffers (snd (get_char_from_lisp_addr_t inet_ntop st a))) d
      = nth j (buffers st) d.
Proof.
  intros Hi. unfold get_char_from_lisp_addr_t. rewrite (next_index st Hi).
  pose proof (Z.mod_pos_bound (last_index st + 1) 10 ltac:(lia)) as Hm.
  destruct (afi a =? AF_INET); [| destruct (afi a =? AF_INET6)]; cbn [snd last_index buffers];
    repeat split; try apply length_set_buffer;
    intros j d Hj; try reflexivity; apply nth_set_buffer_other; lia.
Qed.

Lemma format_all_state (addrs : list lisp_addr_t) (st : format_state) :
  0 <= last_index st < 10 ->
  last_index (format_all inet_ntop st addrs)
  = (last_index st + Z.of_nat (List.length addrs)) mod 10
  /\ List.length (buffers (format_all inet_ntop st addrs)) = List.length (buffers st).
Proof.
  revert st; induction addrs as [| a addrs IH]; intros st Hi.
  - cbn [format_all List.length]. rewrite Z.add_0_r, Z.mod_small by lia. auto.
  - cbn [format_all]. destruct (get_char_state st a Hi) as (Hn & Hl & _).
    pose proof (Z.mod_pos_bound (last_index st + 1) 10 ltac:(lia)) as Hm.
    destruct (IH (snd (get_char_from_lisp_addr_t inet_ntop st a))) as [IH1 IH2];
      [rewrite Hn; exact Hm |].
    rewrite IH1, IH2, Hn, Hl. split; [| reflexivity].
    rewrite Z.add_mod_idemp_l by lia. f_equal. cbn [List.length]. lia.
Qed.

Lemma format_all_keeps (addrs : list lisp_addr_t) (st : format_state) (j : nat)
    (k : Z) (d : list ascii) :
  0 <= Z.of_nat j < 10 -> 0 <= k ->
  last_index st = (Z.of_nat j + k) mod 10 ->
  k + Z.of_nat (List.length addrs) <= 9 ->
  nth j (buffers (format_all inet_ntop st addrs)) d = nth j (buffers st) d.
Proof.
  revert st k; induction addrs as [| a addrs IH]; intros st k Hj Hk Hst Hlen;
    [reflexivity |].
  cbn [format_all].
  assert (Hi : 0 <= last_index st < 10)
    by (rewrite Hst; apply Z.mod_pos_bound; lia).
  destruct (get_char_state st a Hi) as (Hn & _ & Hkeep).
  cbn [List.length] in Hlen.
  rewrite (IH _ (k + 1)); try lia.
  - apply Hkeep. rewrite Hst, Z.add_mod_idemp_l by lia.
    Z.div_mod_to_equations. lia.
  - rewrite Hn, Hst, Z.add_mod_idemp_l by lia. f_equal. lia.
Qed.

(** X24: The text that [get_char_from_lisp_addr_t] returns stays in its buffer
    while the function is called up to nine more times, whatever the
    addresses; the tenth call after it hands out the same buffer again
    and, for a V4 or V6 address, overwrites the text.  The static buffers
    start in a state that meets the hypotheses. *)
Theorem get_char_from_lisp_addr_t_reuse (st : format_state) (a : lisp_addr_t) :
  0 <= last_index st < 10 -> List.length (buffers st) = 10%nat ->
  afi a = AF_INET \/ afi a = AF_INET6 ->
  exists j : nat,
    fst (get_char_from_lisp_addr_t inet_ntop st a) = Some (Z.of_nat j)
    /\ (j < 10)%nat
    /\ (forall later : list lisp_addr_t,
           (List.length later <= 9)%nat ->
           nth j (buffers (format_all inet_ntop
                             (snd (get_char_from_lisp_addr_t inet_ntop st a)) later)) []
           = address_text inet_ntop a)
    /\ (forall (later : list lisp_addr_t) (b : lisp_addr_t),
           List.length later = 9%nat -> afi b = AF_INET \/ afi b = AF_INET6 ->
           let st' := format_all inet_ntop
                        (snd (get_char_from_lisp_addr_t inet_ntop st a)) later in
           fst (get_char_from_lisp_addr_t inet_ntop st' b) = Some (Z.of_nat j)
           /\ nth j (buffers (snd (get_char_from_lisp_addr_t inet_ntop st' b))) []
              = address_text inet_ntop b)
    /\ last_index initial_format_state = 0
    /\ List.length (buffers initial_format_state) = 10%nat.
Proof.
  pose proof family_distinct as Hf.
  intros Hi Hlen Hfam.
  pose proof (Z.mod_pos_bound (last_index st + 1) 10 ltac:(lia)) as Hm.
  exists (Z.to_nat ((last_index st + 1) mod 10)).
  rewrite Z2Nat.id by lia.
  assert (Hcall : forall (s : format_state) (x : lisp_addr_t),
             0 <= last_index s < 10 -> List.length (buffers s) = 10%nat ->
             afi x = AF_INET \/ afi x = AF_INET6 ->
             fst (get_char_from_lisp_addr_t inet_ntop s x)
             = Some ((last_index s + 1) mod 10)
             /\ nth (Z.to_nat ((last_index s + 1) mod 10))
                  (buffers (snd (get_char_from_lisp_addr_t inet_ntop s x))) []
                = address_text inet_ntop x).
  { intros s x Hs Hl Hx.
    pose proof (Z.mod_pos_bound (last_index s + 1) 10 ltac:(lia)) as Hms.
    unfold get_char_from_lisp_addr_t, address_text. rewrite (next_index s Hs).
    destruct Hx as [Hx | Hx]; rewrite Hx.
    - rewrite Z.eqb_refl. cbn [fst snd buffers]. split; [reflexivity |].
      apply nth_set_buffer_same. lia.
    - destruct (Z.eqb_spec AF_INET6 AF_INET); [intuition congruence |].
      rewrite Z.eqb_refl. cbn [fst snd buffers]. split; [reflexivity |].
      apply nth_set_buffer_same. lia. }
  destruct (Hcall st a Hi Hlen Hfam) as [Hfst Hnth].
  destruct (get_char_state st a Hi) as (Hn & Hl & _).
  split; [exact Hfst |]. split; [lia |]. split; [| split; [| split; reflexivity]].
  - intros later Hlater.
    rewrite (format_all_keeps later _ _ 0); try lia.
    + exact Hnth.
    + rewrite Hn, Z2Nat.id, Z.add_0_r, Z.mod_mod by lia. reflexivity.
  - intros later b Hlater Hb st'.
    destruct (format_all_state later
                (snd (get_char_from_lisp_addr_t inet_ntop st a))) as [Hidx Hlen'];
      [rewrite Hn; exact Hm |].
    fold st' in Hidx, Hlen'.
    assert (Hi' : 0 <= last_index st' < 10)
      by (rewrite Hidx; apply Z.mod_pos_bound; lia).
    assert (Hsame : (last_index st' + 1) mod 10 = (last_index st + 1) mod 10).
    { rewrite Hidx, Hn, Hlater. change (Z.of_nat 9) with 9.
      generalize (last_index st + 1). intros x.
      Z.div_mod_to_equations. lia. }
    destruct (Hcall st' b Hi' ltac:(congruence) Hb) as [Hfst' Hnth'].
    rewrite Hsame in Hfst', Hnth'. split; assumption.
Qed.

End RotatingBuffers.

(** * Waiting for input *)

Section Waiting.

Context {D : lispd_defs}.

(** X25: [have_input] calls [select] again after every failure with EINTR and
    returns on the first other outcome: GOOD when [select] succeeds, BAD
    with a log entry when it fails otherwise.  While [select] keeps
    failing with EINTR it does not return. *)
Theorem have_input_retries (k : nat) (later : list select_outcome) :
  have_input (repeat select_EINTR k ++ select_done :: later) = Some (ret GOOD, later)
  /\ have_input (repeat select_EINTR k ++ select_failed :: later)
     = Some (Some (BAD, [lispd_log_msg LISP_LOG_DEBUG_2 "have_input: select error: %s"
                           [arg_strerror_errno]]), later)
  /\ have_input (repeat select_EINTR k) = None.
Proof.
  induction k as [| k (IH1 & IH2 & IH3)]; [repeat split |].
  cbn [repeat app have_input]. auto.
Qed.

End Waiting.

(** * Socket addresses *)

Section SocketAddresses.

Context {D : lispd_defs} {OK : lispd_defs_ok D}.

(** X26: An address of family V4 or V6 written to a socket address by
    [inaddr2sockaddr] and read back by [copy_addr_from_sockaddr] has the
    family it had and compares as Equal to the original, whatever the port
    and whatever the destination held; both calls return GOOD and log
    nothing.  [inaddr2sockaddr] returns GOOD for these two families
    only. *)
Theorem sockaddr_round_trip (a dest : lisp_addr_t) (port : Z) :
  (afi a = AF_INET \/ afi a = AF_INET6 ->
   exists (sa : sockaddr) (a' : lisp_addr_t),
     inaddr2sockaddr a port = ret (GOOD, sa)
     /\ sa_family sa = afi a
     /\ copy_addr_from_sockaddr sa dest = ret (GOOD, a')
     /\ afi a' = afi a
     /\ compare_lisp_addr_t (Some a') (Some a) = 0)
  /\ (forall (r : Z) (sa : sockaddr) (es : list event),
         inaddr2sockaddr a port = Some ((r, sa), es) ->
         r = GOOD -> afi a = AF_INET \/ afi a = AF_INET6).
Proof.
  pose proof family_distinct as Hf.
  pose proof err_afi_distinct as He.
  assert (H64 : (AF_INET6 =? AF_INET) = false) by (apply Z.eqb_neq; intuition congruence).
  split.
  - intros [H | H].
    + eexists. eexists. unfold inaddr2sockaddr. rewrite H, Z.eqb_refl.
      split; [reflexivity |]. cbn [sa_family]. split; [reflexivity |].
      unfold copy_addr_from_sockaddr. cbn [afi sa_family]. rewrite Z.eqb_refl.
      split; [reflexivity |]. cbn [afi]. split; [reflexivity |].
      apply compare_equal_payload; cbn [afi]; auto.
      unfold payload. cbn [afi address set_ip word0 sin_addr].
      rewrite H, Z.eqb_refl, store32_load32. reflexivity.
    + eexists. eexists. unfold inaddr2sockaddr. rewrite H, H64, Z.eqb_refl.
      split; [reflexivity |]. cbn [sa_family]. split; [reflexivity |].
      unfold copy_addr_from_sockaddr. cbn [afi sa_family].
      rewrite H64, Z.eqb_refl.
      split; [reflexivity |]. cbn [afi]. split; [reflexivity |].
      apply compare_equal_payload; cbn [afi]; auto.
      unfold payload. cbn [afi address sin6_addr].
      rewrite H, H64, union_of_bytes_of_union. reflexivity.
  - intros r sa es Hrun Hr. unfold inaddr2sockaddr in Hrun.
    destruct (Z.eqb_spec (afi a) AF_INET); [auto |].
    destruct (Z.eqb_spec (afi a) AF_INET6); [auto |].
    cbn in Hrun. injection Hrun as Hr' _ _. intuition congruence.
Qed.

(** X27: For V4 and V6, [get_lisp_afi] gives the tag that [inet2lispafi]
    gives and stores the length that [get_addr_len] gives, [lisp2inetafi]
    takes the tag back to the family, and the prefix length of the family
    is eight times the stored length.  Every other family, Unspecified and
    LCAF included, is reported as unknown: BAD truncated to sixteen bits
    is returned, [*len] is left as it was and one entry is logged. *)
Theorem get_lisp_afi_spec (family : Z) (len : option Z) :
  (family = AF_INET \/ family = AF_INET6 ->
   exists tag n : Z,
     get_lisp_afi family len = ret (tag, option_map (fun _ => n) len)
     /\ inet2lispafi family = ret tag
     /\ get_addr_len family = ret n
     /\ get_prefix_len family = ret (n * 8)
     /\ lisp2inetafi tag = ret family)
  /\ (family <> AF_INET -> family <> AF_INET6 ->
      get_lisp_afi family len
      = Some ((to_uint16 BAD, len),
              [lispd_log_msg LISP_LOG_DEBUG_2 "get_lisp_afi: unknown AFI (%d)"
                 [arg_int family]])).
Proof.
  pose proof family_distinct as Hf.
  pose proof lcaf_distinct as Hl.
  split.
  - intros [H | H]; subst family.
    + exists LISP_AFI_IP, 4.
      unfold get_lisp_afi, inet2lispafi, get_prefix_len, get_addr_len, lisp2inetafi.
      rewrite Z.eqb_refl.
      destruct (Z.eqb_spec AF_INET AF_UNSPEC); [intuition congruence |].
      repeat split.
    + exists LISP_AFI_IPV6, 16.
      unfold get_lisp_afi, inet2lispafi, get_prefix_len, get_addr_len, lisp2inetafi.
      destruct (Z.eqb_spec AF_INET6 AF_INET); [intuition congruence |].
      destruct (Z.eqb_spec AF_INET6 AF_UNSPEC); [intuition congruence |].
      rewrite Z.eqb_refl. repeat split.
  - intros H4 H6. unfold get_lisp_afi.
    destruct (Z.eqb_spec family AF_INET); [contradiction |].
    destruct (Z.eqb_spec family AF_INET6); [contradiction |].
    reflexivity.
Qed.

End SocketAddresses.

(** * Addresses and prefixes in text, the edges *)

Lemma c_string_slashes (k : nat) (rest : list ascii) :
  c_string (repeat "/"%char k ++ rest) = repeat "/"%char k ++ c_string rest.
Proof.
  induction k as [| k IH]; [reflexivity |].
  cbn [repeat app c_string]. change (is_char "/" NUL) with false. cbn iota.
  rewrite IH. reflexivity.
Qed.

Lemma skip_delims_slashes (k : nat) (rest : list ascii) :
  skip_delims ["/"%char] (repeat "/"%char k ++ rest) = skip_delims ["/"%char] rest.
Proof.
  induction k as [| k IH]; [reflexivity |].
  cbn [repeat app skip_delims]. change (is_delim ["/"%char] "/") with true. cbn iota.
  exact IH.
Qed.

Lemma strtok_slashes (k : nat) (t rest : list ascii) (saved : option (list ascii)) :
  plain_token t = true -> t <> [] ->
  strtok (Some (repeat "/"%char k ++ t ++ "/"%char :: rest)) ["/"%char] saved
  = (Some t, Some (c_string rest))
  /\ strtok None ["/"%char] (Some (repeat "/"%char k ++ t ++ "/"%char :: rest))
     = (Some t, Some rest).
Proof.
  intros Hp Hne.
  destruct (split_token_plain t Hp) as [Hs _].
  unfold strtok.
  rewrite c_string_slashes, c_string_plain by exact Hp. cbn [c_string].
  change (is_char "/" NUL) with false. cbn iota.
  rewrite !skip_delims_slashes, !skip_delims_plain by assumption.
  pose proof (Hs rest) as Hs1. pose proof (Hs (c_string rest)) as Hs2.
  destruct t as [| c t]; [contradiction |].
  cbn [app] in *. rewrite Hs1, Hs2. split; reflexivity.
Qed.

Section TextEdges.

Context {D : lispd_defs} {OK : lispd_defs_ok D}.

Variable inet_pton : Z -> list ascii -> option (list byte).

(** X28: [get_lisp_addr_from_char] asks [inet_pton] for the family that
    [get_afi] chooses, V6 when the text has a colon and V4 otherwise.  If
    the text is no literal of that family it returns BAD, sets the family
    of the destination to Unspecified, keeps its address bytes and logs
    one entry; if it is, the result is GOOD and the family is the chosen
    one. *)
Theorem get_lisp_addr_from_char_outcome (addr_str : list ascii) (lisp_addr : lisp_addr_t) :
  (inet_pton (get_afi addr_str) addr_str = None ->
   get_lisp_addr_from_char inet_pton addr_str lisp_addr
   = Some ((BAD, {| address := address lisp_addr; afi := AF_UNSPEC |}),
           [lispd_log_msg LISP_LOG_DEBUG_2
              "get_lisp_addr_from_char: Error parsing the string of the address: %s"
              [arg_str addr_str]]))
  /\ (forall bytes : list byte,
         inet_pton (get_afi addr_str) addr_str = Some bytes ->
         List.length bytes = (if is_found (strchr addr_str ":") then 16%nat else 4%nat) ->
         exists a : lisp_addr_t,
           get_lisp_addr_from_char inet_pton addr_str lisp_addr = ret (GOOD, a)
           /\ afi a = (if is_found (strchr addr_str ":") then AF_INET6 else AF_INET)
           /\ payload a = bytes).
Proof.
  pose proof family_distinct as Hf.
  pose proof err_afi_distinct as He.
  pose proof codes_uint8 as [Hg Hb].
  assert (Hgood : to_uint8 GOOD = GOOD) by (apply Z.mod_small; exact Hg).
  assert (Hbad : to_uint8 BAD = BAD) by (apply Z.mod_small; exact Hb).
  assert (Hafi : get_afi addr_str = AF_INET \/ get_afi addr_str = AF_INET6).
  { unfold get_afi. destruct (is_found _); auto. }
  split.
  - intros Hnone. unfold get_lisp_addr_from_char. cbn [afi address].
    destruct Hafi as [Hafi | Hafi]; rewrite Hafi in *.
    + rewrite Z.eqb_refl, Hnone, Hbad, Z.eqb_refl. reflexivity.
    + destruct (Z.eqb_spec AF_INET6 AF_INET); [intuition congruence |].
      rewrite Z.eqb_refl, Hnone, Hbad, Z.eqb_refl. reflexivity.
  - intros bytes Hsome Hlen.
    exists (parsed_address addr_str bytes lisp_addr).
    split; [apply get_lisp_addr_from_char_literal; exact Hsome |].
    split; [reflexivity |].
    unfold payload, parsed_address. cbn [afi address].
    unfold get_afi in *.
    destruct (is_found (strchr addr_str ":")).
    + destruct (Z.eqb_spec AF_INET6 AF_INET); [intuition congruence |].
      do 16 (destruct bytes as [| ? bytes]; [discriminate Hlen |]).
      destruct bytes; [| discriminate Hlen]. reflexivity.
    + rewrite Z.eqb_refl.
      do 4 (destruct bytes as [| ? bytes]; [discriminate Hlen |]).
      destruct bytes; [| discriminate Hlen]. reflexivity.
Qed.

(** X29: [strtok] skips the slashes before a token and the function reads two
    tokens only: leading slashes, repeated slashes between the address and
    the length, and anything after a slash that follows the length change
    nothing.  A text of slashes only, or an empty one, has no token: the
    result is BAD with one log entry and nothing is written. *)
Theorem get_lisp_addr_and_mask_from_char_slashes (k j : nat)
    (addr_tok len_tok junk : list ascii) (lisp_addr : lisp_addr_t) (mask : Z) :
  (plain_token addr_tok = true -> addr_tok <> [] ->
   plain_token len_tok = true -> len_tok <> [] ->
   get_lisp_addr_and_mask_from_char inet_pton
     (repeat "/"%char k ++ addr_tok ++ "/"%char
        :: repeat "/"%char j ++ len_tok ++ "/"%char :: junk) lisp_addr mask
   = get_lisp_addr_and_mask_from_char inet_pton (addr_tok ++ "/"%char :: len_tok)
       lisp_addr mask)
  /\ get_lisp_addr_and_mask_from_char inet_pton (repeat "/"%char k) lisp_addr mask
     = Some ((BAD, lisp_addr, mask),
             [lispd_log_msg LISP_LOG_DEBUG_1
                "get_lisp_addr_and_mask_from_char: Prefix not of the form prefix/length: %s"
                [arg_str (repeat "/"%char k)]]).
Proof.
  split.
  - intros Ha Hane Hl Hlne.
    unfold get_lisp_addr_and_mask_from_char.
    destruct (strtok_slashes k addr_tok
                (repeat "/"%char j ++ len_tok ++ "/"%char :: junk) None Ha Hane)
      as [Hfirst _].
    rewrite Hfirst, (strtok_first addr_tok len_tok Ha Hane Hl).
    rewrite c_string_slashes, c_string_plain by exact Hl. cbn [c_string].
    change (is_char "/" NUL) with false. cbn iota.
    destruct (strtok_slashes j len_tok (c_string junk) None Hl Hlne) as [_ Hnext].
    rewrite Hnext, (strtok_second len_tok Hl).
    destruct len_tok as [| c t]; [contradiction |]. reflexivity.
  - unfold get_lisp_addr_and_mask_from_char, strtok.
    rewrite <- (app_nil_r (repeat "/"%char k)) at 1.
    rewrite c_string_slashes, skip_delims_slashes. reflexivity.
Qed.

End TextEdges.

(** * The further properties on the Linux build *)

Lemma process_lisp_ctr_msg_receive_failure_linux :
  process_lisp_ctr_msg (D := linux_defs) unit
    (fun _ _ w => ((0, [], no_address (D := linux_defs), 0), w))
    (fun _ _ _ => idle_handler (D := linux_defs))
    (fun _ => idle_handler (D := linux_defs))
    (fun _ => idle_handler (D := linux_defs))
    (fun _ => idle_handler (D := linux_defs))
    (fun _ _ => idle_handler (D := linux_defs)) 3 2 tt
  = (0, [], tt).
Proof.
  apply (@process_lisp_ctr_msg_receive_failure linux_defs unit
           (fun _ _ w => ((0, [], no_address (D := linux_defs), 0), w))
           (fun _ _ _ => idle_handler (D := linux_defs))
           (fun _ => idle_handler (D := linux_defs))
           (fun _ => idle_handler (D := linux_defs))
           (fun _ => idle_handler (D := linux_defs))
           (fun _ _ => idle_handler (D := linux_defs))
           3 2 tt tt 0 [] (no_address (D := linux_defs)) 0).
  - reflexivity.
  - discriminate.
Defined.

Lemma process_lisp_ctr_msg_map_request_linux :
  exists es : list event,
    process_lisp_ctr_msg (D := linux_defs) unit
      (idle_socket (D := linux_defs) (map byte.of_Z [0x80; 0; 0; 1]))
      (fun _ _ _ => idle_handler (D := linux_defs))
      (fun _ => idle_handler (D := linux_defs))
      (fun _ => idle_handler (D := linux_defs))
      (fun _ => idle_handler (D := linux_defs))
      (fun _ _ => idle_handler (D := linux_defs)) 3 2 tt
    = (1, es, tt)
    /\ filter is_handler_call es
       = [call_process_map_request_msg (map byte.of_Z [0x80; 0; 0; 1])
            (no_address (D := linux_defs)) 4342].
Proof.
  destruct (@process_lisp_ctr_msg_map_request linux_defs linux_defs_ok unit
              (idle_socket (D := linux_defs) (map byte.of_Z [0x80; 0; 0; 1]))
              (fun _ _ _ => idle_handler (D := linux_defs))
              (fun _ => idle_handler (D := linux_defs))
              (fun _ => idle_handler (D := linux_defs))
              (fun _ => idle_handler (D := linux_defs))
              (fun _ _ => idle_handler (D := linux_defs))
              3 2 tt tt tt (map byte.of_Z [0x80; 0; 0; 1])
              (no_address (D := linux_defs)) 4342 1) as (es & Hrun & Hcalls & _).
  - reflexivity.
  - reflexivity.
  - right. reflexivity.
  - exists es. split; [exact Hrun | exact Hcalls].
Defined.

Lemma process_lisp_ctr_msg_routes_linux :
  exists es : list event,
    process_lisp_ctr_msg (D := linux_defs) unit
      (idle_socket (D := linux_defs) (map byte.of_Z [0x40; 0; 0; 1]))
      (fun _ _ _ => idle_handler (D := linux_defs))
      (fun _ => idle_handler (D := linux_defs))
      (fun _ => idle_handler (D := linux_defs))
      (fun _ => idle_handler (D := linux_defs))
      (fun _ _ => idle_handler (D := linux_defs)) 3 2 tt
    = (1, es, tt)
    /\ filter is_handler_call es
       = [call_process_map_notify (map byte.of_Z [0x40; 0; 0; 1])].
Proof.
  destruct (@process_lisp_ctr_msg_routes linux_defs linux_defs_ok unit
              (idle_socket (D := linux_defs) (map byte.of_Z [0x40; 0; 0; 1]))
              (fun _ _ _ => idle_handler (D := linux_defs))
              (fun _ => idle_handler (D := linux_defs))
              (fun _ => idle_handler (D := linux_defs))
              (fun _ => idle_handler (D := linux_defs))
              (fun _ _ => idle_handler (D := linux_defs))
              3 2 tt tt (map byte.of_Z [0x40; 0; 0; 1])
              (no_address (D := linux_defs)) 4342 eq_refl
              (call_process_map_notify (map byte.of_Z [0x40; 0; 0; 1]))
              (idle_handler (D := linux_defs))) as (es & Hrun & Hcalls).
  - right. left. repeat split.
  - exists es. split; [exact Hrun | exact Hcalls].
Defined.

(** Two V4 addresses that differ after the fourth byte only are Equal. *)
Lemma compare_lisp_addr_t_equal_iff_linux :
  compare_lisp_addr_t (D := linux_defs)
    (Some (ipv4 (D := linux_defs) 10 0 0 1))
    (Some {| address := set_ip (address (ipv6 (D := linux_defs) 0 0 0xdead 0xbeef 0 0 0 1))
                          (word0 (address (ipv4 (D := linux_defs) 10 0 0 1)));
             afi := 2 |}) = 0.
Proof.
  apply (@compare_lisp_addr_t_equal_iff linux_defs linux_defs_ok).
  split; [reflexivity |]. split; [left; reflexivity | reflexivity].
Defined.

Lemma compare_lisp_addr_t_numeric_linux :
  compare_lisp_addr_t (D := linux_defs)
    (Some (ipv4 (D := linux_defs) 10 0 0 1))
    (Some (ipv4 (D := linux_defs) 9 255 255 255)) = 1.
Proof.
  rewrite (@compare_lisp_addr_t_numeric linux_defs linux_defs_ok
             (ipv4 (D := linux_defs) 10 0 0 1) (ipv4 (D := linux_defs) 9 255 255 255)).
  - vm_compute. reflexivity.
  - reflexivity.
  - left. reflexivity.
Defined.

(** A V4 copy over a V6 address keeps the last twelve bytes of the
    destination. *)
Lemma copy_lisp_addr_spec_linux :
  copy_lisp_addr (D := linux_defs)
    (ipv6 (D := linux_defs) 0x2001 0xdb8 0 0 0 0 0 1) (ipv4 (D := linux_defs) 10 0 0 1)
  = {| address := {| word0 := word0 (address (ipv4 (D := linux_defs) 10 0 0 1));
                     word1 := group16 0 0; word2 := group16 0 0; word3 := group16 0 1 |};
       afi := 2 |}.
Proof.
  destruct (@copy_lisp_addr_spec linux_defs linux_defs_ok
              (ipv6 (D := linux_defs) 0x2001 0xdb8 0 0 0 0 0 1)
              (ipv4 (D := linux_defs) 10 0 0 1)) as (H & _).
  apply H. reflexivity.
Defined.

Lemma clone_lisp_addr_spec_linux :
  exists c : lisp_addr_t,
    clone_lisp_addr (D := linux_defs) (Some (no_address (D := linux_defs)))
      (ipv4 (D := linux_defs) 10 0 0 1) = Some (Some c, []).
Proof.
  destruct (@clone_lisp_addr_spec linux_defs linux_defs_ok
              (Some (no_address (D := linux_defs))) (ipv4 (D := linux_defs) 10 0 0 1))
    as (_ & H & _).
  apply H; [discriminate | left; reflexivity].
Defined.

Lemma copy_addr_writes_payload_linux :
  copy_addr (D := linux_defs) (map byte.of_Z [1; 2; 3; 4; 5; 6])
    (ipv4 (D := linux_defs) 10 0 0 1) 0
  = Some ((4, map byte.of_Z [10; 0; 0; 1; 5; 6]), []).
Proof.
  destruct (@copy_addr_writes_payload linux_defs linux_defs_ok
              (map byte.of_Z [1; 2; 3; 4; 5; 6]) (ipv4 (D := linux_defs) 10 0 0 1))
    as (H & _).
  destruct H as (H & _); [left; reflexivity | simpl; lia |]. exact H.
Defined.

(** On the little-endian build the conversion reverses the four bytes. *)
Lemma copy_addr_convert_linux :
  copy_addr (D := linux_defs) (map byte.of_Z [1; 2; 3; 4; 5; 6])
    (ipv4 (D := linux_defs) 10 0 0 1) 1
  = Some ((4, map byte.of_Z [1; 0; 0; 10; 5; 6]), []).
Proof.
  destruct (@copy_addr_convert linux_defs linux_defs_ok
              (map byte.of_Z [1; 2; 3; 4; 5; 6]) (ipv4 (D := linux_defs) 10 0 0 1) 1)
    as (H & _); [discriminate |].
  destruct (H eq_refl ltac:(simpl; lia)
              (byte.of_Z 10) (byte.of_Z 0) (byte.of_Z 0) (byte.of_Z 1) eq_refl)
    as (Hrun & _).
  exact Hrun.
Defined.

Lemma wire_round_trip_linux :
  exists a' : lisp_addr_t,
    extract_lisp_address (D := linux_defs) (map byte.of_Z [0; 1; 10; 0; 0; 1])
      (ipv6 (D := linux_defs) 0x2001 0xdb8 0 0 0 0 0 1)
    = Some ((1, a'), [])
    /\ afi a' = 2
    /\ compare_lisp_addr_t (D := linux_defs) (Some a')
         (Some (ipv4 (D := linux_defs) 10 0 0 1)) = 0.
Proof.
  apply (@wire_round_trip linux_defs linux_defs_ok
           (ipv4 (D := linux_defs) 10 0 0 1)
           (ipv6 (D := linux_defs) 0x2001 0xdb8 0 0 0 0 0 1)
           (map byte.of_Z [0; 0; 0; 0]) (byte.of_Z 0) (byte.of_Z 1) 1 4
           (map byte.of_Z [10; 0; 0; 1])).
  - left. reflexivity.
  - reflexivity.
  - vm_compute. reflexivity.
  - vm_compute. reflexivity.
Defined.

Lemma get_network_address_twice_linux :
  (n <- get_network_address (D := linux_defs) (ipv4 (D := linux_defs) 192 168 1 130) 24 ;;
   get_network_address (D := linux_defs) n 16)
  = get_network_address (D := linux_defs) (ipv4 (D := linux_defs) 192 168 1 130) 16.
Proof.
  apply (@get_network_address_twice linux_defs linux_defs_ok
           (ipv4 (D := linux_defs) 192 168 1 130) 16 24).
  - left. split; [reflexivity | lia].
  - lia.
Defined.

Lemma is_prefix_b_part_of_a_transitive_linux :
  is_prefix_b_part_of_a (D := linux_defs)
    (ipv4 (D := linux_defs) 10 0 0 0) 8 (ipv4 (D := linux_defs) 10 1 2 0) 24
  = Some (1, []).
Proof.
  apply (@is_prefix_b_part_of_a_transitive linux_defs linux_defs_ok
           (ipv4 (D := linux_defs) 10 0 0 0) (ipv4 (D := linux_defs) 10 1 0 0)
           (ipv4 (D := linux_defs) 10 1 2 0) 8 16 24).
  - left. split; [reflexivity | lia].
  - left. split; [reflexivity | lia].
  - vm_compute. reflexivity.
  - vm_compute. reflexivity.
Defined.

Lemma get_network_address_extremes_linux :
  get_network_address (D := linux_defs) (ipv4 (D := linux_defs) 10 1 2 3) 0
  = Some ({| address := zero_union; afi := 2 |}, [])
  /\ is_prefix_b_part_of_a (D := linux_defs)
       (ipv4 (D := linux_defs) 10 1 2 3) 0 (ipv4 (D := linux_defs) 192 168 1 130) 24
     = Some (1, []).
Proof.
  destruct (@get_network_address_extremes linux_defs linux_defs_ok
              (ipv4 (D := linux_defs) 10 1 2 3)) as (H0 & Hall & _);
    [left; reflexivity |].
  split; [exact H0 |].
  apply (Hall (ipv4 (D := linux_defs) 192 168 1 130) 24); [reflexivity | lia].
Defined.

(** 192.168.1.130 is 3232235906; rounded down to a multiple of 256 it is
    3232235776, which is 192.168.1.0. *)
Lemma get_network_address_rounds_linux :
  exists n : lisp_addr_t,
    get_network_address (D := linux_defs) (ipv4 (D := linux_defs) 192 168 1 130) 24
    = Some (n, [])
    /\ be_value (payload (D := linux_defs) n) = 3232235906 / 256 * 256.
Proof.
  destruct (@get_network_address_rounds linux_defs linux_defs_ok
              (ipv4 (D := linux_defs) 192 168 1 130) 24) as (n & Hrun & _ & Hval).
  - left. split; [reflexivity | lia].
  - exists n. split; [exact Hrun | exact Hval].
Defined.

Lemma is_link_local_addr_containment_linux :
  is_link_local_addr (D := linux_defs) (dotted_quad_pton (D := linux_defs))
    (ipv4 (D := linux_defs) 169 254 10 20) = 1
  /\ is_link_local_addr (D := linux_defs) (dotted_quad_pton (D := linux_defs))
       (ipv6 (D := linux_defs) 0xfe80 0 0 0 0 0 0 1) = 1.
Proof.
  split.
  - destruct (@is_link_local_addr_containment linux_defs linux_defs_ok
                (dotted_quad_pton (D := linux_defs)) eq_refl eq_refl
                (ipv4 (D := linux_defs) 169 254 10 20)) as (H & _).
    apply (H eq_refl). vm_compute. reflexivity.
  - destruct (@is_link_local_addr_containment linux_defs linux_defs_ok
                (dotted_quad_pton (D := linux_defs)) eq_refl eq_refl
                (ipv6 (D := linux_defs) 0xfe80 0 0 0 0 0 0 1)) as (_ & H & _).
    apply (H eq_refl). vm_compute. reflexivity.
Defined.

Lemma convert_hex_char_to_byte_spec_example :
  convert_hex_char_to_byte (hex_char true 11) = 11
  /\ convert_hex_char_to_byte "g" = -1.
Proof.
  destruct convert_hex_char_to_byte_spec as (Hc & Hv).
  split.
  - apply (Hv true 11). lia.
  - destruct (Hc "g"%char) as (_ & H & _). apply H. reflexivity.
Defined.

Lemma convert_hex_string_to_bytes_round_trip_linux :
  convert_hex_string_to_bytes (D := linux_defs) (text "dead")
    (map byte.of_Z [1; 2; 3; 4]) 2
  = Some (Some ((1, map byte.of_Z [0xde; 0xad; 3; 4]), [])).
Proof.
  apply (@convert_hex_string_to_bytes_round_trip linux_defs false
           (map byte.of_Z [0xde; 0xad]) (map byte.of_Z [1; 2; 3; 4])).
  simpl. lia.
Defined.

(** One character too many is accepted and ignored. *)
Lemma convert_hex_string_to_bytes_accepts_linux :
  convert_hex_string_to_bytes (D := linux_defs) (text "dead7")
    (map byte.of_Z [1; 2; 3; 4]) 2
  = Some (Some ((1, map byte.of_Z [0xde; 0xad; 3; 4]), [])).
Proof.
  destruct (@convert_hex_string_to_bytes_accepts linux_defs linux_defs_ok
              (text "dead7") (map byte.of_Z [1; 2; 3; 4]) 2) as (_ & H).
  - reflexivity.
  - simpl. lia.
  - apply (H (map byte.of_Z [0xde; 0xad])); [reflexivity | simpl; lia].
Defined.

(** Two digits where four are expected: the function reads past the end
    of the string. *)
Lemma convert_hex_string_to_bytes_short_linux :
  convert_hex_string_to_bytes (D := linux_defs) (text "de")
    (map byte.of_Z [1; 2; 3; 4]) 2 = Some None.
Proof.
  destruct (@convert_hex_string_to_bytes_short linux_defs
              (text "de") (map byte.of_Z [1; 2; 3; 4]) 2) as (H & _).
  - reflexivity.
  - simpl. lia.
  - simpl. lia.
  - apply H. reflexivity.
Defined.

Lemma add_lisp_addr_to_list_lookup_linux :
  get_server (ipv4 (D := linux_defs) 10 0 0 1
              :: [ipv6 (D := linux_defs) 0x2001 0xdb8 0 0 0 0 0 1]) 10
  = get_server [ipv6 (D := linux_defs) 0x2001 0xdb8 0 0 0 0 0 1] 10.
Proof.
  destruct (@add_lisp_addr_to_list_lookup linux_defs (ipv4 (D := linux_defs) 10 0 0 1)
              [ipv6 (D := linux_defs) 0x2001 0xdb8 0 0 0 0 0 1]) as (_ & _ & H & _).
  apply (H 10). discriminate.
Defined.

Lemma get_server_first_linux :
  get_server [ipv4 (D := linux_defs) 10 0 0 1;
              ipv6 (D := linux_defs) 0x2001 0xdb8 0 0 0 0 0 1;
              ipv6 (D := linux_defs) 0x2001 0xdb8 0 0 0 0 0 2] 10
  = Some (ipv6 (D := linux_defs) 0x2001 0xdb8 0 0 0 0 0 1).
Proof.
  destruct (get_server_first
              [ipv4 (D := linux_defs) 10 0 0 1;
               ipv6 (D := linux_defs) 0x2001 0xdb8 0 0 0 0 0 1;
               ipv6 (D := linux_defs) 0x2001 0xdb8 0 0 0 0 0 2] 10) as (H & _).
  apply H.
  exists [ipv4 (D := linux_defs) 10 0 0 1],
         [ipv6 (D := linux_defs) 0x2001 0xdb8 0 0 0 0 0 2].
  split; [reflexivity |]. split; [reflexivity |].
  intros x [<- | []]. discriminate.
Defined.

(** With no V4 control interface the V6 resolver is chosen although a V4
    resolver comes first in the list. *)
Lemma get_map_resolver_spec_linux :
  get_map_resolver (D := linux_defs) false true
    [ipv4 (D := linux_defs) 10 0 0 1; ipv6 (D := linux_defs) 0x2001 0xdb8 0 0 0 0 0 1]
  = Some (Some (ipv6 (D := linux_defs) 0x2001 0xdb8 0 0 0 0 0 1), []).
Proof.
  destruct (@get_map_resolver_spec linux_defs false true
              [ipv4 (D := linux_defs) 10 0 0 1;
               ipv6 (D := linux_defs) 0x2001 0xdb8 0 0 0 0 0 1]) as (_ & _ & H & _).
  apply H; [reflexivity | left; reflexivity | reflexivity].
Defined.

Lemma get_char_from_lisp_addr_t_reuse_linux :
  exists j : nat,
    fst (get_char_from_lisp_addr_t (D := linux_defs) (fun _ => hex_of_bytes false)
           initial_format_state (ipv4 (D := linux_defs) 10 0 0 1)) = Some (Z.of_nat j)
    /\ nth j (buffers
                (format_all (D := linux_defs) (fun _ => hex_of_bytes false)
                   (snd (get_char_from_lisp_addr_t (D := linux_defs)
                           (fun _ => hex_of_bytes false) initial_format_state
                           (ipv4 (D := linux_defs) 10 0 0 1)))
                   [ipv4 (D := linux_defs) 10 0 0 2; no_address (D := linux_defs)])) []
       = text "0a000001".
Proof.
  destruct (@get_char_from_lisp_addr_t_reuse linux_defs linux_defs_ok
              (fun _ => hex_of_bytes false) initial_format_state
              (ipv4 (D := linux_defs) 10 0 0 1)) as (j & Hj & _ & Hkeep & _).
  - simpl. lia.
  - reflexivity.
  - left. reflexivity.
  - exists j. split; [exact Hj |].
    apply (Hkeep [ipv4 (D := linux_defs) 10 0 0 2; no_address (D := linux_defs)]).
    simpl. lia.
Defined.

Lemma sockaddr_round_trip_linux :
  exists (sa : sockaddr) (a' : lisp_addr_t),
    inaddr2sockaddr (D := linux_defs)
      (ipv6 (D := linux_defs) 0x2001 0xdb8 0 0 0 0 0 1) 4342 = Some ((1, sa), [])
    /\ sa_family sa = 10
    /\ copy_addr_from_sockaddr (D := linux_defs) sa (ipv4 (D := linux_defs) 10 0 0 1)
       = Some ((1, a'), [])
    /\ afi a' = 10
    /\ compare_lisp_addr_t (D := linux_defs) (Some a')
         (Some (ipv6 (D := linux_defs) 0x2001 0xdb8 0 0 0 0 0 1)) = 0.
Proof.
  destruct (@sockaddr_round_trip linux_defs linux_defs_ok
              (ipv6 (D := linux_defs) 0x2001 0xdb8 0 0 0 0 0 1)
              (ipv4 (D := linux_defs) 10 0 0 1) 4342) as (H & _).
  apply H. right. reflexivity.
Defined.

(** The Unspecified family has a protocol tag and a length of its own,
    yet [get_lisp_afi] reports it as unknown. *)
Lemma get_lisp_afi_spec_linux :
  get_lisp_afi (D := linux_defs) 0 (Some 7)
  = Some ((0, Some 7),
          [lispd_log_msg LISP_LOG_DEBUG_2 "get_lisp_afi: unknown AFI (%d)" [arg_int 0]]).
Proof.
  destruct (@get_lisp_afi_spec linux_defs linux_defs_ok 0 (Some 7)) as (_ & H).
  apply H; discriminate.
Defined.

Lemma get_lisp_addr_from_char_outcome_linux :
  get_lisp_addr_from_char (D := linux_defs) (dotted_quad_pton (D := linux_defs))
    (text "10.0.0.256") (ipv4 (D := linux_defs) 1 2 3 4)
  = Some ((0, {| address := address (ipv4 (D := linux_defs) 1 2 3 4); afi := 0 |}),
          [lispd_log_msg LISP_LOG_DEBUG_2
             "get_lisp_addr_from_char: Error parsing the string of the address: %s"
             [arg_str (text "10.0.0.256")]]).
Proof.
  destruct (@get_lisp_addr_from_char_outcome linux_defs linux_defs_ok
              (dotted_quad_pton (D := linux_defs)) (text "10.0.0.256")
              (ipv4 (D := linux_defs) 1 2 3 4)) as (H & _).
  apply H. vm_compute. reflexivity.
Defined.

Lemma get_lisp_addr_and_mask_from_char_slashes_linux :
  get_lisp_addr_and_mask_from_char (D := linux_defs) (dotted_quad_pton (D := linux_defs))
    (text "/10.0.0.0//8/x") (no_address (D := linux_defs)) 0
  = get_lisp_addr_and_mask_from_char (D := linux_defs) (dotted_quad_pton (D := linux_defs))
      (text "10.0.0.0/8") (no_address (D := linux_defs)) 0.
Proof.
  destruct (@get_lisp_addr_and_mask_from_char_slashes linux_defs
              (dotted_quad_pton (D := linux_defs)) 1 1 (text "10.0.0.0") (text "8")
              (text "x") (no_address (D := linux_defs)) 0) as (H & _).
  apply H; reflexivity || discriminate.
Defined.
